(** * search-server: the filter / sort / paginate pipeline of [server.go]

    A shallow embedding of [src/server.go] (package [main]) and of the parts of
    Go's standard library it relies on ([strings.Contains], [strconv.Atoi],
    slices with their capacity, [sort.Slice], [net/http]'s response writer),
    followed by the properties of the natural-language specification. *)

From stdpp Require Import gmap strings list.
From Stdlib Require Import ZArith Lia Ascii.

Local Open Scope string_scope.
Local Open Scope list_scope.
Local Open Scope Z_scope.

(** ** Go's [int] (64 bits on the platforms the server runs on) *)

Module GoInt.

Definition minInt : Z := - 2 ^ 63.
Definition maxInt : Z := 2 ^ 63 - 1.

Definition in_range (z : Z) : bool := (minInt <=? z) && (z <=? maxInt).

(** Two's complement wrap-around of an arithmetic result. *)
Definition wrap (z : Z) : Z := (z + 2 ^ 63) mod 2 ^ 64 - 2 ^ 63.

Definition sub (x y : Z) : Z := wrap (x - y).

End GoInt.

(** ** Go strings: byte sequences, [strings.Contains] and [<] *)

Module GoStrings.

(** [strings.HasPrefix(s, prefix)]. *)
Fixpoint HasPrefix (s prefix : string) {struct prefix} : bool :=
  match prefix with
  | EmptyString => true
  | String c prefix' =>
      match s with
      | EmptyString => false
      | String d s' => Ascii.eqb c d && HasPrefix s' prefix'
      end
  end.

(** [strings.Contains(s, substr)]: [substr] occurs in [s] at some byte
    offset; the empty string occurs in every string. *)
Fixpoint Contains (s substr : string) : bool :=
  HasPrefix s substr ||
  match s with
  | EmptyString => false
  | String _ s' => Contains s' substr
  end.

(** The occurrence relation [Contains] decides. *)
Definition Substring (sub s : string) : Prop :=
  exists pre post : string, s = pre +:+ sub +:+ post.

(** Go's [s < t] on strings: lexicographic on bytes. *)
Definition lt (s t : string) : bool := String.ltb s t.

End GoStrings.

(** ** Go's [error] values met in the server, and [strconv.Atoi] *)

Module GoErrors.

Inductive numErr : Type := ErrSyntax | ErrRange.

(** [errors.New(msg)] and [*strconv.NumError]. *)
Inductive error : Type :=
| errorString (msg : string)
| NumError (Func Num : string) (Err : numErr).

Definition numErr_Error (e : numErr) : string :=
  match e with
  | ErrSyntax => "invalid syntax"
  | ErrRange => "value out of range"
  end.

(** [err.Error()]; [Quote] stands for [strconv.Quote]. *)
Definition Error (Quote : string -> string) (e : error) : string :=
  match e with
  | errorString msg => msg
  | NumError f num err =>
      "strconv." +:+ f +:+ ": parsing " +:+ Quote num +:+ ": " +:+ numErr_Error err
  end.

End GoErrors.

Module strconv.
Import GoErrors.

Definition isDigit (c : Ascii.ascii) : bool :=
  let n := Z.of_nat (Ascii.nat_of_ascii c) in (48 <=? n) && (n <=? 57).

Definition digitVal (c : Ascii.ascii) : Z := Z.of_nat (Ascii.nat_of_ascii c) - 48.

Definition maxUint64 : Z := 2 ^ 64 - 1.

(** The digit loop of [ParseUint(s, 10, 64)], from accumulator [n]: a byte
    that is no decimal digit is a syntax error, an accumulator that leaves
    64 bits a range error, whichever comes first. *)
Fixpoint parseDigits (s : string) (n : Z) : Z * option numErr :=
  match s with
  | EmptyString => (n, None)
  | String c s' =>
      if negb (isDigit c) then (0, Some ErrSyntax)
      else if maxUint64 / 10 + 1 <=? n then (maxUint64, Some ErrRange)
      else
        let n1 := n * 10 + digitVal c in
        if maxUint64 <? n1 then (maxUint64, Some ErrRange)
        else parseDigits s' n1
  end.

Definition ParseUint (s : string) : Z * option numErr :=
  match s with
  | EmptyString => (0, Some ErrSyntax)
  | _ => parseDigits s 0
  end.

(** [ParseInt(s, 10, 0)] up to the name of the function in the error. *)
Definition ParseInt (s : string) : Z * option numErr :=
  match s with
  | EmptyString => (0, Some ErrSyntax)
  | String c rest =>
      let neg := Ascii.eqb c "-"%char in
      let digits := if Ascii.eqb c "+"%char || neg then rest else s in
      match ParseUint digits with
      | (_, Some ErrSyntax) => (0, Some ErrSyntax)
      | (un, _) =>
          let cutoff := 2 ^ 63 in
          if negb neg && (cutoff <=? un) then (cutoff - 1, Some ErrRange)
          else if neg && (cutoff <? un) then (- cutoff, Some ErrRange)
          else (if neg then - un else un, None)
      end
  end.

(** [strconv.Atoi(s)]: the fast path for short strings computes what
    [ParseInt] does. *)
Definition Atoi (s : string) : Z * option error :=
  let '(n, err) := ParseInt s in
  (n, NumError "Atoi" s <$> err).

(** What the specification calls an integer: an optional sign and one or
    more decimal digits. *)
Fixpoint allDigits (s : string) : bool :=
  match s with
  | EmptyString => true
  | String c s' => isDigit c && allDigits s'
  end.

Definition IntegerSyntax (s : string) : Prop :=
  exists (sign digits : string),
    s = sign +:+ digits /\ (sign = "" \/ sign = "+" \/ sign = "-") /\
    digits <> "" /\ allDigits digits = true.

End strconv.

(** ** Run-time panics *)

Inductive result (A : Type) : Type :=
| Ok (a : A)
| Panic.
Arguments Ok {A} a.
Arguments Panic {A}.

#[global] Instance result_ret : MRet result := fun A a => Ok a.
#[global] Instance result_bind : MBind result := fun A B f m =>
  match m with
  | Ok a => f a
  | Panic => Panic
  end.

(** ** Go slices: a window on a backing array, with a length and a capacity *)

Module GoSlice.

(** [elems] are the [len] elements of the slice; [spare] is what the backing
    array holds after them, up to the capacity. *)
Record slice (A : Type) : Type := mk { elems : list A; spare : list A }.
Arguments mk {A} elems spare.
Arguments elems {A} s.
Arguments spare {A} s.

Section Ops.
Context {A : Type}.

Definition len (s : slice A) : Z := Z.of_nat (length (elems s)).
Definition cap (s : slice A) : Z := Z.of_nat (length (elems s) + length (spare s)).

(** The [nil] slice, [make([]T, 0)] and the literal [[]T{}]: no element,
    no capacity. *)
Definition empty : slice A := mk [] [].

(** [s[lo:]]: a bound outside [0 <= lo <= len(s)] panics. *)
Definition from (s : slice A) (lo : Z) : result (slice A) :=
  if (0 <=? lo) && (lo <=? len s)
  then Ok (mk (drop (Z.to_nat lo) (elems s)) (spare s))
  else Panic.

(** [s[:hi]]: the bound is checked against the capacity, not the length;
    beyond the length the slice grows over the backing array. *)
Definition upto (s : slice A) (hi : Z) : result (slice A) :=
  if (0 <=? hi) && (hi <=? cap s)
  then let arr := elems s ++ spare s in
       Ok (mk (take (Z.to_nat hi) arr) (drop (Z.to_nat hi) arr))
  else Panic.

(** [append(s, x)]. With room left the element is stored in the backing
    array; otherwise a zeroed array of [growcap (len s)] elements (no
    fewer than [len s + 1]) is allocated and the elements are copied. *)
Definition append (growcap : nat -> nat) (zero : A) (s : slice A) (x : A) : slice A :=
  match spare s with
  | _ :: rest => mk (elems s ++ [x]) rest
  | [] =>
      let n := length (elems s) in
      mk (elems s ++ [x]) (replicate (growcap n - S n) zero)
  end.

End Ops.

End GoSlice.

(** ** The data model of [server.go] *)

(** [type row struct]: one record of the XML data set. *)
Record row : Type := Row {
  row_ID : Z;
  FirstName : string;
  LastName : string;
  row_Age : Z;
  row_About : string;
  row_Gender : string
}.

(** [type xmlData struct]; [XMLName] plays no part in the pipeline. *)
Record xmlData : Type := XmlData { Rows : list row }.

(** [type User struct], the element type of the result. *)
Record User : Type := mkUser {
  ID : Z;
  Name : string;
  Age : Z;
  About : string;
  Gender : string
}.

(** Go's zero value of [User]. *)
Definition zeroUser : User := mkUser 0 "" 0 "" "".

(** [type queryDTO struct]. *)
Record queryDTO : Type := QueryDTO {
  query : string;
  orderField : string;
  orderBy : Z;
  offset : Z;
  limit : Z
}.

Definition isRowMatching (r : row) (query : string) : bool :=
  GoStrings.Contains (FirstName r) query ||
  GoStrings.Contains (LastName r) query ||
  GoStrings.Contains (row_About r) query.

(** The [User] that [filterData] appends for a row. *)
Definition userOfRow (r : row) : User :=
  {| ID := row_ID r;
     Name := FirstName r +:+ " " +:+ LastName r;
     Age := row_Age r;
     About := row_About r;
     Gender := row_Gender r |}.

Section Filter.
(** The growth policy of [append], fixed by the Go runtime. *)
Variable growcap : nat -> nat.

(** The [for _, row := range data.Rows] loop over the rows left, with the
    [result] slice built so far. *)
Fixpoint filterLoop (rows : list row) (query : string)
         (result : GoSlice.slice User) : GoSlice.slice User :=
  match rows with
  | [] => result
  | r :: rows' =>
      if negb (String.eqb query "") && negb (isRowMatching r query)
      then filterLoop rows' query result
      else filterLoop rows' query
             (GoSlice.append growcap zeroUser result (userOfRow r))
  end.

Definition filterData (data : xmlData) (query : string) : GoSlice.slice User :=
  filterLoop (Rows data) query GoSlice.empty.

End Filter.

(** [paginateData]: [limit - 1] is a machine subtraction. *)
Definition paginateData (data : GoSlice.slice User) (offset limit : Z)
  : result (GoSlice.slice User) :=
  data ← (if 0 <? offset
          then if offset <? GoSlice.len data
               then GoSlice.from data offset
               else Ok GoSlice.empty
          else Ok data);
  if 0 <? GoInt.sub limit 1
  then GoSlice.upto data limit
  else Ok data.

(** ** [sort.Slice]: the pattern-defeating quicksort of Go's [sort] package

    [sortData] hands its slice and comparator to [sort.Slice], which runs
    [pdqsort_func] (Go 1.19 and later) through the [Less] and [Swap] of a
    [lessSwap]. The functions keep the names of that file; loops are
    recursions on the number of iterations they can still make. *)

Module GoSort.

Inductive sortedHint : Type := unknownHint | increasingHint | decreasingHint.

Definition isIncreasing (h : sortedHint) : bool :=
  match h with increasingHint => true | _ => false end.

(** [bits.Len(uint(n))] for a length [n]. *)
Definition bitsLen (n : Z) : Z := if n <=? 0 then 0 else Z.log2 n + 1.

Definition nextPowerOfTwo (length : Z) : Z := Z.shiftl 1 (bitsLen length).

(** The [Next] method of [xorshift], on a 64-bit state. *)
Definition xorshift_Next (r : Z) : Z :=
  let r := Z.lxor r (Z.shiftl r 13 mod 2 ^ 64) in
  let r := Z.lxor r (Z.shiftr r 7) in
  Z.lxor r (Z.shiftl r 17 mod 2 ^ 64).

Section WithLess.
Context {A : Type} (less : A -> A -> bool).

Definition at_ (data : list A) (i : Z) : option A :=
  if i <? 0 then None else data !! Z.to_nat i.

(** [data.Less(i, j)] and [data.Swap(i, j)] on the current contents. The
    indices that the sort passes lie within the slice; outside of it [Less]
    is [false] here and [Swap] changes nothing. *)
Definition Less (data : list A) (i j : Z) : bool :=
  match at_ data i, at_ data j with
  | Some x, Some y => less x y
  | _, _ => false
  end.

Definition Swap (data : list A) (i j : Z) : list A :=
  match at_ data i, at_ data j with
  | Some x, Some y => <[Z.to_nat j := x]> (<[Z.to_nat i := y]> data)
  | _, _ => data
  end.

(** [for j := i; j > a && data.Less(j, j-1); j-- { data.Swap(j, j-1) }] *)
Fixpoint sinkLoop (n : nat) (data : list A) (a j : Z) : list A :=
  match n with
  | O => data
  | S n' =>
      if (a <? j) && Less data j (j - 1)
      then sinkLoop n' (Swap data j (j - 1)) a (j - 1)
      else data
  end.

Fixpoint insertionLoop (n : nat) (data : list A) (a b i : Z) : list A :=
  match n with
  | O => data
  | S n' =>
      if i <? b
      then insertionLoop n' (sinkLoop (Z.to_nat (i - a)) data a i) a b (i + 1)
      else data
  end.

Definition insertionSort_func (data : list A) (a b : Z) : list A :=
  insertionLoop (Z.to_nat (b - (a + 1))) data a b (a + 1).

Fixpoint siftDownLoop (n : nat) (data : list A) (root hi first : Z) : list A :=
  match n with
  | O => data
  | S n' =>
      let child := 2 * root + 1 in
      if hi <=? child then data
      else
        let child :=
          if (child + 1 <? hi) && Less data (first + child) (first + child + 1)
          then child + 1 else child in
        if negb (Less data (first + root) (first + child)) then data
        else siftDownLoop n' (Swap data (first + root) (first + child)) child hi first
  end.

Definition siftDown_func (data : list A) (lo hi first : Z) : list A :=
  siftDownLoop (Z.to_nat (hi - lo)) data lo hi first.

Fixpoint heapifyLoop (n : nat) (data : list A) (i hi first : Z) : list A :=
  match n with
  | O => data
  | S n' =>
      if 0 <=? i
      then heapifyLoop n' (siftDown_func data i hi first) (i - 1) hi first
      else data
  end.

Fixpoint popLoop (n : nat) (data : list A) (i first : Z) : list A :=
  match n with
  | O => data
  | S n' =>
      if 0 <=? i
      then popLoop n' (siftDown_func (Swap data first (first + i)) 0 i first)
                   (i - 1) first
      else data
  end.

Definition heapSort_func (data : list A) (a b : Z) : list A :=
  let first := a in
  let hi := b - a in
  let i := Z.quot (hi - 1) 2 in
  let data := heapifyLoop (Z.to_nat (i + 1)) data i hi first in
  popLoop (Z.to_nat hi) data (hi - 1) first.

(** [for i <= j && data.Less(i, a) { i++ }] *)
Fixpoint scanUp (n : nat) (data : list A) (a i j : Z) : Z :=
  match n with
  | O => i
  | S n' => if (i <=? j) && Less data i a then scanUp n' data a (i + 1) j else i
  end.

(** [for i <= j && !data.Less(j, a) { j-- }] *)
Fixpoint scanDown (n : nat) (data : list A) (a i j : Z) : Z :=
  match n with
  | O => j
  | S n' => if (i <=? j) && negb (Less data j a) then scanDown n' data a i (j - 1) else j
  end.

Definition span (i j : Z) : nat := Z.to_nat (j - i + 1).

(** The endless [for] of [partition_func]; it yields the data and [j]. *)
Fixpoint partitionLoop (n : nat) (data : list A) (a i j : Z) : list A * Z :=
  let i := scanUp (span i j) data a i j in
  let j := scanDown (span i j) data a i j in
  if j <? i then (data, j)
  else
    match n with
    | O => (data, j)
    | S n' => partitionLoop n' (Swap data i j) a (i + 1) (j - 1)
    end.

Definition partition_func (data : list A) (a b pivot : Z) : list A * Z * bool :=
  let data := Swap data a pivot in
  let i := a + 1 in
  let j := b - 1 in
  let i := scanUp (span i j) data a i j in
  let j := scanDown (span i j) data a i j in
  if j <? i then (Swap data j a, j, true)
  else
    let data := Swap data i j in
    let '(data, j) := partitionLoop (span (i + 1) (j - 1)) data a (i + 1) (j - 1) in
    (Swap data j a, j, false).

(** [for i <= j && !data.Less(a, i) { i++ }] *)
Fixpoint scanUpEq (n : nat) (data : list A) (a i j : Z) : Z :=
  match n with
  | O => i
  | S n' => if (i <=? j) && negb (Less data a i) then scanUpEq n' data a (i + 1) j else i
  end.

(** [for i <= j && data.Less(a, j) { j-- }] *)
Fixpoint scanDownEq (n : nat) (data : list A) (a i j : Z) : Z :=
  match n with
  | O => j
  | S n' => if (i <=? j) && Less data a j then scanDownEq n' data a i (j - 1) else j
  end.

Fixpoint partitionEqualLoop (n : nat) (data : list A) (a i j : Z) : list A * Z :=
  let i := scanUpEq (span i j) data a i j in
  let j := scanDownEq (span i j) data a i j in
  if j <? i then (data, i)
  else
    match n with
    | O => (data, i)
    | S n' => partitionEqualLoop n' (Swap data i j) a (i + 1) (j - 1)
    end.

Definition partitionEqual_func (data : list A) (a b pivot : Z) : list A * Z :=
  let data := Swap data a pivot in
  partitionEqualLoop (span (a + 1) (b - 1)) data a (a + 1) (b - 1).

(** [for i < b && !data.Less(i, i-1) { i++ }] *)
Fixpoint skipSorted (n : nat) (data : list A) (i b : Z) : Z :=
  match n with
  | O => i
  | S n' => if (i <? b) && negb (Less data i (i - 1)) then skipSorted n' data (i + 1) b else i
  end.

(** [for j := i - 1; j >= 1; j-- { if !data.Less(j, j-1) { break }; data.Swap(j, j-1) }] *)
Fixpoint shiftLeft (n : nat) (data : list A) (j : Z) : list A :=
  match n with
  | O => data
  | S n' =>
      if 1 <=? j
      then if negb (Less data j (j - 1)) then data
           else shiftLeft n' (Swap data j (j - 1)) (j - 1)
      else data
  end.

(** [for j := i + 1; j < b; j++ { if !data.Less(j, j-1) { break }; data.Swap(j, j-1) }] *)
Fixpoint shiftRight (n : nat) (data : list A) (j b : Z) : list A :=
  match n with
  | O => data
  | S n' =>
      if j <? b
      then if negb (Less data j (j - 1)) then data
           else shiftRight n' (Swap data j (j - 1)) (j + 1) b
      else data
  end.

Definition maxSteps : nat := 5.
Definition shortestShifting : Z := 50.

(** The [for j := 0; j < maxSteps; j++] loop of [partialInsertionSort_func],
    with [steps] iterations still to make. *)
Fixpoint partialInsertionLoop (steps : nat) (data : list A) (a b i : Z)
  : list A * bool :=
  match steps with
  | O => (data, false)
  | S steps' =>
      let i := skipSorted (Z.to_nat (b - i)) data i b in
      if i =? b then (data, true)
      else if b - a <? shortestShifting then (data, false)
      else
        let data := Swap data i (i - 1) in
        let data :=
          if 2 <=? i - a then shiftLeft (Z.to_nat (i - 1)) data (i - 1) else data in
        let data :=
          if 2 <=? b - i then shiftRight (Z.to_nat (b - (i + 1))) data (i + 1) b else data in
        partialInsertionLoop steps' data a b i
  end.

Definition partialInsertionSort_func (data : list A) (a b : Z) : list A * bool :=
  partialInsertionLoop maxSteps data a b (a + 1).

(** The three swaps of [breakPatterns_func], [i] counting them. *)
Fixpoint breakLoop (n : nat) (data : list A) (a length idx modulus random i : Z)
  : list A :=
  match n with
  | O => data
  | S n' =>
      let random := xorshift_Next random in
      let other := Z.land random (modulus - 1) in
      let other := if length <=? other then other - length else other in
      breakLoop n' (Swap data (idx - 1 + i) (a + other)) a length idx modulus random (i + 1)
  end.

Definition breakPatterns_func (data : list A) (a b : Z) : list A :=
  let length := b - a in
  if 8 <=? length
  then breakLoop 3 data a length (a + (length / 4) * 2 - 1)
                 (nextPowerOfTwo length) length 0
  else data.

(** [order2_func]: the two indices in order, and the swap count. *)
Definition order2_func (data : list A) (a b swaps : Z) : Z * Z * Z :=
  if Less data b a then (b, a, swaps + 1) else (a, b, swaps).

Definition median_func (data : list A) (a b c swaps : Z) : Z * Z :=
  let '(a, b, swaps) := order2_func data a b swaps in
  let '(b, c, swaps) := order2_func data b c swaps in
  let '(a, b, swaps) := order2_func data a b swaps in
  (b, swaps).

Definition medianAdjacent_func (data : list A) (a swaps : Z) : Z * Z :=
  median_func data (a - 1) a (a + 1) swaps.

Definition shortestNinther : Z := 50.
Definition maxSwaps : Z := 4 * 3.

Definition choosePivot_func (data : list A) (a b : Z) : Z * sortedHint :=
  let l := b - a in
  let swaps := 0 in
  let i := a + l / 4 * 1 in
  let j := a + l / 4 * 2 in
  let k := a + l / 4 * 3 in
  let '(j, swaps) :=
    if 8 <=? l then
      let '(i, j, k, swaps) :=
        if shortestNinther <=? l then
          let '(i, swaps) := medianAdjacent_func data i swaps in
          let '(j, swaps) := medianAdjacent_func data j swaps in
          let '(k, swaps) := medianAdjacent_func data k swaps in
          (i, j, k, swaps)
        else (i, j, k, swaps) in
      median_func data i j k swaps
    else (j, swaps) in
  if swaps =? 0 then (j, increasingHint)
  else if swaps =? maxSwaps then (j, decreasingHint)
  else (j, unknownHint).

(** [for i < j { data.Swap(i, j); i++; j-- }] *)
Fixpoint reverseLoop (n : nat) (data : list A) (i j : Z) : list A :=
  match n with
  | O => data
  | S n' => if i <? j then reverseLoop n' (Swap data i j) (i + 1) (j - 1) else data
  end.

Definition reverseRange_func (data : list A) (a b : Z) : list A :=
  reverseLoop (Z.to_nat (b - a)) data a (b - 1).

Definition maxInsertion : Z := 12.

(** [pdqsort_func]: one unit of [fuel] pays for one turn of its [for] loop
    or one level of its recursion; [None] when the fuel runs out. *)
Fixpoint pdqsort_func (fuel : nat) (data : list A) (a b limit : Z)
         (wasBalanced wasPartitioned : bool) : option (list A) :=
  match fuel with
  | O => None
  | S fuel' =>
      let length := b - a in
      if length <=? maxInsertion then Some (insertionSort_func data a b)
      else if limit =? 0 then Some (heapSort_func data a b)
      else
        let '(data, limit) :=
          if negb wasBalanced then (breakPatterns_func data a b, limit - 1)
          else (data, limit) in
        let '(pivot, hint) := choosePivot_func data a b in
        let '(data, pivot, hint) :=
          match hint with
          | decreasingHint =>
              (reverseRange_func data a b, (b - 1) - (pivot - a), increasingHint)
          | _ => (data, pivot, hint)
          end in
        let '(data, sorted) :=
          if wasBalanced && wasPartitioned && isIncreasing hint
          then partialInsertionSort_func data a b
          else (data, false) in
        if sorted then Some data
        else if (0 <? a) && negb (Less data (a - 1) pivot) then
          let '(data, mid) := partitionEqual_func data a b pivot in
          pdqsort_func fuel' data mid b limit wasBalanced wasPartitioned
        else
          let '(data, mid, alreadyPartitioned) := partition_func data a b pivot in
          let leftLen := mid - a in
          let rightLen := b - mid in
          let balanceThreshold := length / 8 in
          if leftLen <? rightLen then
            data ← pdqsort_func fuel' data a mid limit true true;
            pdqsort_func fuel' data (mid + 1) b limit
                         (balanceThreshold <=? leftLen) alreadyPartitioned
          else
            data ← pdqsort_func fuel' data (mid + 1) b limit true true;
            pdqsort_func fuel' data a mid limit
                         (balanceThreshold <=? rightLen) alreadyPartitioned
  end.

(** [sort.Slice(x, less)] on the elements of the slice; a length's worth of
    fuel and one more always suffices (see [pdqsort_func_terminates]). *)
Definition Slice_run (data : list A) : option (list A) :=
  let length := Z.of_nat (List.length data) in
  pdqsort_func (S (List.length data)) data 0 length (bitsLen length) true true.

Definition Slice (data : list A) : list A := default data (Slice_run data).

End WithLess.

End GoSort.

(** ** [net/http]: requests and the response writer *)

Module http.

Definition StatusOK : Z := 200.
Definition StatusBadRequest : Z := 400.
Definition StatusUnauthorized : Z := 401.
Definition StatusInternalServerError : Z := 500.

(** The line feed that [fmt.Fprintln] adds, and the double quote. *)
Definition nl : string := String (Ascii.ascii_of_nat 10) "".
Definition dq : string := String (Ascii.ascii_of_nat 34) "".

(** What the handler reads of [*http.Request]: the value of
    [r.Header.Get("AccessToken")] and the map [r.URL.Query()]. *)
Record Request : Type := mkRequest {
  AccessToken : string;
  URL_Query : gmap string (list string)
}.

(** [url.Values.Get]: the first value of the key, or the empty string. *)
Definition Get (v : gmap string (list string)) (key : string) : string :=
  match v !! key with
  | Some (first :: _) => first
  | _ => ""
  end.

(** A write on the body: text, or the bytes of [json.Marshal] on a slice
    of users. *)
Inductive chunk : Type :=
| Text (s : string)
| JSON (users : list User).

(** An in-memory [http.ResponseWriter]: the header map, the status line
    once it is written, and the writes on the body in order. Writes on it
    do not fail. *)
Record ResponseWriter : Type := mkWriter {
  header : gmap string string;
  status : option Z;
  body : list chunk
}.

Definition NewRecorder : ResponseWriter := mkWriter ∅ None [].

Definition Header_Set (key value : string) (w : ResponseWriter) : ResponseWriter :=
  mkWriter (<[key := value]> (header w)) (status w) (body w).

Definition Header_Del (key : string) (w : ResponseWriter) : ResponseWriter :=
  mkWriter (delete key (header w)) (status w) (body w).

(** [w.WriteHeader(code)]: a second call is superfluous and ignored. *)
Definition WriteHeader (code : Z) (w : ResponseWriter) : ResponseWriter :=
  match status w with
  | Some _ => w
  | None => mkWriter (header w) (Some code) (body w)
  end.

(** [w.Write(b)]: writes the status line [200] first when none was. *)
Definition Write (b : chunk) (w : ResponseWriter) : ResponseWriter :=
  let w := WriteHeader StatusOK w in
  mkWriter (header w) (status w) (body w ++ [b]).

(** [http.Error(w, error, code)]. *)
Definition Error (w : ResponseWriter) (error : string) (code : Z) : ResponseWriter :=
  let w := Header_Del "Content-Length" w in
  let w := Header_Set "Content-Type" "text/plain; charset=utf-8" w in
  let w := Header_Set "X-Content-Type-Options" "nosniff" w in
  let w := WriteHeader code w in
  Write (Text (error +:+ nl)) w.

End http.

(** ** The server *)

(** [var accessToken] of the package. *)
Definition accessToken : string := "qwerty12345".

(** What opening, reading and decoding [fileName] gives the handler. *)
Inductive source : Type :=
| OpenFails (err : GoErrors.error)
| ReadFails (err : GoErrors.error)
| UnmarshalFails (err : GoErrors.error)
| Loaded (data : xmlData).

(** How a call of the handler ends: it returns, or a run-time panic unwinds
    it, in both cases with what was written on the response so far. *)
Inductive outcome : Type :=
| Returned (w : http.ResponseWriter)
| Panicked (w : http.ResponseWriter).

Definition written (o : outcome) : http.ResponseWriter :=
  match o with Returned w | Panicked w => w end.

(** Assignments to the fields of a [queryDTO]. *)
Definition set_query (q : queryDTO) (v : string) : queryDTO :=
  QueryDTO v (orderField q) (orderBy q) (offset q) (limit q).
Definition set_orderField (q : queryDTO) (v : string) : queryDTO :=
  QueryDTO (query q) v (orderBy q) (offset q) (limit q).
Definition set_orderBy (q : queryDTO) (v : Z) : queryDTO :=
  QueryDTO (query q) (orderField q) v (offset q) (limit q).
Definition set_offset (q : queryDTO) (v : Z) : queryDTO :=
  QueryDTO (query q) (orderField q) (orderBy q) v (limit q).
Definition set_limit (q : queryDTO) (v : Z) : queryDTO :=
  QueryDTO (query q) (orderField q) (orderBy q) (offset q) v.

(** [parseParams] fills the receiver [q]; it returns the filled [queryDTO]
    with the [error]. Each [strconv.Atoi] assigns the one variable [err]. *)
Definition parseParams (q : queryDTO) (r : http.Request) : queryDTO * option GoErrors.error :=
  let queryValues := http.URL_Query r in
  let q := set_query q (http.Get queryValues "query") in
  let q := set_orderField q (http.Get queryValues "order_field") in
  let '(n, err) := strconv.Atoi (http.Get queryValues "order_by") in
  let q := set_orderBy q n in
  let q := if err is Some _ then set_orderBy q 0 else q in
  let '(n, err) := strconv.Atoi (http.Get queryValues "offset") in
  let q := set_offset q n in
  let q := if err is Some _ then set_offset q 0 else q in
  let '(n, err) := strconv.Atoi (http.Get queryValues "limit") in
  let q := set_limit q n in
  let q := if err is Some _ then set_limit q 0 else q in
  (q, err).

(** The zero [queryDTO] of [&queryDTO{}]. *)
Definition zeroQuery : queryDTO := QueryDTO "" "" 0 0 0.

(** [sendResponse] on a slice of users: [json.Marshal] does not fail on it. *)
Definition sendResponse (w : http.ResponseWriter) (data : GoSlice.slice User)
  : http.ResponseWriter :=
  let jsonFile := http.JSON (GoSlice.elems data) in
  let w := http.Header_Set "Content-Type" "application/json" w in
  http.Write jsonFile w.

Section Server.
(** The constants [OrderByAsc] and [OrderByAsIs] of the client file of the
    package, the growth policy of [append] and [strconv.Quote]. *)
Variables OrderByAsc OrderByAsIs : Z.
Variable growcap : nat -> nat.
Variable Quote : string -> string.

(** The comparator that the [switch] of [sortData] selects, on the elements
    that [data[i]] and [data[j]] denote; [None] in the [default] case. *)
Definition isLess (orderField : string) (orderBy : Z) : option (User -> User -> bool) :=
  if String.eqb orderField "" || String.eqb orderField "name" then
    Some (fun x y => GoStrings.lt (Name x) (Name y) && (orderBy =? OrderByAsc))
  else if String.eqb orderField "id" then
    Some (fun x y => (ID x <? ID y) && (orderBy =? OrderByAsc))
  else if String.eqb orderField "age" then
    Some (fun x y => (Age x <? Age y) && (orderBy =? OrderByAsc))
  else None.

Definition sortData (data : GoSlice.slice User) (orderField : string) (orderBy : Z)
  : GoSlice.slice User * option GoErrors.error :=
  match isLess orderField orderBy with
  | None => (GoSlice.empty, Some (GoErrors.errorString "OrderField invalid"))
  | Some less =>
      (GoSlice.mk (GoSort.Slice less (GoSlice.elems data)) (GoSlice.spare data), None)
  end.

(** The end of the handler: pagination and the response. *)
Definition paginateAndSend (w : http.ResponseWriter) (result : GoSlice.slice User)
           (params : queryDTO) : outcome :=
  match paginateData result (offset params) (limit params) with
  | Panic => Panicked w
  | Ok result => Returned (sendResponse w result)
  end.

(** The body of the [400] response. *)
Definition errorEnvelope (msg : string) : string :=
  "{ " +:+ http.dq +:+ "Error" +:+ http.dq +:+ ": " +:+ http.dq +:+ msg +:+ http.dq +:+ " }".

(** [SearchServer]. The response writer is in memory, so that the branches
    taken when [w.Write] fails are left out. *)
Definition SearchServer (src : source) (w : http.ResponseWriter) (r : http.Request)
  : outcome :=
  if negb (String.eqb (http.AccessToken r) accessToken) then
    Returned (http.Error w "Invalid AccessToken" http.StatusUnauthorized)
  else
    match src with
    | OpenFails err | ReadFails err | UnmarshalFails err =>
        Returned (http.Error w (GoErrors.Error Quote err) http.StatusInternalServerError)
    | Loaded data =>
        let '(params, err) := parseParams zeroQuery r in
        let w := match err with
                 | Some err =>
                     http.Error w (GoErrors.Error Quote err) http.StatusInternalServerError
                 | None => w
                 end in
        let result := filterData growcap data (query params) in
        if negb (orderBy params =? OrderByAsIs) then
          match sortData result (orderField params) (orderBy params) with
          | (_, Some err) =>
              let w := http.Header_Set "Content-Type" "application/json" w in
              let w := http.WriteHeader http.StatusBadRequest w in
              let jsonStr := errorEnvelope (GoErrors.Error Quote err) in
              Returned (http.Write (http.Text jsonStr) w)
          | (sortedData, None) => paginateAndSend w sortedData params
          end
        else paginateAndSend w result params
    end.

End Server.

(** ** The words of the specification, and sample data *)

(** The records a filter keeps out of [rows], in their order, for an
    inclusion test [P] on rows. *)
Inductive Filtered (P : row -> Prop) : list row -> list User -> Prop :=
| Filtered_nil : Filtered P [] []
| Filtered_keep r rows users :
    P r -> Filtered P rows users -> Filtered P (r :: rows) (userOfRow r :: users)
| Filtered_skip r rows users :
    ~ P r -> Filtered P rows users -> Filtered P (r :: rows) users.

(** The inclusion test of the specification: the filter is empty, or occurs
    in the full name, or occurs in the biography. *)
Definition includedByFullName (query : string) (r : row) : Prop :=
  query = "" \/
  GoStrings.Substring query (Name (userOfRow r)) \/
  GoStrings.Substring query (row_About r).

(** The inclusion test on the fields that [isRowMatching] reads. *)
Definition includedByFields (query : string) (r : row) : Prop :=
  query = "" \/
  GoStrings.Substring query (FirstName r) \/
  GoStrings.Substring query (LastName r) \/
  GoStrings.Substring query (row_About r).

(** What is left of a sequence after an offset: nothing is dropped for an
    offset of zero or less, everything for one at or past the length. *)
Definition dropOffset (users : list User) (offset : Z) : list User :=
  if 0 <? offset then drop (Z.to_nat offset) users else users.

(** Strictly less on the field that a recognized [order_field] selects. *)
Definition fieldLess (orderField : string) (x y : User) : bool :=
  if String.eqb orderField "id" then ID x <? ID y
  else if String.eqb orderField "age" then Age x <? Age y
  else GoStrings.lt (Name x) (Name y).

Definition recognizedField (orderField : string) : Prop :=
  orderField = "" \/ orderField = "name" \/ orderField = "id" \/ orderField = "age".

(** The response that the specification promises for an order field that is
    not recognized: status 400 and an envelope whose message names the field. *)
Definition namesFieldIn400 (field : string) (w : http.ResponseWriter) : Prop :=
  http.status w = Some http.StatusBadRequest /\
  exists msg, http.body w = [http.Text msg] /\ GoStrings.Substring field msg.

(** The response writer that the handler goes on with after the parse step,
    from a fresh one. *)
Definition afterParse (Quote : string -> string) (err : option GoErrors.error)
  : http.ResponseWriter :=
  match err with
  | Some err =>
      http.Error http.NewRecorder (GoErrors.Error Quote err) http.StatusInternalServerError
  | None => http.NewRecorder
  end.

(** The sequence handed to the paginate stage when the sort stage is skipped
    or accepts the field. *)
Definition staged (OrderByAsc OrderByAsIs : Z) (growcap : nat -> nat)
           (data : xmlData) (params : queryDTO) : GoSlice.slice User :=
  let result := filterData growcap data (query params) in
  if orderBy params =? OrderByAsIs then result
  else (sortData OrderByAsc result (orderField params) (orderBy params)).1.

(** The records that a response carries. *)
Definition recordsOf (w : http.ResponseWriter) : list User :=
  flat_map (fun c => match c with http.JSON users => users | http.Text _ => [] end)
           (http.body w).

(** *** Instances for the examples *)

(** The values of [OrderByAsc] and [OrderByAsIs] in the client file. *)
Definition orderByAsc : Z := -1.
Definition orderByAsIs : Z := 0.

(** [append] doubles a full backing array (from no capacity: one element).
    Every Go runtime grows a slice of users so up to a capacity of eight;
    beyond that the capacity depends on the release (Go 1.18 to 1.21 keep
    doubling, later ones round 16 up to 17, then 35, 75), which is why the
    properties below take the growth as a parameter, and why the examples
    whose outcome depends on the capacity have no more than eight records. *)
Definition growDouble (n : nat) : nat := if (n =? 0)%nat then 1%nat else (2 * n)%nat.

(** [strconv.Quote] on printable ASCII text without quotes or backslashes. *)
Definition quotePlain (s : string) : string := http.dq +:+ s +:+ http.dq.

(** A record whose full name holds [d W], across the joining space only. *)
Definition boydWolf : row := Row 5 "Boyd" "Wolf" 22 "Nulla cillum enim" "male".

Definition sampleRow (i : nat) : row :=
  Row (Z.of_nat i) "Boyd" "Wolf" (20 + Z.of_nat (i mod 7)) "Nulla cillum enim" "male".

(** A data set of [n] records with the identifiers [0 .. n-1]. *)
Definition sampleData (n : nat) : xmlData := XmlData (sampleRow <$> seq 0 n).

Definition sampleUser (id age : Z) : User := mkUser id "Boyd Wolf" age "Nulla cillum enim" "male".

(** Thirteen users of the same age but the last, who is younger. *)
Definition thirteen : list User :=
  ((fun i => sampleUser (Z.of_nat i) 30) <$> seq 0 12) ++ [sampleUser 12 21].

Definition request (params : list (string * string)) : http.Request :=
  http.mkRequest accessToken (list_to_map ((fun kv => (kv.1, [kv.2])) <$> params)).

(** The handler of the examples, on a data set of 35 records. *)
Definition handler35 (r : http.Request) : outcome :=
  SearchServer orderByAsc orderByAsIs growDouble quotePlain
               (Loaded (sampleData 35)) http.NewRecorder r.

(** An order field that is not recognized, with a direction that is not
    as-is: with a limit, and without one. *)
Definition randomField : http.Request :=
  request [("query", "do"); ("order_field", "random"); ("order_by", "-1");
           ("offset", "0"); ("limit", "5")].
Definition randomFieldNoLimit : http.Request :=
  request [("query", "do"); ("order_field", "random"); ("order_by", "-1")].

(** A limit above 25. *)
Definition limit26 : http.Request :=
  request [("order_by", "0"); ("offset", "0"); ("limit", "26")].

(** A direction as-is with an order field that is not recognized. *)
Definition asIsRandomField : http.Request :=
  request [("order_field", "random"); ("order_by", "0"); ("offset", "5");
           ("limit", "10")].

(** A filter and nothing else. *)
Definition queryOnly : http.Request := request [("query", "Boyd")].

(** ** Further notions for the properties of the pipeline *)

(** The capacity left for [data[:limit]] once [paginateData] has applied the
    offset: the literal [[]User{}] has none. *)
Definition restCap (data : GoSlice.slice User) (offset : Z) : Z :=
  if 0 <? offset
  then if offset <? GoSlice.len data then GoSlice.cap data - offset else 0
  else GoSlice.cap data.


(** A source that could not be loaded, with its error. *)
Definition loadError (src : source) : option GoErrors.error :=
  match src with
  | OpenFails err | ReadFails err | UnmarshalFails err => Some err
  | Loaded _ => None
  end.

(** A data set with one record, and requests for the examples. *)
Definition oneRecord : xmlData := XmlData [boydWolf].


Definition descendingById : http.Request :=
  request [("order_field", "id"); ("order_by", "1"); ("offset", "0"); ("limit", "5")].

Definition badToken : http.Request := http.mkRequest "guess" ∅.

Definition malformedLimit : http.Request := request [("limit", "ten")].

Definition ascendingByAge : http.Request :=
  request [("order_field", "age"); ("order_by", "-1"); ("offset", "0"); ("limit", "5")].

(** On five records, four are left after the offset; the page asks for six. *)
Definition offset1 : http.Request :=
  request [("order_by", "0"); ("offset", "1"); ("limit", "6")].

(** An offset that leaves none of 35 records. *)
Definition offset35 : http.Request :=
  request [("order_by", "0"); ("offset", "35"); ("limit", "10")].

(** The handler on a data set of five records, whose result lies in a
    backing array of eight. *)
Definition handler5 (r : http.Request) : outcome :=
  SearchServer orderByAsc orderByAsIs growDouble quotePlain
               (Loaded (sampleData 5)) http.NewRecorder r.

(** The five records of a data set as the filter returns them, in a backing
    array of eight. *)
Definition fiveOfEight : GoSlice.slice User := filterData growDouble (sampleData 5) "".

Definition missingFile : source :=
  OpenFails (GoErrors.errorString "open dataset.xml: no such file or directory").

(** Go's zero value inhabits [User]. *)
#[global] Instance User_inhabited : Inhabited User := populate zeroUser.

(** ** What it means for [sort.Slice] to sort *)

Module SortSpec.

Section Spec.
Context {A : Type} `{Inhabited A} (less : A -> A -> bool).

(** The element at an index of the slice, and the length as an [int]. *)
Definition get (d : list A) (k : Z) : A := d !!! Z.to_nat k.
Definition len (d : list A) : Z := Z.of_nat (length d).

(** No element of [d[a:b]] is less than one before it. *)
Definition sortedRange (a b : Z) (d : list A) : Prop :=
  forall i j, a <= i -> i < j -> j < b -> less (get d j) (get d i) = false.

(** No element of [d[a:b]] is less than the one just before it. *)
Definition adjSorted (a b : Z) (d : list A) : Prop :=
  forall k, a < k -> k < b -> less (get d k) (get d (k - 1)) = false.

(** [d'] is [d] with the elements of [d[a:b]] moved about within [d[a:b]]:
    the length and the elements outside are kept, and every element inside
    comes from inside. *)
Definition Within (a b : Z) (d d' : list A) : Prop :=
  length d' = length d /\
  (forall k, 0 <= k < len d -> ~ (a <= k < b) -> get d' k = get d k) /\
  (forall k, a <= k < b -> exists k', a <= k' < b /\ get d' k = get d k').

(** The element before [d[a:b]], when there is one, is less than none of
    [d[a:b]]. *)
Definition lowerBounded (a b : Z) (d : list A) : Prop :=
  0 < a -> forall k, a <= k < b -> less (get d k) (get d (a - 1)) = false.

(** In the heap [d[first:first+hi]], the node [r] is less than none of its
    children. *)
Definition heapNode (d : list A) (first hi r : Z) : Prop :=
  forall c, (c = 2 * r + 1 \/ c = 2 * r + 2) -> c < hi ->
    less (get d (first + r)) (get d (first + c)) = false.

(** The comparator is a strict weak order. *)
Record StrictWeak : Prop := {
  less_irrefl : forall x, less x x = false;
  less_trans : forall x y z, less x y = true -> less y z = true -> less x z = true;
  less_ntrans : forall x y z, less x y = false -> less y z = false -> less x z = false
}.

End Spec.

(** A list in non-decreasing order for [less]. *)
Definition Sorted {A : Type} (less : A -> A -> bool) (l : list A) : Prop :=
  forall (i j : nat) x y,
    (i < j)%nat -> l !! i = Some x -> l !! j = Some y -> less y x = false.

End SortSpec.

(** * Properties

    ** Strings, integers and slices *)

Lemma wrap_in_range z : GoInt.in_range z = true -> GoInt.wrap z = z.
Proof.
  unfold GoInt.in_range, GoInt.wrap, GoInt.minInt, GoInt.maxInt. intros H.
  apply andb_prop in H as [H1 H2].
  apply Z.leb_le in H1. apply Z.leb_le in H2.
  rewrite Z.mod_small; lia.
Qed.

Lemma HasPrefix_spec s p : GoStrings.HasPrefix s p = true <-> exists post, s = p +:+ post.
Proof.
  revert s. induction p as [|c p IH]; intros s; simpl.
  - split; [intros _; now exists s | reflexivity].
  - destruct s as [|d s].
    + split; [discriminate | intros [post H]; discriminate].
    + rewrite andb_true_iff, IH, Ascii.eqb_eq. split.
      * intros [-> [post ->]]. now exists post.
      * intros [post H]. injection H as -> ->. split; [reflexivity | now exists post].
Qed.

Lemma Contains_spec s sub : GoStrings.Contains s sub = true <-> GoStrings.Substring sub s.
Proof.
  unfold GoStrings.Substring. induction s as [|d s IH]; simpl.
  - rewrite orb_false_r, HasPrefix_spec. split.
    + intros [post H]. now exists EmptyString, post.
    + intros [pre [post H]]. destruct pre; simpl in H.
      * now exists post.
      * discriminate.
  - rewrite orb_true_iff, HasPrefix_spec, IH. split.
    + intros [[post H] | [pre [post H]]].
      * now exists EmptyString, post.
      * exists (String d pre), post. simpl. now rewrite H.
    + intros [pre [post H]]. destruct pre as [|e pre]; simpl in H.
      * left. now exists post.
      * right. injection H as _ H. now exists pre, post.
Qed.

Lemma Contains_empty s : GoStrings.Contains s EmptyString = true.
Proof. destruct s; reflexivity. Qed.

Lemma Contains_false s sub : GoStrings.Contains s sub = false <-> ~ GoStrings.Substring sub s.
Proof.
  rewrite <- Contains_spec. destruct (GoStrings.Contains s sub); split; intros H;
    congruence.
Qed.

Lemma parseDigits_ok s n v : strconv.parseDigits s n = (v, None) -> strconv.allDigits s = true.
Proof.
  revert n. induction s as [|c s IH]; intros n; simpl; [reflexivity|].
  destruct (strconv.isDigit c); simpl; [|discriminate].
  destruct (_ <=? n); [discriminate|].
  destruct (strconv.maxUint64 <? _); [discriminate|]. apply IH.
Qed.

Lemma ParseUint_ok s v : strconv.ParseUint s = (v, None) -> s <> "" /\ strconv.allDigits s = true.
Proof.
  destruct s as [|c s]; [discriminate|]. unfold strconv.ParseUint. intros H.
  split; [discriminate | eapply parseDigits_ok, H].
Qed.

Lemma parseDigits_range s n v : strconv.parseDigits s n = (v, Some GoErrors.ErrRange) -> v = strconv.maxUint64.
Proof.
  revert n. induction s as [|c s IH]; intros n; simpl; [discriminate|].
  destruct (strconv.isDigit c); simpl; [|discriminate].
  destruct (_ <=? n); [congruence|].
  destruct (strconv.maxUint64 <? _); [congruence|]. apply IH.
Qed.

Lemma ParseInt_ok s v : strconv.ParseInt s = (v, None) -> strconv.IntegerSyntax s.
Proof.
  destruct s as [|c rest]; [discriminate|]. unfold strconv.ParseInt.
  destruct (strconv.ParseUint _) as [un [[]|]] eqn:E; [discriminate| |].
  - assert (un = strconv.maxUint64) as ->.
    { revert E. generalize (if Ascii.eqb c "+" || Ascii.eqb c "-"
                             then rest else String c rest).
      intros [|d ds] E; [discriminate|]. eapply parseDigits_range, E. }
    destruct (Ascii.eqb c "-"); simpl; discriminate.
  - intros _. apply ParseUint_ok in E as [Hne Hd].
    destruct (Ascii.eqb c "+"%char) eqn:Ep; [|destruct (Ascii.eqb c "-"%char) eqn:Em]; simpl in *.
    + apply Ascii.eqb_eq in Ep as ->. exists "+", rest. auto.
    + apply Ascii.eqb_eq in Em as ->. exists "-", rest. auto.
    + exists "", (String c rest). auto.
Qed.

Lemma Atoi_not_integer s : ~ strconv.IntegerSyntax s -> exists e, (strconv.Atoi s).2 = Some e.
Proof.
  intros H. unfold strconv.Atoi. destruct (strconv.ParseInt s) as [n [k|]] eqn:E; simpl.
  - eauto.
  - exfalso. eapply H, ParseInt_ok, E.
Qed.

Lemma Atoi_empty : strconv.Atoi "" = (0, Some (GoErrors.NumError "Atoi" "" GoErrors.ErrSyntax)).
Proof. reflexivity. Qed.

Lemma elems_append {A} growcap (zero : A) s x :
  GoSlice.elems (GoSlice.append growcap zero s x) = GoSlice.elems s ++ [x].
Proof. unfold GoSlice.append. now destruct (GoSlice.spare s). Qed.

(** ** [sort.Slice] permutes its input *)

Lemma insert_head_perm {A} (l : list A) (j : nat) (a y : A) :
  l !! j = Some y -> y :: <[j := a]> l ≡ₚ a :: l.
Proof.
  revert j. induction l as [|b l IH]; intros [|j] H; simplify_eq/=.
  - apply Permutation_swap.
  - etrans; [apply Permutation_swap|].
    etrans; [apply Permutation_skip, IH, H|]. apply Permutation_swap.
Qed.

Lemma insert_insert_perm {A} (l : list A) (i j : nat) (x y : A) :
  l !! i = Some x -> l !! j = Some y -> <[j := x]> (<[i := y]> l) ≡ₚ l.
Proof.
  revert i j. induction l as [|a l IH]; intros [|i] [|j] Hi Hj; simplify_eq/=.
  - reflexivity.
  - now apply insert_head_perm.
  - now apply insert_head_perm.
  - f_equiv. now apply IH.
Qed.

Section SortFacts.
Context {A : Type} (less : A -> A -> bool).
Implicit Types data : list A.

Lemma Swap_perm data i j : GoSort.Swap data i j ≡ₚ data.
Proof.
  unfold GoSort.Swap.
  destruct (GoSort.at_ data i) as [x|] eqn:Hi; [|reflexivity].
  destruct (GoSort.at_ data j) as [y|] eqn:Hj; [|reflexivity].
  unfold GoSort.at_ in *. repeat case_match; simplify_eq.
  now apply insert_insert_perm.
Qed.

Ltac loop_perm n :=
  induction n as [|n IH]; intros; simpl; [reflexivity|];
  repeat case_match; simpl; try reflexivity;
  try (rewrite IH); try (rewrite !Swap_perm); try reflexivity.

Lemma sinkLoop_perm n data a j : GoSort.sinkLoop less n data a j ≡ₚ data.
Proof. revert data j. loop_perm n. Qed.

Lemma insertionSort_perm data a b : GoSort.insertionSort_func less data a b ≡ₚ data.
Proof.
  unfold GoSort.insertionSort_func. generalize (a + 1) at 2. generalize (Z.to_nat (b - (a + 1))).
  intros n. revert data. induction n as [|n IH]; intros; simpl; [reflexivity|].
  case_match; [|reflexivity]. now rewrite IH, sinkLoop_perm.
Qed.

Lemma siftDown_perm data lo hi first : GoSort.siftDown_func less data lo hi first ≡ₚ data.
Proof.
  unfold GoSort.siftDown_func. generalize (Z.to_nat (hi - lo)). intros n.
  revert data lo. loop_perm n.
Qed.

Lemma heapSort_perm data a b : GoSort.heapSort_func less data a b ≡ₚ data.
Proof.
  unfold GoSort.heapSort_func.
  assert (Hh : forall n d i hi first, GoSort.heapifyLoop less n d i hi first ≡ₚ d).
  { induction n as [|n IH]; intros; simpl; [reflexivity|].
    case_match; [|reflexivity]. now rewrite IH, siftDown_perm. }
  assert (Hp : forall n d i first, GoSort.popLoop less n d i first ≡ₚ d).
  { induction n as [|n IH]; intros; simpl; [reflexivity|].
    case_match; [|reflexivity]. now rewrite IH, siftDown_perm, Swap_perm. }
  now rewrite Hp, Hh.
Qed.

Lemma partitionLoop_perm n data a i j : (GoSort.partitionLoop less n data a i j).1 ≡ₚ data.
Proof.
  revert data i j. induction n as [|n IH]; intros; simpl.
  - now case_match.
  - case_match; [reflexivity|]. now rewrite IH, Swap_perm.
Qed.

Lemma partition_perm data a b pivot : (GoSort.partition_func less data a b pivot).1.1 ≡ₚ data.
Proof.
  unfold GoSort.partition_func. case_match; simpl.
  - now rewrite !Swap_perm.
  - destruct (GoSort.partitionLoop _ _ _ _ _ _) as [d j] eqn:E. simpl.
    rewrite Swap_perm. change d with (d, j).1. rewrite <- E.
    now rewrite partitionLoop_perm, !Swap_perm.
Qed.

Lemma partitionEqual_perm data a b pivot :
  (GoSort.partitionEqual_func less data a b pivot).1 ≡ₚ data.
Proof.
  unfold GoSort.partitionEqual_func.
  assert (H : forall n d i j, (GoSort.partitionEqualLoop less n d a i j).1 ≡ₚ d).
  { induction n as [|n IH]; intros; simpl.
    - now case_match.
    - case_match; [reflexivity|]. now rewrite IH, Swap_perm. }
  now rewrite H, Swap_perm.
Qed.

Lemma partialInsertionSort_perm data a b :
  (GoSort.partialInsertionSort_func less data a b).1 ≡ₚ data.
Proof.
  unfold GoSort.partialInsertionSort_func.
  assert (Hl : forall n d j, GoSort.shiftLeft less n d j ≡ₚ d).
  { intros n. loop_perm n. }
  assert (Hr : forall n d j, GoSort.shiftRight less n d j b ≡ₚ d).
  { intros n. loop_perm n. }
  generalize (a + 1). generalize GoSort.maxSteps. intros n. revert data.
  induction n as [|n IH]; intros; simpl; [reflexivity|].
  repeat case_match; simpl; try reflexivity;
    rewrite IH, ?Hr, ?Hl, Swap_perm; reflexivity.
Qed.

Lemma breakPatterns_perm data a b : GoSort.breakPatterns_func data a b ≡ₚ data.
Proof.
  assert (H : forall n (d : list A) l idx m r i, GoSort.breakLoop n d a l idx m r i ≡ₚ d).
  { induction n as [|n IH]; intros; simpl; [reflexivity|].
    now rewrite IH, Swap_perm. }
  unfold GoSort.breakPatterns_func. cbv zeta. case_match; [apply H|reflexivity].
Qed.

Lemma reverseRange_perm data a b : GoSort.reverseRange_func data a b ≡ₚ data.
Proof.
  assert (H : forall n (d : list A) i j, GoSort.reverseLoop n d i j ≡ₚ d).
  { intros n. loop_perm n. }
  apply H.
Qed.

End SortFacts.

(** ** [pdqsort_func] ends, and what it returns is a permutation *)

Section SortRuns.
Context {A : Type} (less : A -> A -> bool).
Implicit Types data : list A.

Lemma scanUp_bounds n data a i j :
  i <= GoSort.scanUp less n data a i j <= Z.max i (j + 1).
Proof.
  revert i. induction n as [|n IH]; intros i; simpl; [lia|].
  destruct (i <=? j) eqn:E; simpl; [|lia]. apply Z.leb_le in E.
  case_match; [|lia]. specialize (IH (i + 1)). lia.
Qed.

Lemma scanDown_bounds n data a i j :
  Z.min j (i - 1) <= GoSort.scanDown less n data a i j <= j.
Proof.
  revert j. induction n as [|n IH]; intros j; simpl; [lia|].
  destruct (i <=? j) eqn:E; simpl; [|lia]. apply Z.leb_le in E.
  case_match; [|lia]. specialize (IH (j - 1)). lia.
Qed.

Lemma partitionLoop_bounds n data a i j :
  Z.min j (i - 1) <= (GoSort.partitionLoop less n data a i j).2 <= j.
Proof.
  revert data i j. induction n as [|n IH]; intros data i j; simpl;
    set (i' := GoSort.scanUp less _ data a i j);
    set (j' := GoSort.scanDown less _ data a i' j);
    pose proof (scanUp_bounds (GoSort.span i j) data a i j) as Hi;
    pose proof (scanDown_bounds (GoSort.span i' j) data a i' j) as Hj;
    fold i' in Hi; fold j' in Hj;
    destruct (j' <? i') eqn:E; simpl; try lia.
  apply Z.ltb_ge in E.
  specialize (IH (GoSort.Swap data i' j') (i' + 1) (j' - 1)). lia.
Qed.

Lemma partition_bounds data a b pivot :
  a < b -> a <= (GoSort.partition_func less data a b pivot).1.2 < b.
Proof.
  intros Hab. unfold GoSort.partition_func.
  set (d := GoSort.Swap data a pivot).
  set (i := GoSort.scanUp less _ d a (a + 1) (b - 1)).
  set (j := GoSort.scanDown less _ d a i (b - 1)).
  pose proof (scanUp_bounds (GoSort.span (a + 1) (b - 1)) d a (a + 1) (b - 1)) as Hi.
  pose proof (scanDown_bounds (GoSort.span i (b - 1)) d a i (b - 1)) as Hj.
  fold i in Hi. fold j in Hj.
  destruct (j <? i) eqn:E; simpl; [lia|]. apply Z.ltb_ge in E.
  pose proof (partitionLoop_bounds (GoSort.span (i + 1) (j - 1))
                (GoSort.Swap d i j) a (i + 1) (j - 1)) as Hl.
  destruct (GoSort.partitionLoop _ _ _ _ _ _) as [d' j']. simpl in *. lia.
Qed.

Lemma scanUpEq_lower n data a i j : i <= GoSort.scanUpEq less n data a i j.
Proof.
  revert i. induction n as [|n IH]; intros i; simpl; [lia|].
  case_match; [|lia]. specialize (IH (i + 1)). lia.
Qed.

Lemma partitionEqualLoop_lower n data a i j :
  i <= (GoSort.partitionEqualLoop less n data a i j).2.
Proof.
  revert data i j. induction n as [|n IH]; intros data i j; simpl;
    pose proof (scanUpEq_lower (GoSort.span i j) data a i j) as Hi;
    case_match; simpl; try lia.
  etrans; [|apply IH]. lia.
Qed.

Lemma partitionEqual_lower data a b pivot :
  a < (GoSort.partitionEqual_func less data a b pivot).2.
Proof.
  unfold GoSort.partitionEqual_func.
  pose proof (partitionEqualLoop_lower (GoSort.span (a + 1) (b - 1))
                (GoSort.Swap data a pivot) a (a + 1) (b - 1)). lia.
Qed.

(** Fuel beyond the length of the range is enough. *)
Lemma pdqsort_func_terminates fuel data a b limit wasBalanced wasPartitioned :
  (Z.to_nat (b - a) < fuel)%nat ->
  is_Some (GoSort.pdqsort_func less fuel data a b limit wasBalanced wasPartitioned).
Proof.
  revert data a b limit wasBalanced wasPartitioned.
  induction fuel as [|fuel IH]; intros data a b limit wb wp Hf; [lia|].
  cbn [GoSort.pdqsort_func]. cbv zeta.
  destruct (b - a <=? GoSort.maxInsertion) eqn:Hlen; [eauto|].
  apply Z.leb_gt in Hlen. unfold GoSort.maxInsertion in Hlen.
  destruct (limit =? 0); [eauto|].
  destruct (if negb wb then _ else _) as [d1 limit1].
  destruct (GoSort.choosePivot_func less d1 a b) as [pivot hint].
  destruct (match hint with GoSort.decreasingHint => _ | _ => _ end) as [[d2 pivot2] hint2].
  destruct (if wb && wp && GoSort.isIncreasing hint2 then _ else _) as [d3 sorted].
  destruct sorted; [eauto|].
  destruct ((0 <? a) && negb (GoSort.Less less d3 (a - 1) pivot2)).
  - pose proof (partitionEqual_lower d3 a b pivot2) as Hm.
    destruct (GoSort.partitionEqual_func less d3 a b pivot2) as [d4 mid].
    simpl in Hm. apply IH. lia.
  - pose proof (partition_bounds d3 a b pivot2) as Hm.
    destruct (GoSort.partition_func less d3 a b pivot2) as [[d4 mid] ap].
    simpl in Hm. specialize (Hm ltac:(lia)).
    destruct (mid - a <? b - mid).
    + destruct (IH d4 a mid limit1 true true ltac:(lia)) as [d5 ->]. simpl.
      apply IH. lia.
    + destruct (IH d4 (mid + 1) b limit1 true true ltac:(lia)) as [d5 ->]. simpl.
      apply IH. lia.
Qed.

Lemma pdqsort_func_perm fuel data a b limit wasBalanced wasPartitioned sorted :
  GoSort.pdqsort_func less fuel data a b limit wasBalanced wasPartitioned = Some sorted ->
  sorted ≡ₚ data.
Proof.
  revert data a b limit wasBalanced wasPartitioned sorted.
  induction fuel as [|fuel IH]; intros data a b limit wb wp sorted; [discriminate|].
  cbn [GoSort.pdqsort_func]. cbv zeta.
  destruct (b - a <=? GoSort.maxInsertion).
  { intros [= <-]. apply insertionSort_perm. }
  destruct (limit =? 0).
  { intros [= <-]. apply heapSort_perm. }
  destruct (if negb wb then _ else _) as [d1 limit1] eqn:E1.
  assert (d1 ≡ₚ data) as H1.
  { destruct (negb wb); simplify_eq; [apply breakPatterns_perm | reflexivity]. }
  destruct (GoSort.choosePivot_func less d1 a b) as [pivot hint].
  destruct (match hint with GoSort.decreasingHint => _ | _ => _ end)
    as [[d2 pivot2] hint2] eqn:E2.
  assert (d2 ≡ₚ data) as H2.
  { destruct hint; simplify_eq; try assumption. now rewrite reverseRange_perm. }
  destruct (if wb && wp && GoSort.isIncreasing hint2 then _ else _) as [d3 done] eqn:E3.
  assert (d3 ≡ₚ data) as H3.
  { destruct (wb && wp && GoSort.isIncreasing hint2); simplify_eq; [|assumption].
    pose proof (partialInsertionSort_perm less d2 a b) as Hp. rewrite E3 in Hp.
    simpl in Hp. now rewrite Hp. }
  destruct done; [intros [= <-]; assumption|].
  destruct ((0 <? a) && negb (GoSort.Less less d3 (a - 1) pivot2)).
  - pose proof (partitionEqual_perm less d3 a b pivot2) as Hp.
    destruct (GoSort.partitionEqual_func less d3 a b pivot2) as [d4 mid].
    simpl in Hp. intros H%IH. now rewrite H, Hp.
  - pose proof (partition_perm less d3 a b pivot2) as Hp.
    destruct (GoSort.partition_func less d3 a b pivot2) as [[d4 mid] ap].
    simpl in Hp.
    destruct (mid - a <? b - mid);
      (destruct (GoSort.pdqsort_func less fuel d4 _ _ limit1 true true) as [d5|] eqn:E5;
       [|discriminate]); simpl; apply IH in E5; intros H%IH;
      now rewrite H, E5, Hp.
Qed.

Lemma Slice_run_Some data : GoSort.Slice_run less data = Some (GoSort.Slice less data).
Proof.
  unfold GoSort.Slice. destruct (GoSort.Slice_run less data) eqn:E; [reflexivity|].
  exfalso. unfold GoSort.Slice_run in E. cbv zeta in E.
  eapply is_Some_None. rewrite <- E. apply pdqsort_func_terminates. lia.
Qed.

Lemma Slice_perm data : GoSort.Slice less data ≡ₚ data.
Proof. eapply pdqsort_func_perm. apply Slice_run_Some. Qed.

Lemma Slice_length data : length (GoSort.Slice less data) = length data.
Proof. apply Permutation_length, Slice_perm. Qed.

End SortRuns.

(** ** A comparator that never reports less leaves the slice as it is *)

Section NeverLess.
Context {A : Type} (less : A -> A -> bool).
Hypothesis never : forall x y, less x y = false.
Implicit Types data : list A.

Lemma Less_never data i j : GoSort.Less less data i j = false.
Proof. unfold GoSort.Less. repeat case_match; auto. Qed.

Lemma insertionSort_never data a b : GoSort.insertionSort_func less data a b = data.
Proof.
  unfold GoSort.insertionSort_func.
  generalize (a + 1) at 2. generalize (Z.to_nat (b - (a + 1))).
  induction n as [|n IH]; intros i; simpl; [reflexivity|].
  case_match; [|reflexivity].
  replace (GoSort.sinkLoop less _ data a i) with data; [apply IH|].
  destruct (Z.to_nat (i - a)); simpl; [reflexivity|].
  now rewrite Less_never, andb_false_r.
Qed.

Lemma choosePivot_never data a b :
  (GoSort.choosePivot_func less data a b).2 = GoSort.increasingHint.
Proof.
  assert (Hm : forall x y z s, GoSort.median_func less data x y z s = (y, s)).
  { intros. unfold GoSort.median_func, GoSort.order2_func.
    now rewrite !Less_never. }
  unfold GoSort.choosePivot_func, GoSort.medianAdjacent_func. cbv zeta.
  repeat (case_match; rewrite ?Hm in *; simplify_eq/=); reflexivity.
Qed.

Lemma skipSorted_never n data i b :
  Z.to_nat (b - i) = n -> i <= b -> GoSort.skipSorted less n data i b = b.
Proof.
  revert i. induction n as [|n IH]; intros i Hn Hi; simpl; [lia|].
  rewrite Less_never. simpl. rewrite andb_true_r.
  destruct (i <? b) eqn:E; [apply IH; lia | lia].
Qed.

Lemma partialInsertionSort_never data a b :
  a < b -> GoSort.partialInsertionSort_func less data a b = (data, true).
Proof.
  intros Hab. unfold GoSort.partialInsertionSort_func, GoSort.maxSteps.
  generalize 4%nat. intros steps.
  cbn [GoSort.partialInsertionLoop]. cbv zeta.
  rewrite skipSorted_never by lia. now rewrite Z.eqb_refl.
Qed.

Lemma bitsLen_pos n : 0 < n -> 0 < GoSort.bitsLen n.
Proof.
  intros Hn. unfold GoSort.bitsLen. destruct (n <=? 0) eqn:E; [lia|].
  pose proof (Z.log2_nonneg n). lia.
Qed.

Lemma pdqsort_func_never fuel data a b limit :
  0 < limit ->
  GoSort.pdqsort_func less (S fuel) data a b limit true true = Some data.
Proof.
  intros Hl. cbn [GoSort.pdqsort_func]. cbv zeta.
  destruct (b - a <=? GoSort.maxInsertion) eqn:Hlen.
  { now rewrite insertionSort_never. }
  apply Z.leb_gt in Hlen. unfold GoSort.maxInsertion in Hlen.
  destruct (limit =? 0) eqn:E; [lia|]. simpl.
  pose proof (choosePivot_never data a b) as Hh.
  destruct (GoSort.choosePivot_func less data a b) as [pivot hint].
  simpl in Hh. subst hint. simpl.
  rewrite partialInsertionSort_never by lia. reflexivity.
Qed.

(** [sort.Slice] with such a comparator moves nothing. *)
Lemma Slice_never data : GoSort.Slice less data = data.
Proof.
  unfold GoSort.Slice, GoSort.Slice_run. cbv zeta.
  destruct data as [|x data]; [reflexivity|].
  rewrite pdqsort_func_never; [reflexivity|].
  apply bitsLen_pos. simpl length. lia.
Qed.

End NeverLess.

(** ** The filter stage *)

Section FilterFacts.
Variable growcap : nat -> nat.

Lemma isRowMatching_spec r query :
  isRowMatching r query = true <->
  GoStrings.Substring query (FirstName r) \/
  GoStrings.Substring query (LastName r) \/
  GoStrings.Substring query (row_About r).
Proof.
  unfold isRowMatching. rewrite !orb_true_iff, !Contains_spec. tauto.
Qed.

(** The test that guards [continue] in the loop, as a proposition. *)
Lemma filter_guard_spec r query :
  negb (String.eqb query "") && negb (isRowMatching r query) = false <->
  includedByFields query r.
Proof.
  unfold includedByFields. rewrite <- isRowMatching_spec.
  destruct (String.eqb_spec query ""), (isRowMatching r query); simpl; intuition congruence.
Qed.

Lemma filterLoop_elems rows query result :
  exists users,
    GoSlice.elems (filterLoop growcap rows query result) = GoSlice.elems result ++ users /\
    Filtered (includedByFields query) rows users.
Proof.
  revert result. induction rows as [|r rows IH]; intros result; simpl.
  - exists []. split; [now rewrite app_nil_r | constructor].
  - destruct (negb (String.eqb query "") && negb (isRowMatching r query)) eqn:E.
    + destruct (IH result) as [users [H1 H2]]. exists users. split; [assumption|].
      apply Filtered_skip; [|assumption].
      rewrite <- filter_guard_spec. congruence.
    + destruct (IH (GoSlice.append growcap zeroUser result (userOfRow r)))
        as [users [H1 H2]].
      exists (userOfRow r :: users). split.
      * rewrite H1, elems_append, <- app_assoc. reflexivity.
      * apply Filtered_keep; [|assumption]. now apply filter_guard_spec.
Qed.

Lemma filterData_Filtered data query :
  Filtered (includedByFields query) (Rows data)
           (GoSlice.elems (filterData growcap data query)).
Proof.
  unfold filterData.
  destruct (filterLoop_elems (Rows data) query GoSlice.empty) as [users [-> H]].
  exact H.
Qed.

End FilterFacts.

(** [Filtered] decides its output: two results for one input are equal. *)
Lemma Filtered_functional P rows users1 users2 :
  Filtered P rows users1 -> Filtered P rows users2 -> users1 = users2.
Proof.
  intros H1. revert users2. induction H1; intros users2 H2; inversion H2; subst;
    try reflexivity; try contradiction; try (f_equal; auto); auto.
Qed.

(** ** The paginate stage *)

Lemma Atoi_in_range s : GoInt.in_range (strconv.Atoi s).1 = true.
Proof.
  assert (Hd : forall s n v e, 0 <= n -> strconv.parseDigits s n = (v, e) -> 0 <= v).
  { clear s. induction s as [|c s IH]; intros n v e Hn; simpl.
    - intros [= <- _]. assumption.
    - destruct (negb (strconv.isDigit c)) eqn:Ed; [intros [= <- _]; lia|].
      destruct (_ <=? n); [intros [= <- _]; vm_compute; discriminate|].
      destruct (strconv.maxUint64 <? _); [intros [= <- _]; vm_compute; discriminate|].
      apply IH. unfold strconv.digitVal, strconv.isDigit in *.
      apply negb_false_iff, andb_prop in Ed as [Ed _]. apply Z.leb_le in Ed. lia. }
  unfold strconv.Atoi.
  destruct (strconv.ParseInt s) as [n err] eqn:E. simpl.
  destruct s as [|c rest]; [injection E as <- _; reflexivity|].
  unfold strconv.ParseInt in E.
  destruct (strconv.ParseUint _) as [un [[]|]] eqn:Eu;
    try (injection E as <- _; reflexivity).
  - assert (0 <= un) as Hun.
    { revert Eu. unfold strconv.ParseUint.
      generalize (if Ascii.eqb c "+" || Ascii.eqb c "-" then rest else String c rest).
      intros [|d ds]; [intros [= <- _]; lia | apply Hd; lia]. }
    revert E. unfold GoInt.in_range, GoInt.minInt, GoInt.maxInt.
    destruct (Ascii.eqb c "-"); simpl;
      repeat case_match; intros [= <- _]; lia.
  - assert (0 <= un) as Hun.
    { revert Eu. unfold strconv.ParseUint.
      generalize (if Ascii.eqb c "+" || Ascii.eqb c "-" then rest else String c rest).
      intros [|d ds]; [intros [= <- _]; lia | apply Hd; lia]. }
    revert E. unfold GoInt.in_range, GoInt.minInt, GoInt.maxInt.
    destruct (Ascii.eqb c "-"); simpl;
      repeat case_match; intros [= <- _]; lia.
Qed.

Lemma paginate_offset (data : GoSlice.slice User) offset :
  exists data',
    (if 0 <? offset
     then if offset <? GoSlice.len data then GoSlice.from data offset else Ok GoSlice.empty
     else Ok data) = Ok data' /\
    GoSlice.elems data' = dropOffset (GoSlice.elems data) offset.
Proof.
  unfold dropOffset, GoSlice.from, GoSlice.len.
  destruct (0 <? offset) eqn:E0; [|eauto]. apply Z.ltb_lt in E0.
  destruct (offset <? _) eqn:E1.
  - apply Z.ltb_lt in E1.
    replace ((0 <=? offset) && (offset <=? _)) with true; [eauto|].
    symmetry. apply andb_true_intro. split; apply Z.leb_le; lia.
  - apply Z.ltb_ge in E1. exists GoSlice.empty. split; [reflexivity|].
    simpl. rewrite drop_ge; [reflexivity | lia].
Qed.

(** No truncation for a limit of one or less (the least [int] apart, whose
    [limit - 1] wraps around). *)
Lemma paginateData_untruncated data offset limit :
  GoInt.minInt < limit <= 1 ->
  exists result,
    paginateData data offset limit = Ok result /\
    GoSlice.elems result = dropOffset (GoSlice.elems data) offset.
Proof.
  intros Hl. unfold paginateData.
  destruct (paginate_offset data offset) as [data' [-> H]]. simpl.
  unfold GoInt.sub. rewrite wrap_in_range.
  - destruct (0 <? limit - 1) eqn:E; [apply Z.ltb_lt in E; lia | eauto].
  - unfold GoInt.in_range, GoInt.minInt, GoInt.maxInt in *.
    apply andb_true_intro. split; apply Z.leb_le; lia.
Qed.

(** A limit of two or more that the remaining elements can meet keeps the
    first [limit] of them. *)
Lemma paginateData_truncated data offset limit :
  2 <= limit <= Z.of_nat (length (dropOffset (GoSlice.elems data) offset)) ->
  limit <= GoInt.maxInt ->
  exists result,
    paginateData data offset limit = Ok result /\
    GoSlice.elems result = take (Z.to_nat limit) (dropOffset (GoSlice.elems data) offset).
Proof.
  intros Hl Hm. unfold paginateData.
  destruct (paginate_offset data offset) as [data' [-> H]]. simpl.
  unfold GoInt.sub. rewrite wrap_in_range.
  - destruct (0 <? limit - 1) eqn:E; [|apply Z.ltb_ge in E; lia].
    unfold GoSlice.upto, GoSlice.cap. rewrite <- H in Hl.
    replace ((0 <=? limit) && _) with true.
    + eexists. split; [reflexivity|]. simpl. rewrite <- H.
      rewrite take_app_le; [reflexivity | lia].
    + symmetry. apply andb_true_intro. split; apply Z.leb_le; lia.
  - unfold GoInt.in_range, GoInt.minInt, GoInt.maxInt in *.
    apply andb_true_intro. split; apply Z.leb_le; lia.
Qed.

(** Past the end of the data, a limit of two or more is out of bounds. *)
Lemma paginateData_past_end data offset limit :
  0 < offset -> GoSlice.len data <= offset -> 2 <= limit <= GoInt.maxInt ->
  paginateData data offset limit = Panic.
Proof.
  intros Ho Hlen Hl. unfold paginateData.
  replace (0 <? offset) with true by (symmetry; apply Z.ltb_lt; lia).
  replace (offset <? GoSlice.len data) with false by (symmetry; apply Z.ltb_ge; lia).
  simpl. unfold GoInt.sub. rewrite wrap_in_range.
  - replace (0 <? limit - 1) with true by (symmetry; apply Z.ltb_lt; lia).
    unfold GoSlice.upto, GoSlice.cap. simpl.
    replace (limit <=? Z.of_nat 0) with false by (symmetry; apply Z.leb_gt; lia).
    now destruct (0 <=? limit).
  - unfold GoInt.in_range, GoInt.minInt, GoInt.maxInt in *.
    apply andb_true_intro. split; apply Z.leb_le; lia.
Qed.

(** ** Parameter parsing *)

Lemma parseParams_fields q r :
  let v := http.URL_Query r in
  let params := (parseParams q r).1 in
  let field key :=
    if (strconv.Atoi (http.Get v key)).2 is Some _ then 0
    else (strconv.Atoi (http.Get v key)).1 in
  query params = http.Get v "query" /\
  orderField params = http.Get v "order_field" /\
  orderBy params = field "order_by" /\
  offset params = field "offset" /\
  limit params = field "limit".
Proof.
  unfold parseParams. cbv zeta.
  destruct (strconv.Atoi (http.Get (http.URL_Query r) "order_by")) as [n1 [e1|]];
  destruct (strconv.Atoi (http.Get (http.URL_Query r) "offset")) as [n2 [e2|]];
  destruct (strconv.Atoi (http.Get (http.URL_Query r) "limit")) as [n3 [e3|]];
  simpl; auto.
Qed.

(** The error that [parseParams] returns is the one of the last [Atoi]. *)
Lemma parseParams_error q r :
  (parseParams q r).2 = (strconv.Atoi (http.Get (http.URL_Query r) "limit")).2.
Proof.
  unfold parseParams. cbv zeta.
  destruct (strconv.Atoi (http.Get (http.URL_Query r) "order_by")) as [n1 e1];
  destruct (strconv.Atoi (http.Get (http.URL_Query r) "offset")) as [n2 e2];
  destruct (strconv.Atoi (http.Get (http.URL_Query r) "limit")) as [n3 e3];
  reflexivity.
Qed.

Lemma parseParams_in_range q r :
  GoInt.in_range (offset (parseParams q r).1) = true /\
  GoInt.in_range (limit (parseParams q r).1) = true.
Proof.
  destruct (parseParams_fields q r) as (_ & _ & _ & -> & ->).
  split; case_match; auto using Atoi_in_range.
Qed.

Lemma parseParams_error_limit q r e :
  (parseParams q r).2 = Some e -> limit (parseParams q r).1 = 0.
Proof.
  rewrite parseParams_error. destruct (parseParams_fields q r) as (_ & _ & _ & _ & ->).
  now intros ->.
Qed.

(** * The claims of the specification

    ** C1: the inclusion test of the filter stage *)

(** The empty filter keeps every record, in the order of the data set. *)
Lemma filterData_empty_query growcap data :
  GoSlice.elems (filterData growcap data "") = userOfRow <$> Rows data.
Proof.
  eapply Filtered_functional; [apply filterData_Filtered|].
  induction (Rows data) as [|r rows IH]; simpl; constructor; auto.
  now left.
Qed.

(** C1, as the specification states it, fails: the filter [d W] occurs in the
    full name [Boyd Wolf], yet [filterData] leaves the record out, because it
    looks into the first name and the last name one by one. *)
Lemma C1_counterexample :
  includedByFullName "d W" boydWolf /\
  GoSlice.elems (filterData growDouble (XmlData [boydWolf]) "d W") = [] /\
  ~ Filtered (includedByFullName "d W") [boydWolf]
      (GoSlice.elems (filterData growDouble (XmlData [boydWolf]) "d W")).
Proof.
  assert (H : includedByFullName "d W" boydWolf).
  { right. left. now exists "Boy", "olf". }
  assert (E : GoSlice.elems (filterData growDouble (XmlData [boydWolf]) "d W") = [])
    by reflexivity.
  split; [exact H|]. split; [exact E|].
  rewrite E. intros HF. inversion HF; subst. contradiction.
Qed.

(** C1, amended: for every data set and filter string, [filterData] keeps, in
    the order of the data set, exactly the records for which the filter is
    empty or occurs (case-sensitively) in the first name, in the last name or
    in the biography; no other record is kept. *)
Theorem C1_filterData_keeps_matching_fields growcap data query :
  Filtered (includedByFields query) (Rows data)
           (GoSlice.elems (filterData growcap data query)).
Proof. apply filterData_Filtered. Qed.

(** ** C4 and C8: the paginate stage *)

(** C4: [paginateData] does not always succeed. On three records, offset 5
    and limit 2, the offset leaves the empty literal, which [data[:limit]]
    slices beyond its capacity: a run-time panic. *)
Theorem C4_paginateData_panics :
  GoSlice.len (filterData growDouble (sampleData 3) "") = 3 /\
  paginateData (filterData growDouble (sampleData 3) "") 5 2 = Panic.
Proof. split; reflexivity. Qed.

(** The instances of the specification that hold: on 35 records, offset 5 and
    limit 10 give the records 5 to 14, and offset -1 is offset 0. *)
Example paginateData_5_10 :
  exists result,
    paginateData (filterData growDouble (sampleData 35) "") 5 10 = Ok result /\
    ID <$> GoSlice.elems result = [5; 6; 7; 8; 9; 10; 11; 12; 13; 14].
Proof. eexists. split; reflexivity. Qed.

Lemma paginateData_negative_offset data offset limit :
  offset <= 0 -> paginateData data offset limit = paginateData data 0 limit.
Proof.
  intros H. unfold paginateData.
  replace (0 <? offset) with false by (symmetry; apply Z.ltb_ge; lia).
  reflexivity.
Qed.

(** C8: with an offset at the length the result is not empty when the limit
    is two or more: on 35 records, offset 35 and limit 10 panic, for the
    reason of C4. *)
Theorem C8_offset_at_length_panics :
  GoSlice.len (filterData growDouble (sampleData 35) "") = 35 /\
  paginateData (filterData growDouble (sampleData 35) "") 35 10 = Panic.
Proof. split; reflexivity. Qed.

(** Within the capacity, a limit above the length is no truncation either:
    three records lie in a backing array of four, and a limit of 4 returns
    them with the zero user behind. *)
Example paginateData_beyond_length :
  exists result,
    paginateData (filterData growDouble (sampleData 3) "") 0 4 = Ok result /\
    GoSlice.elems result = (userOfRow <$> Rows (sampleData 3)) ++ [zeroUser].
Proof. eexists. split; reflexivity. Qed.

(** ** C6: the error of [parseParams] *)

(** C6: a failure on [order_by] is lost when [offset] and [limit] parse: the
    error returned is [nil]. *)
Theorem C6_parseParams_loses_first_error :
  parseParams zeroQuery
    (request [("order_by", "abc"); ("offset", "5"); ("limit", "10")])
  = (QueryDTO "" "" 0 5 10, None).
Proof. reflexivity. Qed.

(** ** The sort stage: the comparator and what [sortData] keeps *)

Section SortStage.
Variable OrderByAsc : Z.

Lemma isLess_recognized orderField orderBy :
  recognizedField orderField ->
  isLess OrderByAsc orderField orderBy =
    Some (fun x y => fieldLess orderField x y && (orderBy =? OrderByAsc)).
Proof. intros [-> | [-> | [-> | ->]]]; reflexivity. Qed.

Lemma isLess_unrecognized orderField orderBy :
  ~ recognizedField orderField -> isLess OrderByAsc orderField orderBy = None.
Proof.
  unfold recognizedField, isLess. intros H.
  destruct (String.eqb_spec orderField ""); [tauto|].
  destruct (String.eqb_spec orderField "name"); [tauto|].
  destruct (String.eqb_spec orderField "id"); [tauto|].
  destruct (String.eqb_spec orderField "age"); [tauto|]. reflexivity.
Qed.

Lemma sortData_recognized data orderField orderBy :
  recognizedField orderField ->
  exists sorted,
    sortData OrderByAsc data orderField orderBy = (sorted, None) /\
    GoSlice.elems sorted ≡ₚ GoSlice.elems data /\
    GoSlice.spare sorted = GoSlice.spare data.
Proof.
  intros H. unfold sortData. rewrite isLess_recognized by assumption.
  eexists. split; [reflexivity|]. split; [apply Slice_perm | reflexivity].
Qed.

End SortStage.


(** ** The request handler *)

Section Handler.
Variables OrderByAsc OrderByAsIs : Z.
Variable growcap : nat -> nat.
Variable Quote : string -> string.

Local Abbreviation handler := (SearchServer OrderByAsc OrderByAsIs growcap Quote).
Local Abbreviation stagedSeq := (staged OrderByAsc OrderByAsIs growcap).

(** The handler once the token is accepted, the data loaded and the
    parameters parsed. *)
Lemma SearchServer_loaded data r params err :
  http.AccessToken r = accessToken ->
  parseParams zeroQuery r = (params, err) ->
  handler (Loaded data) http.NewRecorder r =
    let w := afterParse Quote err in
    let result := filterData growcap data (query params) in
    if negb (orderBy params =? OrderByAsIs) then
      match sortData OrderByAsc result (orderField params) (orderBy params) with
      | (_, Some err) =>
          Returned
            (http.Write (http.Text (errorEnvelope (GoErrors.Error Quote err)))
               (http.WriteHeader http.StatusBadRequest
                  (http.Header_Set "Content-Type" "application/json" w)))
      | (sortedData, None) => paginateAndSend w sortedData params
      end
    else paginateAndSend w result params.
Proof.
  intros Ht Hp. unfold SearchServer. rewrite Ht, String.eqb_refl. cbn [negb].
  rewrite Hp. destruct err; reflexivity.
Qed.

Lemma afterParse_status err :
  http.status (afterParse Quote err) =
  if err is Some _ then Some http.StatusInternalServerError else None.
Proof. destruct err; reflexivity. Qed.

Lemma afterParse_body err :
  http.body (afterParse Quote err) =
  if err is Some e then [http.Text (GoErrors.Error Quote e +:+ http.nl)] else [].
Proof. destruct err; reflexivity. Qed.

Lemma sendResponse_status w data :
  http.status (sendResponse w data) =
  Some (default http.StatusOK (http.status w)).
Proof. destruct w as [h [c|] b]; reflexivity. Qed.

Lemma sendResponse_body w data :
  http.body (sendResponse w data) = http.body w ++ [http.JSON (GoSlice.elems data)].
Proof. destruct w as [h [c|] b]; reflexivity. Qed.

Lemma envelope_status w msg :
  http.status (http.Write (http.Text msg)
                 (http.WriteHeader http.StatusBadRequest
                    (http.Header_Set "Content-Type" "application/json" w))) =
  Some (default http.StatusBadRequest (http.status w)).
Proof. destruct w as [h [c|] b]; reflexivity. Qed.

Lemma envelope_body w msg :
  http.body (http.Write (http.Text msg)
               (http.WriteHeader http.StatusBadRequest
                  (http.Header_Set "Content-Type" "application/json" w))) =
  http.body w ++ [http.Text msg].
Proof. destruct w as [h [c|] b]; reflexivity. Qed.

Lemma recordsOf_app w1 w2 b :
  http.body w2 = http.body w1 ++ b ->
  recordsOf w2 = recordsOf w1 ++
    flat_map (fun c => match c with http.JSON users => users | http.Text _ => [] end) b.
Proof. unfold recordsOf. intros ->. apply flat_map_app. Qed.

Lemma recordsOf_afterParse err : recordsOf (afterParse Quote err) = [].
Proof. destruct err; reflexivity. Qed.

Lemma length_dropOffset (l1 l2 : list User) offset :
  length l1 = length l2 -> length (dropOffset l1 offset) = length (dropOffset l2 offset).
Proof. unfold dropOffset. intros H. case_match; [|assumption]. rewrite !length_drop. lia. Qed.

(** C2, amended: for every request (token accepted, data loaded) whose sort
    direction is not as-is and whose order_field is outside the empty
    string, name, id and age, the sort stage fails without sorting, the
    handler returns without paginating, and the response ends with the
    envelope whose message is the fixed text [OrderField invalid]; it carries
    no record. Its status is 400 when the parameters parsed, and 500, after
    the text of the parse error, when they did not. *)
Theorem C2_unrecognized_order_field data r params err :
  http.AccessToken r = accessToken ->
  parseParams zeroQuery r = (params, err) ->
  orderBy params <> OrderByAsIs ->
  ~ recognizedField (orderField params) ->
  sortData OrderByAsc (filterData growcap data (query params))
           (orderField params) (orderBy params)
  = (GoSlice.empty, Some (GoErrors.errorString "OrderField invalid")) /\
  exists w,
    handler (Loaded data) http.NewRecorder r = Returned w /\
    http.status w =
      Some (if err is Some _ then http.StatusInternalServerError
            else http.StatusBadRequest) /\
    http.body w =
      (if err is Some e then [http.Text (GoErrors.Error Quote e +:+ http.nl)] else [])
      ++ [http.Text (errorEnvelope "OrderField invalid")] /\
    recordsOf w = [].
Proof.
  intros Ht Hp Hdir Hfield.
  assert (Hs : sortData OrderByAsc (filterData growcap data (query params))
                 (orderField params) (orderBy params)
               = (GoSlice.empty, Some (GoErrors.errorString "OrderField invalid"))).
  { unfold sortData. now rewrite isLess_unrecognized. }
  split; [exact Hs|].
  rewrite (SearchServer_loaded data r params err Ht Hp). cbv zeta.
  apply Z.eqb_neq in Hdir. rewrite Hdir. cbn [negb]. rewrite Hs.
  eexists. split; [reflexivity|]. cbn [GoErrors.Error].
  rewrite envelope_status, envelope_body, afterParse_status, afterParse_body.
  split; [now destruct err|]. split; [reflexivity|].
  erewrite recordsOf_app by apply envelope_body.
  rewrite recordsOf_afterParse. reflexivity.
Qed.


Lemma staged_perm data params :
  orderBy params = OrderByAsIs \/ recognizedField (orderField params) ->
  GoSlice.elems (stagedSeq data params)
  ≡ₚ GoSlice.elems (filterData growcap data (query params)).
Proof.
  intros H. unfold staged. cbv zeta.
  destruct (orderBy params =? OrderByAsIs) eqn:E; [reflexivity|].
  destruct H as [H|H]; [apply Z.eqb_neq in E; contradiction|].
  destruct (sortData_recognized OrderByAsc
              (filterData growcap data (query params))
              (orderField params) (orderBy params) H) as (s & -> & Hp & _).
  exact Hp.
Qed.

(** With a direction as-is or a recognized field, the handler ends in
    pagination of the staged sequence and the response. *)
Lemma SearchServer_staged data r params err :
  http.AccessToken r = accessToken ->
  parseParams zeroQuery r = (params, err) ->
  orderBy params = OrderByAsIs \/ recognizedField (orderField params) ->
  handler (Loaded data) http.NewRecorder r =
    paginateAndSend (afterParse Quote err) (stagedSeq data params) params.
Proof.
  intros Ht Hp H. rewrite (SearchServer_loaded data r params err Ht Hp).
  unfold staged. cbv zeta.
  destruct (orderBy params =? OrderByAsIs) eqn:E; [reflexivity|]. cbn [negb].
  destruct H as [H|H]; [apply Z.eqb_neq in E; contradiction|].
  destruct (sortData_recognized OrderByAsc
              (filterData growcap data (query params))
              (orderField params) (orderBy params) H) as (s & -> & _).
  reflexivity.
Qed.

(** C5, amended: the handler applies no cap. For every request (token
    accepted, data loaded, parameters parsed, sort stage skipped or accepting
    the field) whose limit is at least two and at most the number of records
    that the offset leaves, the response carries exactly [limit] records,
    whether or not the limit exceeds 25. *)
Theorem C5_limit_is_not_capped data r params :
  http.AccessToken r = accessToken ->
  parseParams zeroQuery r = (params, None) ->
  orderBy params = OrderByAsIs \/ recognizedField (orderField params) ->
  2 <= limit params <=
    Z.of_nat (length (dropOffset
                        (GoSlice.elems (filterData growcap data (query params)))
                        (offset params))) ->
  exists w,
    handler (Loaded data) http.NewRecorder r = Returned w /\
    http.status w = Some http.StatusOK /\
    Z.of_nat (length (recordsOf w)) = limit params.
Proof.
  intros Ht Hp Hs Hl.
  rewrite (SearchServer_staged data r params None Ht Hp Hs).
  pose proof (parseParams_in_range zeroQuery r) as [_ Hr]. rewrite Hp in Hr.
  simpl in Hr.
  assert (Hlen : length (dropOffset (GoSlice.elems (stagedSeq data params)) (offset params))
                 = length (dropOffset
                             (GoSlice.elems (filterData growcap data (query params)))
                             (offset params))).
  { apply length_dropOffset, Permutation_length, staged_perm, Hs. }
  destruct (paginateData_truncated (stagedSeq data params) (offset params) (limit params))
    as (result & Hres & Helems).
  { rewrite Hlen. exact Hl. }
  { unfold GoInt.in_range in Hr. apply andb_prop in Hr as [_ Hr].
    now apply Z.leb_le in Hr. }
  unfold paginateAndSend. rewrite Hres. eexists. split; [reflexivity|].
  split; [reflexivity|].
  unfold recordsOf. rewrite sendResponse_body. simpl. rewrite app_nil_r, Helems.
  rewrite length_take, Hlen. lia.
Qed.

(** C7, amended: for every request (token accepted, data loaded) whose
    parameter parsing returns an error, and whose sort stage is skipped or
    accepts the field, the handler sends the status 500 with the text of the
    parse error and goes on: it filters, sorts unless the direction is as-is,
    paginates with the partial query (whose limit is 0) and writes the
    result after the error text. *)
Theorem C7_parse_error_does_not_stop data r params e :
  http.AccessToken r = accessToken ->
  parseParams zeroQuery r = (params, Some e) ->
  orderBy params = OrderByAsIs \/ recognizedField (orderField params) ->
  exists w,
    handler (Loaded data) http.NewRecorder r = Returned w /\
    http.status w = Some http.StatusInternalServerError /\
    http.body w =
      [http.Text (GoErrors.Error Quote e +:+ http.nl);
       http.JSON (dropOffset (GoSlice.elems (stagedSeq data params)) (offset params))].
Proof.
  intros Ht Hp Hs.
  rewrite (SearchServer_staged data r params (Some e) Ht Hp Hs).
  pose proof (parseParams_error_limit zeroQuery r e) as Hl. rewrite Hp in Hl.
  specialize (Hl eq_refl). simpl in Hl.
  destruct (paginateData_untruncated (stagedSeq data params) (offset params) (limit params))
    as (result & Hres & Helems).
  { rewrite Hl. unfold GoInt.minInt. lia. }
  unfold paginateAndSend. rewrite Hres. eexists. split; [reflexivity|].
  rewrite sendResponse_status, sendResponse_body, Helems. split; reflexivity.
Qed.

(** C9: for every request (token accepted, data loaded) whose sort direction
    is as-is, whatever its order_field, the handler goes from the filter
    stage to pagination: [sortData] has no part in the outcome, and what is
    paginated is the filtered sequence, the matching records in the order of
    the record store. *)
Theorem C9_as_is_skips_sort data r params err :
  http.AccessToken r = accessToken ->
  parseParams zeroQuery r = (params, err) ->
  orderBy params = OrderByAsIs ->
  handler (Loaded data) http.NewRecorder r =
    paginateAndSend (afterParse Quote err)
                    (filterData growcap data (query params)) params /\
  Filtered (includedByFields (query params)) (Rows data)
           (GoSlice.elems (filterData growcap data (query params))).
Proof.
  intros Ht Hp Hd. split; [|apply filterData_Filtered].
  rewrite (SearchServer_loaded data r params err Ht Hp). cbv zeta.
  rewrite Hd, Z.eqb_refl. reflexivity.
Qed.

Lemma Get_absent (v : gmap string (list string)) key : v !! key = None -> http.Get v key = "".
Proof. unfold http.Get. now intros ->. Qed.

Lemma IntegerSyntax_nonempty : ~ strconv.IntegerSyntax "".
Proof.
  intros (sign & digits & H & _ & Hne & _).
  destruct sign; simpl in H; [symmetry in H; contradiction | discriminate].
Qed.

(** What is written after the parse error keeps the status and the first
    write. *)
Lemma handler_keeps_error_response data r params e :
  http.AccessToken r = accessToken ->
  parseParams zeroQuery r = (params, Some e) ->
  let w := written (handler (Loaded data) http.NewRecorder r) in
  http.status w = Some http.StatusInternalServerError /\
  exists rest, http.body w = http.Text (GoErrors.Error Quote e +:+ http.nl) :: rest.
Proof.
  intros Ht Hp. rewrite (SearchServer_loaded data r params (Some e) Ht Hp). cbv zeta.
  assert (Hpag : forall result,
    let w := written (paginateAndSend (afterParse Quote (Some e)) result params) in
    http.status w = Some http.StatusInternalServerError /\
    exists rest, http.body w = http.Text (GoErrors.Error Quote e +:+ http.nl) :: rest).
  { intros result. unfold paginateAndSend.
    destruct (paginateData result (offset params) (limit params)); cbn [written].
    - rewrite sendResponse_status, sendResponse_body. simpl. eauto.
    - simpl. eauto. }
  destruct (negb (orderBy params =? OrderByAsIs)); [|apply Hpag].
  destruct (sortData _ _ _ _) as [sortedData [err|]]; [|apply Hpag].
  simpl written. rewrite envelope_status, envelope_body. simpl. eauto.
Qed.

(** C10: for every request whose limit parameter is absent or is no integer
    (so also for a request without parameters), [parseParams] returns an
    error, and the handler (token accepted, data loaded) answers with the
    status 500 and the text of that error first. *)
Theorem C10_limit_absent_or_malformed r :
  http.URL_Query r !! "limit" = None \/
  ~ strconv.IntegerSyntax (http.Get (http.URL_Query r) "limit") ->
  exists e,
    (parseParams zeroQuery r).2 = Some e /\
    forall data,
      http.AccessToken r = accessToken ->
      http.status (written (handler (Loaded data) http.NewRecorder r))
        = Some http.StatusInternalServerError /\
      exists rest,
        http.body (written (handler (Loaded data) http.NewRecorder r))
        = http.Text (GoErrors.Error Quote e +:+ http.nl) :: rest.
Proof.
  intros H.
  assert (Hn : ~ strconv.IntegerSyntax (http.Get (http.URL_Query r) "limit")).
  { destruct H as [H|H]; [|exact H].
    rewrite (Get_absent _ _ H). apply IntegerSyntax_nonempty. }
  destruct (Atoi_not_integer _ Hn) as [e He].
  exists e. rewrite parseParams_error. split; [exact He|].
  intros data Ht.
  destruct (parseParams zeroQuery r) as [params err] eqn:Hp.
  assert (err = Some e) as ->.
  { rewrite <- He, <- parseParams_error with (q := zeroQuery). now rewrite Hp. }
  exact (handler_keeps_error_response data r params e Ht Hp).
Qed.

End Handler.

(** ** The claims on requests *)

(** C2, as the specification states it, fails. With a limit, the status is
    400 but the message of the envelope does not name the field [random];
    without one, the status is the 500 of the parse error. *)
Lemma C2_counterexample :
  ~ namesFieldIn400 "random" (written (handler35 randomField)) /\
  http.status (written (handler35 randomField)) = Some http.StatusBadRequest /\
  http.body (written (handler35 randomField))
    = [http.Text (errorEnvelope "OrderField invalid")] /\
  http.status (written (handler35 randomFieldNoLimit))
    = Some http.StatusInternalServerError.
Proof.
  assert (Hb : http.body (written (handler35 randomField))
               = [http.Text (errorEnvelope "OrderField invalid")])
    by (vm_compute; reflexivity).
  split; [|split; [vm_compute; reflexivity | split; [exact Hb | vm_compute; reflexivity]]].
  intros [_ (msg & Hmsg & Hsub)]. rewrite Hb in Hmsg. injection Hmsg as <-.
  apply Contains_spec in Hsub. vm_compute in Hsub. discriminate.
Qed.

(** C2, amended, on the request with the order field [random] and a limit. *)
Lemma C2_witness :
  exists w,
    handler35 randomField = Returned w /\
    http.status w = Some http.StatusBadRequest /\
    http.body w = [] ++ [http.Text (errorEnvelope "OrderField invalid")] /\
    recordsOf w = [].
Proof.
  refine (proj2 (C2_unrecognized_order_field orderByAsc orderByAsIs growDouble quotePlain
                   (sampleData 35) randomField (QueryDTO "do" "random" (-1) 0 5) None
                   _ _ _ _)).
  - reflexivity.
  - vm_compute. reflexivity.
  - simpl. unfold orderByAsIs. lia.
  - unfold recognizedField. simpl. intros [H | [H | [H | H]]]; discriminate.
Defined.

(** C5, as the specification states it, fails: a limit of 26 against 35
    records is not capped, and the response carries 26 records. *)
Lemma C5_counterexample :
  exists w,
    handler35 limit26 = Returned w /\
    length (recordsOf w) = 26%nat /\
    ~ (length (recordsOf w) <= 25)%nat.
Proof.
  eexists. split; [vm_compute; reflexivity|].
  split; [vm_compute; reflexivity | vm_compute; lia].
Qed.

(** C5, amended, on the request with the limit 26. *)
Lemma C5_witness :
  exists w,
    handler35 limit26 = Returned w /\
    http.status w = Some http.StatusOK /\
    Z.of_nat (length (recordsOf w)) = 26.
Proof.
  refine (C5_limit_is_not_capped orderByAsc orderByAsIs growDouble quotePlain
            (sampleData 35) limit26 (QueryDTO "" "" 0 0 26) _ _ _ _).
  - reflexivity.
  - vm_compute. reflexivity.
  - left. reflexivity.
  - vm_compute. split; discriminate.
Defined.

(** C7, as the specification states it, fails: the parameters of this
    request do not parse (there is no limit), and the handler stops at the
    sort stage: the response ends with the envelope and carries no result. *)
Lemma C7_counterexample :
  exists e w,
    (parseParams zeroQuery randomFieldNoLimit).2 = Some e /\
    handler35 randomFieldNoLimit = Returned w /\
    http.body w = [http.Text (GoErrors.Error quotePlain e +:+ http.nl);
                   http.Text (errorEnvelope "OrderField invalid")] /\
    recordsOf w = [].
Proof.
  eexists. eexists. split; [vm_compute; reflexivity|].
  split; [vm_compute; reflexivity|]. split; vm_compute; reflexivity.
Qed.

(** C7, amended, on the request with a filter and no limit. *)
Lemma C7_witness :
  exists w,
    handler35 queryOnly = Returned w /\
    http.status w = Some http.StatusInternalServerError /\
    http.body w =
      [http.Text (GoErrors.Error quotePlain
                    (GoErrors.NumError "Atoi" "" GoErrors.ErrSyntax) +:+ http.nl);
       http.JSON (dropOffset
                    (GoSlice.elems
                       (staged orderByAsc orderByAsIs growDouble (sampleData 35)
                               (QueryDTO "Boyd" "" 0 0 0))) 0)].
Proof.
  refine (C7_parse_error_does_not_stop orderByAsc orderByAsIs growDouble quotePlain
            (sampleData 35) queryOnly (QueryDTO "Boyd" "" 0 0 0)
            (GoErrors.NumError "Atoi" "" GoErrors.ErrSyntax) _ _ _).
  - reflexivity.
  - vm_compute. reflexivity.
  - left. reflexivity.
Defined.

(** C9 on the request with the direction as-is and the order field [random]. *)
Lemma C9_witness :
  handler35 asIsRandomField =
    paginateAndSend (afterParse quotePlain None)
      (filterData growDouble (sampleData 35) "") (QueryDTO "" "random" 0 5 10) /\
  Filtered (includedByFields "") (Rows (sampleData 35))
           (GoSlice.elems (filterData growDouble (sampleData 35) "")).
Proof.
  refine (C9_as_is_skips_sort orderByAsc orderByAsIs growDouble quotePlain
            (sampleData 35) asIsRandomField (QueryDTO "" "random" 0 5 10) None _ _ _).
  - reflexivity.
  - vm_compute. reflexivity.
  - reflexivity.
Defined.

(** With the direction as-is the field [random] is no error: the response
    is the page of the filtered records. *)
Example asIsRandomField_response :
  exists w,
    handler35 asIsRandomField = Returned w /\
    http.status w = Some http.StatusOK /\
    ID <$> recordsOf w = [5; 6; 7; 8; 9; 10; 11; 12; 13; 14].
Proof. eexists. repeat split; vm_compute; reflexivity. Qed.

(** C10 on the request without parameters. *)
Lemma C10_witness :
  exists e,
    (parseParams zeroQuery (request [])).2 = Some e /\
    forall data,
      http.AccessToken (request []) = accessToken ->
      http.status (written (SearchServer orderByAsc orderByAsIs growDouble quotePlain
                              (Loaded data) http.NewRecorder (request [])))
        = Some http.StatusInternalServerError /\
      exists rest,
        http.body (written (SearchServer orderByAsc orderByAsIs growDouble quotePlain
                              (Loaded data) http.NewRecorder (request [])))
        = http.Text (GoErrors.Error quotePlain e +:+ http.nl) :: rest.
Proof.
  refine (C10_limit_absent_or_malformed orderByAsc orderByAsIs growDouble quotePlain
            (request []) _).
  left. vm_compute. reflexivity.
Defined.

(** The failing inputs of C4 and C8 through the handler: the panic unwinds
    it before anything is written. *)
Example handler_panics_past_end :
  handler35 (request [("order_by", "0"); ("offset", "35"); ("limit", "10")])
  = Panicked http.NewRecorder.
Proof. vm_compute. reflexivity. Qed.

(** ** [sort.Slice] sorts

    *** Reading and swapping within the slice *)

Section SortCorrect.
Context {A : Type} `{Inhabited A} (less : A -> A -> bool).
Hypothesis SW : SortSpec.StrictWeak less.
Implicit Types d : list A.

Local Abbreviation get := SortSpec.get.
Local Abbreviation len := SortSpec.len.
Local Abbreviation Within := SortSpec.Within.
Local Abbreviation sortedRange := (SortSpec.sortedRange less).
Local Abbreviation adjSorted := (SortSpec.adjSorted less).
Local Abbreviation lowerBounded := (SortSpec.lowerBounded less).

Lemma at_get d k : 0 <= k < len d -> GoSort.at_ d k = Some (get d k).
Proof.
  unfold GoSort.at_, SortSpec.get, SortSpec.len. intros Hk.
  destruct (Z.ltb_spec k 0); [lia|].
  apply list_lookup_lookup_total_lt. lia.
Qed.

Lemma Less_get d i j :
  0 <= i < len d -> 0 <= j < len d ->
  GoSort.Less less d i j = less (get d i) (get d j).
Proof. intros Hi Hj. unfold GoSort.Less. now rewrite !at_get. Qed.

Lemma Swap_length d i j : length (GoSort.Swap d i j) = length d.
Proof. unfold GoSort.Swap. repeat case_match; rewrite ?length_insert; reflexivity. Qed.

Lemma Swap_len d i j : len (GoSort.Swap d i j) = len d.
Proof. unfold SortSpec.len. now rewrite Swap_length. Qed.

Lemma Swap_get d i j k :
  0 <= i < len d -> 0 <= j < len d -> 0 <= k < len d ->
  get (GoSort.Swap d i j) k =
    if k =? j then get d i else if k =? i then get d j else get d k.
Proof.
  intros Hi Hj Hk. unfold GoSort.Swap. rewrite !at_get by assumption.
  unfold SortSpec.get, SortSpec.len in *.
  destruct (Z.eqb_spec k j) as [->|Hkj].
  - rewrite list_lookup_total_insert_eq; [reflexivity|]. rewrite length_insert. lia.
  - rewrite list_lookup_total_insert_ne by lia.
    destruct (Z.eqb_spec k i) as [->|Hki].
    + rewrite list_lookup_total_insert_eq; [reflexivity | lia].
    + rewrite list_lookup_total_insert_ne by lia. reflexivity.
Qed.

(** *** The order *)

Lemma less_asym x y : less x y = true -> less y x = false.
Proof.
  intros H1. destruct (less y x) eqn:H2; [|reflexivity].
  rewrite <- (SortSpec.less_irrefl less SW x). symmetry.
  eapply SortSpec.less_trans; eauto.
Qed.

Lemma less_le_trans x y z : less x y = true -> less z y = false -> less x z = true.
Proof.
  intros H1 H2. destruct (less x z) eqn:H3; [reflexivity|].
  rewrite <- H1. symmetry. eapply SortSpec.less_ntrans; eauto.
Qed.

Lemma le_less_trans x y z : less y x = false -> less y z = true -> less x z = true.
Proof.
  intros H1 H2. destruct (less x z) eqn:H3; [reflexivity|].
  rewrite <- H2. symmetry. eapply SortSpec.less_ntrans; eauto.
Qed.

(** [le] is transitive: written on [less]. *)
Lemma le_trans x y z : less y x = false -> less z y = false -> less z x = false.
Proof. intros H1 H2. eapply SortSpec.less_ntrans; eauto. Qed.

(** *** Ranges *)

Lemma Within_refl a b d : Within a b d d.
Proof. repeat split; eauto. Qed.

Lemma Within_len a b d d' : Within a b d d' -> len d' = len d.
Proof. intros (Hl & _). unfold SortSpec.len. now rewrite Hl. Qed.

Lemma Within_trans a b d1 d2 d3 :
  Within a b d1 d2 -> Within a b d2 d3 -> Within a b d1 d3.
Proof.
  intros (L1 & F1 & C1) (L2 & F2 & C2). split; [congruence|]. split.
  - intros k Hk Hn. rewrite F2, F1; auto. unfold SortSpec.len in *. lia.
  - intros k Hk. destruct (C2 k Hk) as (k' & Hk' & ->). destruct (C1 k' Hk') as (k'' & ? & ->).
    eauto.
Qed.

Lemma Within_weaken a b a' b' d d' :
  a' <= a -> b <= b' -> 0 <= a' -> b' <= len d -> Within a b d d' -> Within a' b' d d'.
Proof.
  intros Ha Hb H0 Hlen (L & F & C). split; [assumption|]. split.
  - intros k Hk Hn. apply F; [assumption | lia].
  - intros k Hk. destruct (Z_lt_dec k a) as [?|?]; [|destruct (Z_lt_dec k b) as [?|?]].
    + exists k. split; [lia|]. apply F; lia.
    + destruct (C k ltac:(lia)) as (k' & ? & ->). exists k'. split; [lia | reflexivity].
    + exists k. split; [lia|]. apply F; lia.
Qed.

Lemma Within_Swap a b d i j :
  0 <= a -> b <= len d -> a <= i < b -> a <= j < b -> Within a b d (GoSort.Swap d i j).
Proof.
  intros Ha Hb Hi Hj. split; [apply Swap_length|]. split.
  - intros k Hk Hn. rewrite Swap_get by lia.
    destruct (Z.eqb_spec k j); [lia|]. destruct (Z.eqb_spec k i); [lia|]. reflexivity.
  - intros k Hk. rewrite Swap_get by lia.
    destruct (Z.eqb_spec k j); [eauto|]. destruct (Z.eqb_spec k i); eauto.
Qed.

Lemma Within_outside a b d d' k :
  Within a b d d' -> 0 <= k < len d -> ~ (a <= k < b) -> get d' k = get d k.
Proof. intros (_ & F & _). apply F. Qed.

(** A bound on the elements of the range is kept. *)
Lemma Within_all a b d d' (P : A -> Prop) :
  Within a b d d' ->
  (forall k, a <= k < b -> P (get d k)) -> forall k, a <= k < b -> P (get d' k).
Proof. intros (_ & _ & C) HP k Hk. destruct (C k Hk) as (k' & Hk' & ->). auto. Qed.

Lemma lowerBounded_Within a b d d' :
  0 <= a -> b <= len d -> Within a b d d' -> lowerBounded a b d -> lowerBounded a b d'.
Proof.
  intros Ha Hb HW HL Hpos k Hk.
  rewrite (Within_outside a b d d' (a - 1) HW) by lia.
  revert k Hk. apply (Within_all a b d d' (fun x => less x (get d (a - 1)) = false) HW).
  intros k Hk. now apply HL.
Qed.

Lemma adjSorted_sortedRange a b d : adjSorted a b d -> sortedRange a b d.
Proof.
  intros Hadj i j Hi Hij Hj.
  assert (Hgen : forall n, (0 <= n)%Z -> forall j, j = i + 1 + n -> j < b ->
                 less (get d j) (get d i) = false).
  { apply (natlike_ind (fun n => forall j, j = i + 1 + n -> j < b ->
                                  less (get d j) (get d i) = false)).
    - intros j' -> Hb. pose proof (Hadj (i + 1 + 0) ltac:(lia) ltac:(lia)) as Hk.
      now replace (i + 1 + 0 - 1) with i in Hk by lia.
    - intros n Hn IH j' -> Hb.
      eapply le_trans; [apply (IH (i + 1 + n)); lia|].
      pose proof (Hadj (i + 1 + Z.succ n) ltac:(lia) ltac:(lia)) as Hk.
      now replace (i + 1 + Z.succ n - 1) with (i + 1 + n) in Hk by lia. }
  apply (Hgen (j - i - 1)); lia.
Qed.

Lemma sortedRange_adjSorted a b d : sortedRange a b d -> adjSorted a b d.
Proof. intros Hs k Ha Hb. apply Hs; lia. Qed.

(** *** Insertion sort *)

(** Sinking the element at [j] into the sorted [d[a:j]], below the sorted
    [d[j+1:hi]]. *)
Lemma sinkLoop_spec n d a j hi :
  (Z.to_nat (j - a) <= n)%nat -> 0 <= a <= j -> j < hi -> hi <= len d ->
  (forall k, a < k -> k < hi -> k <> j -> less (get d k) (get d (k - 1)) = false) ->
  (a < j -> j + 1 < hi -> less (get d (j + 1)) (get d (j - 1)) = false) ->
  let d' := GoSort.sinkLoop less n d a j in
  Within a hi d d' /\ adjSorted a hi d'.
Proof.
  revert d j. induction n as [|n IH]; intros d j Hn Ha Hj Hhi Hadj Hbridge; simpl.
  - split; [apply Within_refl|]. intros k Hk1 Hk2. apply Hadj; lia.
  - destruct (Z.ltb_spec a j) as [Haj|Haj]; simpl.
    2:{ split; [apply Within_refl|]. intros k Hk1 Hk2. apply Hadj; lia. }
    rewrite Less_get by lia.
    destruct (less (get d j) (get d (j - 1))) eqn:El.
    2:{ split; [apply Within_refl|]. intros k Hk1 Hk2.
        destruct (Z.eq_dec k j) as [->|]; [assumption | apply Hadj; lia]. }
    set (d1 := GoSort.Swap d j (j - 1)).
    assert (Hg : forall k, 0 <= k < len d ->
                 get d1 k = if k =? j - 1 then get d j
                            else if k =? j then get d (j - 1) else get d k).
    { intros k Hk. unfold d1. apply Swap_get; lia. }
    destruct (IH d1 (j - 1)) as [HW Hs].
    + lia.
    + lia.
    + lia.
    + unfold d1. rewrite Swap_len. lia.
    + intros k Hk1 Hk2 Hk3. rewrite !Hg by lia.
      destruct (Z.eqb_spec k (j - 1)); [lia|].
      destruct (Z.eqb_spec (k - 1) (j - 1)) as [E|E].
      * assert (k = j) as -> by lia. rewrite Z.eqb_refl. now apply less_asym.
      * destruct (Z.eqb_spec k j); [lia|].
        destruct (Z.eqb_spec (k - 1) j) as [E'|E'].
        -- assert (k = j + 1) as -> by lia. apply Hbridge; lia.
        -- apply Hadj; lia.
    + intros H1 H2. rewrite !Hg by lia.
      replace (j - 1 + 1) with j by lia.
      destruct (Z.eqb_spec j (j - 1)); [lia|]. rewrite Z.eqb_refl.
      destruct (Z.eqb_spec (j - 1 - 1) (j - 1)); [lia|].
      destruct (Z.eqb_spec (j - 1 - 1) j); [lia|].
      apply Hadj; lia.
    + split; [|exact Hs].
      eapply Within_trans; [|exact HW]. apply Within_Swap; lia.
Qed.

Lemma insertionLoop_spec n d a b i :
  (Z.to_nat (b - i) <= n)%nat -> 0 <= a -> a < i -> i <= b -> b <= len d ->
  adjSorted a i d ->
  let d' := GoSort.insertionLoop less n d a b i in
  Within a b d d' /\ adjSorted a b d'.
Proof.
  revert d i. induction n as [|n IH]; intros d i Hn Ha Hai Hib Hb Hs; simpl.
  - assert (i = b) as -> by lia. split; [apply Within_refl | assumption].
  - destruct (Z.ltb_spec i b) as [Hlt|Hge].
    2:{ assert (i = b) as -> by lia. split; [apply Within_refl | assumption]. }
    destruct (sinkLoop_spec (Z.to_nat (i - a)) d a i (i + 1)) as [HW1 Hs1];
      try lia.
    { intros k Hk1 Hk2 Hk3. apply Hs; lia. }
    set (d1 := GoSort.sinkLoop less (Z.to_nat (i - a)) d a i) in *.
    pose proof (Within_len _ _ _ _ HW1) as Hl1.
    destruct (IH d1 (i + 1)) as [HW2 Hs2]; try lia; [exact Hs1|].
    split; [|exact Hs2].
    eapply Within_trans; [|exact HW2].
    eapply Within_weaken; [| | | |exact HW1]; lia.
Qed.

Lemma insertionSort_spec d a b :
  0 <= a <= b -> b <= len d ->
  let d' := GoSort.insertionSort_func less d a b in
  Within a b d d' /\ sortedRange a b d'.
Proof.
  intros Hab Hb. unfold GoSort.insertionSort_func.
  destruct (Z.eq_dec a b) as [->|Hne].
  - replace (Z.to_nat (b - (b + 1))) with 0%nat by lia. simpl.
    split; [apply Within_refl|]. intros i j; lia.
  - destruct (insertionLoop_spec (Z.to_nat (b - (a + 1))) d a b (a + 1)) as [HW Hs];
      try lia.
    { intros k; lia. }
    split; [exact HW | now apply adjSorted_sortedRange].
Qed.

(** *** Partition *)

Lemma scanUp_spec n d a i j :
  (GoSort.span i j <= n)%nat -> 0 <= a -> a < len d -> 0 <= i -> j < len d ->
  let i' := GoSort.scanUp less n d a i j in
  i <= i' <= Z.max i (j + 1) /\
  (forall k, i <= k < i' -> less (get d k) (get d a) = true) /\
  (i' <= j -> less (get d i') (get d a) = false).
Proof.
  unfold GoSort.span. revert i. induction n as [|n IH]; intros i Hn Ha Hal Hi Hj; simpl.
  - split; [lia|]. split; intros; lia.
  - destruct (Z.leb_spec i j) as [Hij|Hij]; simpl.
    2:{ split; [lia|]. split; intros; lia. }
    rewrite Less_get by lia. destruct (less (get d i) (get d a)) eqn:El.
    + destruct (IH (i + 1)) as (H1 & H2 & H3); try lia.
      split; [lia|]. split; [|exact H3].
      intros k Hk. destruct (Z.eq_dec k i) as [->|]; [assumption | apply H2; lia].
    + split; [lia|]. split; [intros; lia | auto].
Qed.

Lemma scanDown_spec n d a i j :
  (GoSort.span i j <= n)%nat -> 0 <= a -> a < len d -> 0 <= i -> j < len d ->
  let j' := GoSort.scanDown less n d a i j in
  Z.min j (i - 1) <= j' <= j /\
  (forall k, j' < k <= j -> less (get d k) (get d a) = false) /\
  (i <= j' -> less (get d j') (get d a) = true).
Proof.
  unfold GoSort.span. revert j. induction n as [|n IH]; intros j Hn Ha Hal Hi Hj; simpl.
  - split; [lia|]. split; intros; lia.
  - destruct (Z.leb_spec i j) as [Hij|Hij]; simpl.
    2:{ split; [lia|]. split; intros; lia. }
    rewrite Less_get by lia. destruct (less (get d j) (get d a)) eqn:El; simpl.
    + split; [lia|]. split; [intros; lia | auto].
    + destruct (IH (j - 1)) as (H1 & H2 & H3); try lia.
      split; [lia|]. split; [|exact H3].
      intros k Hk. destruct (Z.eq_dec k j) as [->|]; [assumption | apply H2; lia].
Qed.

Lemma partitionLoop_spec n d a b i j :
  (GoSort.span i j <= n)%nat -> 0 <= a -> a < i -> a <= j -> j < b -> b <= len d ->
  (forall k, a < k < i -> less (get d k) (get d a) = true) ->
  (forall k, j < k < b -> less (get d k) (get d a) = false) ->
  let r := GoSort.partitionLoop less n d a i j in
  Within (a + 1) b d r.1 /\ a <= r.2 < b /\
  (forall k, a < k <= r.2 -> less (get r.1 k) (get r.1 a) = true) /\
  (forall k, r.2 < k < b -> less (get r.1 k) (get r.1 a) = false).
Proof.
  revert d i j. induction n as [|n IH]; intros d i j Hn Ha Hai Haj Hjb Hb HA HB;
    cbn [GoSort.partitionLoop]; cbv zeta;
    destruct (scanUp_spec (GoSort.span i j) d a i j) as (Hi1 & Hi2 & Hi3); try lia;
    set (i' := GoSort.scanUp less (GoSort.span i j) d a i j) in *;
    destruct (scanDown_spec (GoSort.span i' j) d a i' j) as (Hj1 & Hj2 & Hj3); try lia;
    set (j' := GoSort.scanDown less (GoSort.span i' j) d a i' j) in *;
    assert (HA' : forall k, a < k < i' -> less (get d k) (get d a) = true)
      by (intros k Hk; destruct (Z_lt_dec k i); [apply HA | apply Hi2]; lia);
    assert (HB' : forall k, j' < k < b -> less (get d k) (get d a) = false)
      by (intros k Hk; destruct (Z_lt_dec j k); [apply HB | apply Hj2]; lia);
    assert (Hstop : j' < i' ->
              Within (a + 1) b d d /\ a <= j' < b /\
              (forall k, a < k <= j' -> less (get d k) (get d a) = true) /\
              (forall k, j' < k < b -> less (get d k) (get d a) = false))
      by (intros Hlt; split; [apply Within_refl|]; split; [lia|];
          split; [intros k Hk; apply HA'; lia | exact HB']).
  - unfold GoSort.span in Hn. destruct (Z.ltb_spec j' i'); simpl; [auto | lia].
  - destruct (Z.ltb_spec j' i') as [Hlt|Hge]; simpl; [auto|].
    unfold GoSort.span in Hn.
    set (d1 := GoSort.Swap d i' j').
    assert (Hg : forall k, 0 <= k < len d ->
                 get d1 k = if k =? j' then get d i'
                            else if k =? i' then get d j' else get d k).
    { intros k Hk. unfold d1. apply Swap_get; lia. }
    assert (Hga : get d1 a = get d a).
    { rewrite Hg by lia. destruct (Z.eqb_spec a j'); [lia|].
      destruct (Z.eqb_spec a i'); [lia | reflexivity]. }
    destruct (IH d1 (i' + 1) (j' - 1)) as (HW & Hm & H1 & H2).
    + unfold GoSort.span. lia.
    + lia.
    + lia.
    + lia.
    + lia.
    + unfold d1. rewrite Swap_len. lia.
    + intros k Hk. rewrite Hga, Hg by lia.
      destruct (Z.eqb_spec k j') as [->|].
      { assert (E : i' = j') by lia. rewrite E. apply Hj3. lia. }
      destruct (Z.eqb_spec k i') as [->|]; [apply Hj3; lia | apply HA'; lia].
    + intros k Hk. rewrite Hga, Hg by lia.
      destruct (Z.eqb_spec k j') as [->|]; [apply Hi3; lia|].
      destruct (Z.eqb_spec k i') as [->|]; [|apply HB'; lia].
      assert (E : j' = i') by lia. rewrite E. apply Hi3. lia.
    + split; [|auto].
      eapply Within_trans; [|exact HW]. apply Within_Swap; lia.
Qed.

Lemma partition_spec d a b pivot :
  0 <= a -> a <= pivot < b -> b <= len d ->
  let r := GoSort.partition_func less d a b pivot in
  Within a b d r.1.1 /\ a <= r.1.2 < b /\
  (forall k, a <= k < r.1.2 -> less (get r.1.1 k) (get r.1.1 r.1.2) = true) /\
  (forall k, r.1.2 < k < b -> less (get r.1.1 k) (get r.1.1 r.1.2) = false).
Proof.
  intros Ha Hp Hb. unfold GoSort.partition_func. cbv zeta.
  set (d0 := GoSort.Swap d a pivot).
  assert (HW0 : Within a b d d0) by (apply Within_Swap; lia).
  assert (Hl0 : len d0 = len d) by apply Swap_len.
  destruct (scanUp_spec (GoSort.span (a + 1) (b - 1)) d0 a (a + 1) (b - 1))
    as (Hi1 & Hi2 & Hi3); try lia.
  set (i := GoSort.scanUp less (GoSort.span (a + 1) (b - 1)) d0 a (a + 1) (b - 1)) in *.
  destruct (scanDown_spec (GoSort.span i (b - 1)) d0 a i (b - 1))
    as (Hj1 & Hj2 & Hj3); try lia.
  set (j := GoSort.scanDown less (GoSort.span i (b - 1)) d0 a i (b - 1)) in *.
  (* what the last swap makes of a partitioned slice *)
  assert (Hfinish : forall d1 m,
             Within (a + 1) b d0 d1 -> a <= m < b ->
             (forall k, a < k <= m -> less (get d1 k) (get d1 a) = true) ->
             (forall k, m < k < b -> less (get d1 k) (get d1 a) = false) ->
             let d2 := GoSort.Swap d1 m a in
             Within a b d d2 /\ a <= m < b /\
             (forall k, a <= k < m -> less (get d2 k) (get d2 m) = true) /\
             (forall k, m < k < b -> less (get d2 k) (get d2 m) = false)).
  { intros d1 m HW1 Hm H1 H2 d2.
    pose proof (Within_len _ _ _ _ HW1) as Hl1.
    assert (Hg : forall k, 0 <= k < len d ->
                 get d2 k = if k =? a then get d1 m
                            else if k =? m then get d1 a else get d1 k).
    { intros k Hk. unfold d2. apply Swap_get; lia. }
    split.
    { eapply Within_trans; [exact HW0|]. eapply Within_trans.
      - eapply Within_weaken; [| | | |exact HW1]; lia.
      - apply Within_Swap; lia. }
    split; [lia|]. split.
    - intros k Hk. rewrite !Hg by lia.
      destruct (Z.eqb_spec m a); [lia|]. rewrite Z.eqb_refl.
      destruct (Z.eqb_spec k a) as [->|]; [apply H1; lia|].
      destruct (Z.eqb_spec k m); [lia | apply H1; lia].
    - intros k Hk. rewrite !Hg by lia.
      destruct (Z.eqb_spec k a); [lia|]. destruct (Z.eqb_spec k m); [lia|].
      destruct (Z.eqb_spec m a) as [->|].
      + apply H2; lia.
      + rewrite Z.eqb_refl. apply H2; lia. }
  destruct (Z.ltb_spec j i) as [Hlt|Hge]; cbn [fst snd].
  - apply Hfinish; [apply Within_refl | lia | |].
    + intros k Hk. apply Hi2. lia.
    + intros k Hk. apply Hj2. lia.
  - set (d1 := GoSort.Swap d0 i j).
    assert (Hg : forall k, 0 <= k < len d ->
                 get d1 k = if k =? j then get d0 i
                            else if k =? i then get d0 j else get d0 k).
    { intros k Hk. unfold d1. apply Swap_get; lia. }
    assert (Hga : get d1 a = get d0 a).
    { rewrite Hg by lia. destruct (Z.eqb_spec a j); [lia|].
      destruct (Z.eqb_spec a i); [lia | reflexivity]. }
    destruct (partitionLoop_spec (GoSort.span (i + 1) (j - 1)) d1 a b (i + 1) (j - 1))
      as (HW & Hm & H1 & H2); try lia.
    { unfold d1. rewrite Swap_len. lia. }
    { intros k Hk. rewrite Hga, Hg by lia.
      destruct (Z.eqb_spec k j) as [->|].
      { assert (E : i = j) by lia. rewrite E. apply Hj3. lia. }
      destruct (Z.eqb_spec k i) as [->|]; [apply Hj3; lia | apply Hi2; lia]. }
    { intros k Hk. rewrite Hga, Hg by lia.
      destruct (Z.eqb_spec k j) as [->|]; [apply Hi3; lia|].
      destruct (Z.eqb_spec k i) as [->|]; [|apply Hj2; lia].
      assert (E : j = i) by lia. rewrite E. apply Hi3. lia. }
    destruct (GoSort.partitionLoop less _ d1 a (i + 1) (j - 1)) as [d2 m].
    cbn [fst snd] in *. apply Hfinish; try assumption.
    eapply Within_trans; [|exact HW]. apply Within_Swap; lia.
Qed.

Lemma scanUpEq_spec n d a i j :
  (GoSort.span i j <= n)%nat -> 0 <= a -> a < len d -> 0 <= i -> j < len d ->
  let i' := GoSort.scanUpEq less n d a i j in
  i <= i' <= Z.max i (j + 1) /\
  (forall k, i <= k < i' -> less (get d a) (get d k) = false) /\
  (i' <= j -> less (get d a) (get d i') = true).
Proof.
  unfold GoSort.span. revert i. induction n as [|n IH]; intros i Hn Ha Hal Hi Hj; simpl.
  - split; [lia|]. split; intros; lia.
  - destruct (Z.leb_spec i j) as [Hij|Hij]; simpl.
    2:{ split; [lia|]. split; intros; lia. }
    rewrite Less_get by lia. destruct (less (get d a) (get d i)) eqn:El; simpl.
    + split; [lia|]. split; [intros; lia | auto].
    + destruct (IH (i + 1)) as (H1 & H2 & H3); try lia.
      split; [lia|]. split; [|exact H3].
      intros k Hk. destruct (Z.eq_dec k i) as [->|]; [assumption | apply H2; lia].
Qed.

Lemma scanDownEq_spec n d a i j :
  (GoSort.span i j <= n)%nat -> 0 <= a -> a < len d -> 0 <= i -> j < len d ->
  let j' := GoSort.scanDownEq less n d a i j in
  Z.min j (i - 1) <= j' <= j /\
  (forall k, j' < k <= j -> less (get d a) (get d k) = true) /\
  (i <= j' -> less (get d a) (get d j') = false).
Proof.
  unfold GoSort.span. revert j. induction n as [|n IH]; intros j Hn Ha Hal Hi Hj; simpl.
  - split; [lia|]. split; intros; lia.
  - destruct (Z.leb_spec i j) as [Hij|Hij]; simpl.
    2:{ split; [lia|]. split; intros; lia. }
    rewrite Less_get by lia. destruct (less (get d a) (get d j)) eqn:El.
    + destruct (IH (j - 1)) as (H1 & H2 & H3); try lia.
      split; [lia|]. split; [|exact H3].
      intros k Hk. destruct (Z.eq_dec k j) as [->|]; [assumption | apply H2; lia].
    + split; [lia|]. split; [intros; lia | auto].
Qed.

Lemma partitionEqualLoop_spec n d a b i j :
  (GoSort.span i j <= n)%nat -> 0 <= a -> a < i -> i <= b -> a <= j -> j < b ->
  b <= len d ->
  (forall k, a < k < i -> less (get d a) (get d k) = false) ->
  (forall k, j < k < b -> less (get d a) (get d k) = true) ->
  let r := GoSort.partitionEqualLoop less n d a i j in
  Within (a + 1) b d r.1 /\ a < r.2 <= b /\
  (forall k, a < k < r.2 -> less (get r.1 a) (get r.1 k) = false) /\
  (forall k, r.2 <= k < b -> less (get r.1 a) (get r.1 k) = true).
Proof.
  revert d i j. induction n as [|n IH]; intros d i j Hn Ha Hai Hib Haj Hjb Hb HA HB;
    cbn [GoSort.partitionEqualLoop]; cbv zeta;
    destruct (scanUpEq_spec (GoSort.span i j) d a i j) as (Hi1 & Hi2 & Hi3); try lia;
    set (i' := GoSort.scanUpEq less (GoSort.span i j) d a i j) in *;
    destruct (scanDownEq_spec (GoSort.span i' j) d a i' j) as (Hj1 & Hj2 & Hj3); try lia;
    set (j' := GoSort.scanDownEq less (GoSort.span i' j) d a i' j) in *;
    assert (HA' : forall k, a < k < i' -> less (get d a) (get d k) = false)
      by (intros k Hk; destruct (Z_lt_dec k i); [apply HA | apply Hi2]; lia);
    assert (HB' : forall k, j' < k < b -> less (get d a) (get d k) = true)
      by (intros k Hk; destruct (Z_lt_dec j k); [apply HB | apply Hj2]; lia);
    assert (Hstop : j' < i' ->
              Within (a + 1) b d d /\ a < i' <= b /\
              (forall k, a < k < i' -> less (get d a) (get d k) = false) /\
              (forall k, i' <= k < b -> less (get d a) (get d k) = true))
      by (intros Hlt; split; [apply Within_refl|]; split; [lia|];
          split; [exact HA' | intros k Hk; apply HB'; lia]).
  - unfold GoSort.span in Hn. destruct (Z.ltb_spec j' i'); simpl; [auto | lia].
  - destruct (Z.ltb_spec j' i') as [Hlt|Hge]; simpl; [auto|].
    unfold GoSort.span in Hn.
    set (d1 := GoSort.Swap d i' j').
    assert (Hg : forall k, 0 <= k < len d ->
                 get d1 k = if k =? j' then get d i'
                            else if k =? i' then get d j' else get d k).
    { intros k Hk. unfold d1. apply Swap_get; lia. }
    assert (Hga : get d1 a = get d a).
    { rewrite Hg by lia. destruct (Z.eqb_spec a j'); [lia|].
      destruct (Z.eqb_spec a i'); [lia | reflexivity]. }
    destruct (IH d1 (i' + 1) (j' - 1)) as (HW & Hm & H1 & H2).
    + unfold GoSort.span. lia.
    + lia.
    + lia.
    + lia.
    + lia.
    + lia.
    + unfold d1. rewrite Swap_len. lia.
    + intros k Hk. rewrite Hga, Hg by lia.
      destruct (Z.eqb_spec k j') as [->|].
      { assert (E : i' = j') by lia. rewrite E. apply Hj3. lia. }
      destruct (Z.eqb_spec k i') as [->|]; [apply Hj3; lia | apply HA'; lia].
    + intros k Hk. rewrite Hga, Hg by lia.
      destruct (Z.eqb_spec k j') as [->|]; [apply Hi3; lia|].
      destruct (Z.eqb_spec k i') as [->|]; [|apply HB'; lia].
      assert (E : j' = i') by lia. rewrite E. apply Hi3. lia.
    + split; [|auto].
      eapply Within_trans; [|exact HW]. apply Within_Swap; lia.
Qed.

Lemma partitionEqual_spec d a b pivot :
  0 <= a -> a <= pivot < b -> b <= len d ->
  let r := GoSort.partitionEqual_func less d a b pivot in
  Within a b d r.1 /\ a < r.2 <= b /\
  get r.1 a = get d pivot /\
  (forall k, a <= k < r.2 -> less (get r.1 a) (get r.1 k) = false) /\
  (forall k, r.2 <= k < b -> less (get r.1 a) (get r.1 k) = true).
Proof.
  intros Ha Hp Hb. unfold GoSort.partitionEqual_func. cbv zeta.
  set (d0 := GoSort.Swap d a pivot).
  assert (HW0 : Within a b d d0) by (apply Within_Swap; lia).
  assert (Hl0 : len d0 = len d) by apply Swap_len.
  assert (Hg0 : get d0 a = get d pivot).
  { unfold d0. rewrite Swap_get by lia.
    destruct (Z.eqb_spec a pivot) as [->|]; [reflexivity|]. now rewrite Z.eqb_refl. }
  destruct (partitionEqualLoop_spec (GoSort.span (a + 1) (b - 1)) d0 a b (a + 1) (b - 1))
    as (HW & Hm & H1 & H2); try lia.
  destruct (GoSort.partitionEqualLoop less _ d0 a (a + 1) (b - 1)) as [d1 m].
  cbn [fst snd] in *.
  assert (Hga : get d1 a = get d0 a).
  { apply (Within_outside (a + 1) b d0 d1 a HW); lia. }
  split.
  { eapply Within_trans; [exact HW0|]. eapply Within_weaken; [| | | |exact HW]; lia. }
  split; [lia|]. split; [congruence|]. split; [|exact H2].
  intros k Hk. destruct (Z.eq_dec k a) as [->|]; [|apply H1; lia].
  apply (SortSpec.less_irrefl less SW).
Qed.

(** *** Heap sort *)

Local Abbreviation heapNode := (SortSpec.heapNode less).

Lemma siftDownLoop_spec n d root hi first lo0 :
  (Z.to_nat (hi - root) <= n)%nat -> 0 <= first -> first + hi <= len d ->
  0 <= lo0 <= root ->
  (forall r, lo0 <= r < hi -> r <> root -> heapNode d first hi r) ->
  (forall p c, lo0 <= p -> (root = 2 * p + 1 \/ root = 2 * p + 2) ->
               (c = 2 * root + 1 \/ c = 2 * root + 2) -> c < hi ->
               less (get d (first + p)) (get d (first + c)) = false) ->
  let d' := GoSort.siftDownLoop less n d root hi first in
  Within first (first + hi) d d' /\
  forall r, lo0 <= r < hi -> heapNode d' first hi r.
Proof.
  revert d root. induction n as [|n IH]; intros d root Hn Hf Hlen Hlo Hnodes Hbridge;
    cbn [GoSort.siftDownLoop]; cbv zeta.
  { split; [apply Within_refl|]. intros r Hr.
    destruct (Z.eq_dec r root) as [->|]; [|now apply Hnodes].
    intros c Hc Hhi. lia. }
  destruct (Z.leb_spec hi (2 * root + 1)) as [Hleaf|Hchild].
  { split; [apply Within_refl|]. intros r Hr.
    destruct (Z.eq_dec r root) as [->|]; [|now apply Hnodes].
    intros c Hc Hhi. lia. }
  (* the greater child *)
  set (big := if (2 * root + 1 + 1 <? hi) &&
                 GoSort.Less less d (first + (2 * root + 1)) (first + (2 * root + 1) + 1)
              then 2 * root + 1 + 1 else 2 * root + 1).
  assert (Hbig : (big = 2 * root + 1 \/ big = 2 * root + 2) /\ big < hi /\
                 forall c, (c = 2 * root + 1 \/ c = 2 * root + 2) -> c < hi ->
                   less (get d (first + big)) (get d (first + c)) = false).
  { unfold big. destruct (Z.ltb_spec (2 * root + 1 + 1) hi) as [H2|H2]; simpl.
    - rewrite Less_get by lia.
      replace (first + (2 * root + 1) + 1) with (first + (2 * root + 2)) by lia.
      destruct (less (get d (first + (2 * root + 1))) (get d (first + (2 * root + 2))))
        eqn:El.
      + split; [right; lia|]. split; [lia|].
        replace (2 * root + 1 + 1) with (2 * root + 2) by lia.
        intros c [-> | ->] Hc; [now apply less_asym | apply (SortSpec.less_irrefl less SW)].
      + split; [now left|]. split; [lia|].
        intros c [-> | ->] Hc; [apply (SortSpec.less_irrefl less SW) | assumption].
    - split; [now left|]. split; [lia|].
      intros c [-> | ->] Hc; [apply (SortSpec.less_irrefl less SW) | lia]. }
  clearbody big. destruct Hbig as (Hbc & Hbhi & Hbmax).
  rewrite Less_get by lia.
  destruct (less (get d (first + root)) (get d (first + big))) eqn:El; cbn [negb].
  2:{ split; [apply Within_refl|]. intros r Hr.
      destruct (Z.eq_dec r root) as [->|]; [|now apply Hnodes].
      intros c Hc Hhi. eapply SortSpec.less_ntrans; [exact SW | exact El | now apply Hbmax]. }
  set (d1 := GoSort.Swap d (first + root) (first + big)).
  assert (Hg : forall k, 0 <= k < hi ->
               get d1 (first + k) =
                 if k =? big then get d (first + root)
                 else if k =? root then get d (first + big) else get d (first + k)).
  { intros k Hk. unfold d1. rewrite Swap_get by lia.
    destruct (Z.eqb_spec (first + k) (first + big)), (Z.eqb_spec k big); try lia;
      [reflexivity|].
    destruct (Z.eqb_spec (first + k) (first + root)), (Z.eqb_spec k root); try lia;
      reflexivity. }
  destruct (IH d1 big) as [HW Hheap].
  - lia.
  - lia.
  - unfold d1. rewrite Swap_len. lia.
  - lia.
  - intros r Hr Hrb c Hc Hchi. rewrite !Hg by lia.
    destruct (Z.eqb_spec r big); [lia|].
    destruct (Z.eqb_spec r root) as [->|Hrr].
    + destruct (Z.eqb_spec c big) as [->|]; [now apply less_asym|].
      destruct (Z.eqb_spec c root); [lia|]. now apply Hbmax.
    + destruct (Z.eqb_spec c big); [lia|].
      destruct (Z.eqb_spec c root) as [->|].
      * apply (Hbridge r big); auto; lia.
      * now apply (Hnodes r).
  - intros p c Hp Hpc Hc Hchi. assert (p = root) as -> by lia.
    rewrite !Hg by lia. rewrite Z.eqb_refl.
    destruct (Z.eqb_spec root big); [lia|].
    destruct (Z.eqb_spec c big); [lia|]. destruct (Z.eqb_spec c root); [lia|].
    apply (Hnodes big); [lia | lia | | assumption]. lia.
  - split; [|exact Hheap].
    eapply Within_trans; [|exact HW]. apply Within_Swap; lia.
Qed.

Lemma siftDown_spec d lo hi first :
  0 <= first -> first + hi <= len d -> 0 <= lo ->
  (forall r, lo < r < hi -> heapNode d first hi r) ->
  let d' := GoSort.siftDown_func less d lo hi first in
  Within first (first + hi) d d' /\
  forall r, lo <= r < hi -> heapNode d' first hi r.
Proof.
  intros Hf Hlen Hlo Hnodes. unfold GoSort.siftDown_func.
  apply siftDownLoop_spec; try lia.
  intros r Hr Hne. apply Hnodes. lia.
Qed.

(** The root of a heap is less than none of its nodes. *)
Lemma heap_root d first hi :
  (forall r, 0 <= r < hi -> heapNode d first hi r) ->
  forall r, 0 <= r < hi -> less (get d (first + 0)) (get d (first + r)) = false.
Proof.
  intros Hheap r [Hr0 Hrhi].
  cut (0 <= r -> r < hi -> less (get d (first + 0)) (get d (first + r)) = false);
    [auto|].
  pattern r. apply Z_lt_induction; [|exact Hr0]. clear r Hr0 Hrhi.
  intros r IH Hr0 Hrhi.
  destruct (Z.eq_dec r 0) as [->|Hne]; [apply (SortSpec.less_irrefl less SW)|].
  set (p := (r - 1) / 2).
  assert (Hp : 0 <= p < r /\ (r = 2 * p + 1 \/ r = 2 * p + 2)).
  { unfold p. pose proof (Z.div_mod (r - 1) 2 ltac:(lia)).
    pose proof (Z.mod_pos_bound (r - 1) 2 ltac:(lia)). lia. }
  eapply SortSpec.less_ntrans; [exact SW | apply (IH p); lia |].
  apply (Hheap p); [lia | tauto | assumption].
Qed.

Lemma heapifyLoop_spec n d i hi first :
  (Z.to_nat (i + 1) <= n)%nat -> 0 <= first -> first + hi <= len d -> -1 <= i ->
  (forall r, i < r < hi -> heapNode d first hi r) ->
  let d' := GoSort.heapifyLoop less n d i hi first in
  Within first (first + hi) d d' /\
  forall r, 0 <= r < hi -> heapNode d' first hi r.
Proof.
  revert d i. induction n as [|n IH]; intros d i Hn Hf Hlen Hi Hnodes; simpl.
  - split; [apply Within_refl|]. intros r Hr. apply Hnodes. lia.
  - destruct (Z.leb_spec 0 i) as [H0|H0].
    2:{ split; [apply Within_refl|]. intros r Hr. apply Hnodes. lia. }
    destruct (siftDown_spec d i hi first) as [HW1 Hh1]; try lia; try assumption.
    set (d1 := GoSort.siftDown_func less d i hi first) in *.
    pose proof (Within_len _ _ _ _ HW1) as Hl1.
    destruct (IH d1 (i - 1)) as [HW2 Hh2]; try lia.
    { intros r Hr. apply Hh1. lia. }
    split; [|exact Hh2]. eapply Within_trans; eauto.
Qed.

Lemma popLoop_spec n d i first hi0 :
  (Z.to_nat (i + 1) <= n)%nat -> 0 <= first -> first + hi0 <= len d ->
  -1 <= i < hi0 ->
  (forall r, 0 <= r < i + 1 -> heapNode d first (i + 1) r) ->
  sortedRange (first + i + 1) (first + hi0) d ->
  (forall r k, 0 <= r <= i -> i < k < hi0 ->
               less (get d (first + k)) (get d (first + r)) = false) ->
  let d' := GoSort.popLoop less n d i first in
  Within first (first + hi0) d d' /\ sortedRange first (first + hi0) d'.
Proof.
  revert d i. induction n as [|n IH]; intros d i Hn Hf Hlen Hi Hheap Hsorted Hle; simpl.
  - assert (i = -1) as -> by lia. split; [apply Within_refl|].
    replace (first + -1 + 1) with first in Hsorted by lia. exact Hsorted.
  - destruct (Z.leb_spec 0 i) as [H0|H0].
    2:{ assert (i = -1) as -> by lia. split; [apply Within_refl|].
        replace (first + -1 + 1) with first in Hsorted by lia. exact Hsorted. }
    set (d1 := GoSort.Swap d first (first + i)).
    assert (Hl1 : len d1 = len d) by apply Swap_len.
    assert (Hg : forall k, 0 <= k < hi0 ->
                 get d1 (first + k) =
                   if k =? i then get d (first + 0)
                   else if k =? 0 then get d (first + i) else get d (first + k)).
    { intros k Hk. unfold d1. rewrite Swap_get by lia.
      replace (first + 0) with first by lia.
      destruct (Z.eqb_spec (first + k) (first + i)), (Z.eqb_spec k i); try lia;
        [reflexivity|].
      destruct (Z.eqb_spec (first + k) first), (Z.eqb_spec k 0); try lia; reflexivity. }
    pose proof (heap_root d first (i + 1) Hheap) as Hroot.
    destruct (siftDown_spec d1 0 i first) as [HW2 Hh2]; try lia.
    { intros r Hr c Hc Hci. rewrite !Hg by lia.
      destruct (Z.eqb_spec r i); [lia|]. destruct (Z.eqb_spec r 0); [lia|].
      destruct (Z.eqb_spec c i); [lia|]. destruct (Z.eqb_spec c 0); [lia|].
      apply (Hheap r); [lia | assumption | lia]. }
    set (d2 := GoSort.siftDown_func less d1 0 i first) in *.
    pose proof (Within_len _ _ _ _ HW2) as Hl2.
    assert (HW12 : Within first (first + hi0) d d2).
    { apply (Within_trans _ _ d d1 d2).
      - apply (Within_Swap first (first + hi0) d first (first + i)); lia.
      - eapply Within_weaken; [| | | |exact HW2]; lia. }
    (* the sorted tail of [d2], from [i] on *)
    assert (Htail : forall k, i <= k < hi0 -> get d2 (first + k) = get d1 (first + k)).
    { intros k Hk. apply (Within_outside first (first + i) d1 d2); [assumption | lia | lia]. }
    assert (Hhead : forall r, 0 <= r < i ->
              forall k, i <= k < hi0 ->
              less (get d1 (first + k)) (get d2 (first + r)) = false).
    { intros r Hr k Hk.
      assert (Hall : forall q, first <= q < first + i ->
                less (get d1 (first + k)) (get d2 q) = false).
      { apply (Within_all first (first + i) d1 d2
                 (fun x => less (get d1 (first + k)) x = false) HW2).
        intros q Hq. replace q with (first + (q - first)) by lia.
        rewrite !Hg by lia.
        destruct (Z.eqb_spec (q - first) i); [lia|].
        destruct (Z.eqb_spec k i) as [->|Hki].
        - destruct (Z.eqb_spec (q - first) 0); apply Hroot; lia.
        - destruct (Z.eqb_spec k 0); [lia|].
          destruct (Z.eqb_spec (q - first) 0); apply Hle; lia. }
      apply Hall. lia. }
    destruct (IH d2 (i - 1)) as [HW3 Hs3]; try lia.
    + replace (i - 1 + 1) with i by lia. exact Hh2.
    + replace (first + (i - 1) + 1) with (first + i) by lia.
      intros x y Hx Hxy Hy.
      replace x with (first + (x - first)) by lia.
      replace y with (first + (y - first)) by lia.
      rewrite !Htail by lia. rewrite !Hg by lia.
      destruct (Z.eqb_spec (y - first) i); [lia|].
      destruct (Z.eqb_spec (y - first) 0); [lia|].
      destruct (Z.eqb_spec (x - first) i) as [E|E].
      * apply Hle; lia.
      * destruct (Z.eqb_spec (x - first) 0); [lia|].
        replace (first + (y - first)) with y by lia.
        replace (first + (x - first)) with x by lia.
        apply Hsorted; lia.
    + intros r k Hr Hk. rewrite Htail by lia. apply Hhead; lia.
    + split; [|exact Hs3]. eapply Within_trans; eauto.
Qed.

Lemma heapSort_spec d a b :
  0 <= a <= b -> b <= len d ->
  let d' := GoSort.heapSort_func less d a b in
  Within a b d d' /\ sortedRange a b d'.
Proof.
  intros Hab Hb. unfold GoSort.heapSort_func. cbv zeta.
  assert (Hq : -1 <= Z.quot (b - a - 1) 2 /\ b - a - 2 <= 2 * Z.quot (b - a - 1) 2).
  { destruct (Z.eq_dec a b) as [->|].
    - replace (b - b - 1) with (-1) by lia. change (Z.quot (-1) 2) with 0. lia.
    - rewrite Z.quot_div_nonneg by lia.
      pose proof (Z.div_mod (b - a - 1) 2 ltac:(lia)).
      pose proof (Z.mod_pos_bound (b - a - 1) 2 ltac:(lia)). lia. }
  destruct (heapifyLoop_spec (Z.to_nat (Z.quot (b - a - 1) 2 + 1)) d
              (Z.quot (b - a - 1) 2) (b - a) a) as [HW1 Hh1]; try lia.
  { intros r Hr. unfold SortSpec.heapNode. intros c Hc Hchi. lia. }
  set (d1 := GoSort.heapifyLoop less _ d _ (b - a) a) in *.
  pose proof (Within_len _ _ _ _ HW1) as Hl1.
  destruct (popLoop_spec (Z.to_nat (b - a)) d1 (b - a - 1) a (b - a)) as [HW2 Hs2];
    try lia.
  { replace (b - a - 1 + 1) with (b - a) by lia. exact Hh1. }
  { intros x y; lia. }
  replace (a + (b - a)) with b in * by lia.
  split; [eapply Within_trans; eauto | exact Hs2].
Qed.

(** *** The helpers of [pdqsort_func] *)

Lemma skipSorted_spec n d a i b :
  (Z.to_nat (b - i) <= n)%nat -> 0 <= a -> a < i -> i <= b -> b <= len d ->
  adjSorted a i d ->
  let i' := GoSort.skipSorted less n d i b in
  i <= i' <= b /\ adjSorted a i' d /\
  (i' < b -> less (get d i') (get d (i' - 1)) = true).
Proof.
  revert i. induction n as [|n IH]; intros i Hn Ha Hai Hib Hb Hs; simpl.
  - split; [lia|]. split; [assumption | lia].
  - destruct (Z.ltb_spec i b) as [Hlt|Hge]; simpl.
    2:{ split; [lia|]. split; [assumption | lia]. }
    rewrite Less_get by lia.
    destruct (less (get d i) (get d (i - 1))) eqn:El; simpl.
    + split; [lia|]. split; [assumption | auto].
    + destruct (IH (i + 1)) as (H1 & H2 & H3); try lia.
      { intros k Hk1 Hk2. destruct (Z.eq_dec k i) as [->|]; [assumption | apply Hs; lia]. }
      split; [lia|]. split; assumption.
Qed.

Lemma shiftLeft_sinkLoop n d j :
  GoSort.shiftLeft less n d j = GoSort.sinkLoop less n d 0 j.
Proof.
  revert d j. induction n as [|n IH]; intros d j; simpl; [reflexivity|].
  destruct (Z.leb_spec 1 j), (Z.ltb_spec 0 j); try lia; simpl; [|reflexivity].
  destruct (GoSort.Less less d j (j - 1)); simpl; [apply IH | reflexivity].
Qed.

(** Below a range that the element before it bounds, sinking stops at the
    start of the range. *)
Lemma sinkLoop_lower n d a j :
  0 <= a <= j -> j < len d ->
  (0 < a -> forall k, a <= k <= j -> less (get d k) (get d (a - 1)) = false) ->
  GoSort.sinkLoop less n d 0 j = GoSort.sinkLoop less n d a j.
Proof.
  revert d j. induction n as [|n IH]; intros d j Ha Hj Hlow; simpl; [reflexivity|].
  destruct (Z.ltb_spec a j) as [Haj|Haj].
  - destruct (Z.ltb_spec 0 j); [|lia]. simpl.
    destruct (GoSort.Less less d j (j - 1)) eqn:El; [|reflexivity].
    apply IH; [lia | rewrite Swap_len; lia |].
    intros Hpos k Hk. rewrite !Swap_get by lia.
    destruct (Z.eqb_spec (a - 1) (j - 1)); [lia|].
    destruct (Z.eqb_spec (a - 1) j); [lia|].
    destruct (Z.eqb_spec k (j - 1)); [apply Hlow; lia|].
    destruct (Z.eqb_spec k j); apply Hlow; lia.
  - assert (j = a) as -> by lia. simpl.
    destruct (Z.ltb_spec 0 a) as [Hpos|]; simpl; [|reflexivity].
    rewrite Less_get by lia. rewrite Hlow by lia. reflexivity.
Qed.

Lemma shiftRight_Within n d lo j b :
  0 <= lo -> lo < j -> b <= len d ->
  Within lo b d (GoSort.shiftRight less n d j b).
Proof.
  revert d j. induction n as [|n IH]; intros d j Hlo Hj Hb; simpl;
    [apply Within_refl|].
  destruct (Z.ltb_spec j b); [|apply Within_refl].
  destruct (GoSort.Less less d j (j - 1)); simpl; [|apply Within_refl].
  eapply Within_trans; [apply (Within_Swap lo b d j (j - 1)); lia|].
  apply IH; [lia | lia | rewrite Swap_len; lia].
Qed.

Lemma adjSorted_frame a i lo b d d' :
  0 <= a -> i <= lo -> i <= len d -> Within lo b d d' -> adjSorted a i d -> adjSorted a i d'.
Proof.
  intros Ha Hi Hb HW Hs k Hk1 Hk2.
  rewrite !(Within_outside lo b d d') by (try assumption; lia). apply Hs; lia.
Qed.

Lemma partialInsertionLoop_spec steps d a b i :
  0 <= a -> a < i -> i <= b -> b <= len d ->
  lowerBounded a b d -> adjSorted a i d ->
  let r := GoSort.partialInsertionLoop less steps d a b i in
  Within a b d r.1 /\ (r.2 = true -> sortedRange a b r.1).
Proof.
  revert d i. induction steps as [|steps IH]; intros d i Ha Hai Hib Hb Hlow Hs;
    cbn [GoSort.partialInsertionLoop]; cbv zeta.
  { split; [apply Within_refl | discriminate]. }
  destruct (skipSorted_spec (Z.to_nat (b - i)) d a i b) as (Hi1 & Hi2 & Hi3);
    try lia; try assumption.
  set (i' := GoSort.skipSorted less (Z.to_nat (b - i)) d i b) in *.
  destruct (Z.eqb_spec i' b) as [E|E].
  { split; [apply Within_refl|]. intros _. apply adjSorted_sortedRange.
    now rewrite <- E. }
  destruct (b - a <? GoSort.shortestShifting).
  { split; [apply Within_refl | discriminate]. }
  set (d1 := GoSort.Swap d i' (i' - 1)).
  assert (HW1 : Within a b d d1) by (apply Within_Swap; lia).
  assert (Hl1 : len d1 = len d) by apply Swap_len.
  assert (Hlow1 : lowerBounded a b d1) by (apply (lowerBounded_Within a b d); auto; lia).
  set (d2 := if 2 <=? i' - a
             then GoSort.shiftLeft less (Z.to_nat (i' - 1)) d1 (i' - 1) else d1).
  assert (H2 : Within a i' d1 d2 /\ adjSorted a i' d2).
  { unfold d2. destruct (Z.leb_spec 2 (i' - a)).
    - rewrite shiftLeft_sinkLoop, (sinkLoop_lower _ d1 a) by
        (try lia; intros Hpos k Hk; apply Hlow1; lia).
      apply sinkLoop_spec; try lia.
      intros k Hk1 Hk2 Hk3. unfold d1. rewrite !Swap_get by lia.
      destruct (Z.eqb_spec k (i' - 1)); [lia|]. destruct (Z.eqb_spec k i'); [lia|].
      destruct (Z.eqb_spec (k - 1) (i' - 1)); [lia|].
      destruct (Z.eqb_spec (k - 1) i'); [lia|]. apply Hi2; lia.
    - split; [apply Within_refl|]. intros k; lia. }
  destruct H2 as [HW2 Hs2].
  assert (Hl2 : len d2 = len d1) by (eapply Within_len; eauto).
  set (d3 := if 2 <=? b - i'
             then GoSort.shiftRight less (Z.to_nat (b - (i' + 1))) d2 (i' + 1) b else d2).
  assert (HW3 : Within i' b d2 d3).
  { unfold d3. destruct (2 <=? b - i'); [|apply Within_refl].
    apply shiftRight_Within; lia. }
  assert (Hl3 : len d3 = len d2) by (eapply Within_len; eauto).
  assert (HW : Within a b d d3).
  { eapply Within_trans; [exact HW1|]. eapply Within_trans.
    - eapply Within_weaken; [| | | |exact HW2]; lia.
    - eapply Within_weaken; [| | | |exact HW3]; lia. }
  destruct (IH d3 i') as [HWr Hsr]; try lia.
  - apply (lowerBounded_Within a b d); auto; lia.
  - apply (adjSorted_frame a i' i' b d2 d3); auto; lia.
  - split; [eapply Within_trans; eauto | exact Hsr].
Qed.

Lemma partialInsertionSort_spec d a b :
  0 <= a -> a < b -> b <= len d -> lowerBounded a b d ->
  let r := GoSort.partialInsertionSort_func less d a b in
  Within a b d r.1 /\ (r.2 = true -> sortedRange a b r.1).
Proof.
  intros Ha Hab Hb Hlow. unfold GoSort.partialInsertionSort_func.
  apply partialInsertionLoop_spec; try lia; try assumption.
  intros k; lia.
Qed.

Lemma xorshift_Next_nonneg r : 0 <= r -> 0 <= GoSort.xorshift_Next r.
Proof.
  intros Hr. unfold GoSort.xorshift_Next. cbv zeta.
  assert (Hm : forall x, 0 <= x mod 2 ^ 64) by (intros; apply Z.mod_pos_bound; lia).
  assert (H1 : 0 <= Z.lxor r (Z.shiftl r 13 mod 2 ^ 64)).
  { apply Z.lxor_nonneg. split; auto. }
  assert (H2 : 0 <= Z.lxor (Z.lxor r (Z.shiftl r 13 mod 2 ^ 64))
                      (Z.shiftr (Z.lxor r (Z.shiftl r 13 mod 2 ^ 64)) 7)).
  { apply Z.lxor_nonneg. split; intros _; [|assumption].
    now apply Z.shiftr_nonneg. }
  apply Z.lxor_nonneg. split; auto.
Qed.

Lemma nextPowerOfTwo_bounds length :
  0 < length ->
  exists n, 0 <= n /\ GoSort.nextPowerOfTwo length = 2 ^ n /\ 2 ^ n <= 2 * length.
Proof.
  intros Hl. unfold GoSort.nextPowerOfTwo, GoSort.bitsLen.
  destruct (Z.leb_spec length 0); [lia|].
  pose proof (Z.log2_nonneg length). pose proof (Z.log2_spec length Hl) as [Hs _].
  exists (Z.log2 length + 1). split; [lia|]. split; [apply Z.shiftl_1_l|].
  rewrite Z.pow_add_r by lia. lia.
Qed.

Lemma breakPatterns_Within (d : list A) a b :
  0 <= a -> b <= len d -> Within a b d (GoSort.breakPatterns_func d a b).
Proof.
  intros Ha Hb. unfold GoSort.breakPatterns_func. cbv zeta.
  destruct (Z.leb_spec 8 (b - a)) as [H8|]; [|apply Within_refl].
  destruct (nextPowerOfTwo_bounds (b - a) ltac:(lia)) as (e & He & -> & Hpow).
  pose proof (Z.div_mod (b - a) 4 ltac:(lia)) as Hdm.
  pose proof (Z.mod_pos_bound (b - a) 4 ltac:(lia)) as Hmb.
  set (idx := a + (b - a) / 4 * 2 - 1).
  assert (Hidx : a + 1 <= idx - 1 /\ idx + 1 < b) by (unfold idx; lia).
  clearbody idx.
  assert (Hgen : forall n (d0 : list A) random i,
             len d0 = len d -> 0 <= random -> 0 <= i -> i + Z.of_nat n <= 3 ->
             Within a b d0 (GoSort.breakLoop n d0 a (b - a) idx (2 ^ e) random i)).
  { induction n as [|n IH]; intros d0 random i Hl0 Hr Hi Hn; simpl;
      [apply Within_refl|].
    pose proof (xorshift_Next_nonneg random Hr) as Hnext.
    set (other0 := Z.land (GoSort.xorshift_Next random) (2 ^ e - 1)).
    assert (Ho : 0 <= other0 < 2 ^ e).
    { unfold other0. replace (2 ^ e - 1) with (Z.ones e)
        by (rewrite Z.ones_equiv; lia).
      rewrite Z.land_ones by lia. apply Z.mod_pos_bound. lia. }
    set (other := if b - a <=? other0 then other0 - (b - a) else other0).
    assert (Hother : 0 <= other < b - a).
    { unfold other. destruct (Z.leb_spec (b - a) other0); lia. }
    eapply Within_trans; [apply (Within_Swap a b d0 (idx - 1 + i) (a + other)); lia|].
    apply IH; [rewrite Swap_len; lia | assumption | lia | lia]. }
  apply Hgen; try reflexivity; lia.
Qed.

Lemma reverseRange_Within (d : list A) a b :
  0 <= a -> b <= len d -> Within a b d (GoSort.reverseRange_func d a b).
Proof.
  intros Ha Hb. unfold GoSort.reverseRange_func.
  assert (Hgen : forall n (d0 : list A) i j,
             len d0 = len d -> a <= i -> j < b ->
             Within a b d0 (GoSort.reverseLoop n d0 i j)).
  { induction n as [|n IH]; intros d0 i j Hl0 Hi Hj; simpl; [apply Within_refl|].
    destruct (Z.ltb_spec i j); [|apply Within_refl].
    eapply Within_trans; [apply (Within_Swap a b d0 i j); lia|].
    apply IH; [rewrite Swap_len; lia | lia | lia]. }
  apply Hgen; [reflexivity | lia | lia].
Qed.

Lemma median_func_index d x y z s :
  let r := GoSort.median_func less d x y z s in r.1 = x \/ r.1 = y \/ r.1 = z.
Proof.
  unfold GoSort.median_func, GoSort.order2_func.
  repeat (case_match; simplify_eq/=); auto.
Qed.

Lemma choosePivot_bounds d a b :
  8 <= b - a -> a <= (GoSort.choosePivot_func less d a b).1 < b.
Proof.
  intros H8.
  pose proof (Z.div_mod (b - a) 4 ltac:(lia)) as Hdm.
  pose proof (Z.mod_pos_bound (b - a) 4 ltac:(lia)) as Hmb.
  unfold GoSort.choosePivot_func, GoSort.medianAdjacent_func. cbv zeta.
  destruct (Z.leb_spec 8 (b - a)); [|lia].
  set (q := (b - a) / 4) in *.
  destruct (Z.leb_spec GoSort.shortestNinther (b - a)) as [H50|H50].
  - unfold GoSort.shortestNinther in H50.
    pose proof (median_func_index d (a + q * 1 - 1) (a + q * 1) (a + q * 1 + 1) 0) as M1.
    destruct (GoSort.median_func less d (a + q * 1 - 1) _ _ 0) as [i s1].
    pose proof (median_func_index d (a + q * 2 - 1) (a + q * 2) (a + q * 2 + 1) s1) as M2.
    destruct (GoSort.median_func less d (a + q * 2 - 1) _ _ s1) as [j s2].
    pose proof (median_func_index d (a + q * 3 - 1) (a + q * 3) (a + q * 3 + 1) s2) as M3.
    destruct (GoSort.median_func less d (a + q * 3 - 1) _ _ s2) as [k s3].
    pose proof (median_func_index d i j k s3) as M4.
    destruct (GoSort.median_func less d i j k s3) as [p s4].
    cbn [fst snd] in *. repeat case_match; cbn [fst]; lia.
  - pose proof (median_func_index d (a + q * 1) (a + q * 2) (a + q * 3) 0) as M4.
    destruct (GoSort.median_func less d (a + q * 1) _ _ 0) as [p s4].
    cbn [fst snd] in *. repeat case_match; cbn [fst]; lia.
Qed.

(** *** The quicksort *)

(** Two rearrangements of ranges that do not meet: each range keeps its own
    elements. *)
Lemma Within_apart a1 b1 a2 b2 d d1 d2 :
  0 <= a1 -> b1 <= len d -> 0 <= a2 -> b2 <= len d -> b1 <= a2 \/ b2 <= a1 ->
  Within a1 b1 d d1 -> Within a2 b2 d1 d2 ->
  (forall k, a1 <= k < b1 -> get d2 k = get d1 k) /\
  (forall k, a1 <= k < b1 -> exists k', a1 <= k' < b1 /\ get d2 k = get d k') /\
  (forall k, a2 <= k < b2 -> exists k', a2 <= k' < b2 /\ get d2 k = get d k') /\
  (forall k, 0 <= k < len d -> ~ (a1 <= k < b1) -> ~ (a2 <= k < b2) -> get d2 k = get d k).
Proof.
  intros Ha1 Hb1 Ha2 Hb2 Hdis HW1 HW2.
  pose proof (Within_len _ _ _ _ HW1) as Hl1.
  assert (E1 : forall k, a1 <= k < b1 -> get d2 k = get d1 k).
  { intros k Hk. apply (Within_outside a2 b2 d1 d2); [assumption | lia | lia]. }
  split; [exact E1|]. split; [|split].
  - intros k Hk. rewrite E1 by assumption.
    destruct HW1 as (_ & _ & C). apply C, Hk.
  - intros k Hk. destruct HW2 as (_ & _ & C). destruct (C k Hk) as (k' & Hk' & ->).
    exists k'. split; [assumption|].
    apply (Within_outside a1 b1 d d1); [assumption | lia | lia].
  - intros k Hk N1 N2.
    rewrite (Within_outside a2 b2 d1 d2) by (try assumption; lia).
    apply (Within_outside a1 b1 d d1); assumption.
Qed.

(** The two sorted sides of a partition make a sorted range. *)
Lemma sortedRange_join a mid b d d' :
  (forall k, a <= k < mid -> less (get d k) (get d mid) = true) ->
  (forall k, mid < k < b -> less (get d k) (get d mid) = false) ->
  (forall k, a <= k < mid -> exists k', a <= k' < mid /\ get d' k = get d k') ->
  (forall k, mid + 1 <= k < b -> exists k', mid + 1 <= k' < b /\ get d' k = get d k') ->
  get d' mid = get d mid ->
  sortedRange a mid d' -> sortedRange (mid + 1) b d' -> sortedRange a b d'.
Proof.
  intros HL HR CL CR Hm SL SR i j Hi Hij Hj.
  destruct (Z_lt_dec j mid) as [Hjm|Hjm]; [apply SL; lia|].
  destruct (Z_lt_dec mid i) as [Him|Him]; [apply SR; lia|].
  destruct (Z.eq_dec j mid) as [->|Hjn].
  - rewrite Hm. destruct (CL i ltac:(lia)) as (k' & Hk' & ->).
    apply less_asym, HL, Hk'.
  - destruct (CR j ltac:(lia)) as (k'' & Hk'' & ->).
    destruct (Z.eq_dec i mid) as [->|Hin].
    + rewrite Hm. apply HR. lia.
    + destruct (CL i ltac:(lia)) as (k' & Hk' & ->).
      destruct (less (get d k'') (get d k')) eqn:E; [|reflexivity].
      rewrite <- (HR k'' ltac:(lia)). symmetry.
      eapply SortSpec.less_trans; [exact SW | exact E | apply HL, Hk'].
Qed.

(** After [partitionEqual_func] the left part holds elements equal to the
    pivot, so it is sorted, and it bounds the right part from below. *)
Lemma sortedRange_equal_prefix a mid b d d' (p : A) :
  0 <= a -> a < mid -> mid <= b -> b <= len d ->
  (forall k, a <= k < mid -> less p (get d k) = false) ->
  (forall k, mid <= k < b -> less p (get d k) = true) ->
  (forall k, a <= k < b -> less (get d k) p = false) ->
  Within mid b d d' -> sortedRange mid b d' -> sortedRange a b d'.
Proof.
  intros Ha Ham Hmb Hb HL HR Hlow HW SR i j Hi Hij Hj.
  destruct (Z_le_dec mid i) as [Him|Him]; [apply SR; lia|].
  rewrite (Within_outside mid b d d' i) by (try assumption; lia).
  destruct (Z_lt_dec j mid) as [Hjm|Hjm].
  - rewrite (Within_outside mid b d d' j) by (try assumption; lia).
    apply (le_trans _ p); [apply HL | apply Hlow]; lia.
  - destruct HW as (_ & _ & C). destruct (C j ltac:(lia)) as (k' & Hk' & ->).
    apply (le_trans _ p); [apply HL | apply Hlow]; lia.
Qed.

Lemma lowerBounded_sub a b a' b' d :
  a' = a -> b' <= b -> lowerBounded a b d -> lowerBounded a' b' d.
Proof. intros -> Hb HL Hpos k Hk. apply HL; lia. Qed.

(** [pdqsort_func] sorts [data[a:b]] and touches nothing else. *)
Lemma pdqsort_func_spec fuel : forall d a b limit wb wp d',
  0 <= a <= b -> b <= len d -> lowerBounded a b d ->
  GoSort.pdqsort_func less fuel d a b limit wb wp = Some d' ->
  Within a b d d' /\ sortedRange a b d'.
Proof.
  induction fuel as [|fuel IH]; intros d a b limit wb wp d' Hab Hb Hlow Hrun;
    [discriminate|].
  cbn [GoSort.pdqsort_func] in Hrun. cbv zeta in Hrun.
  destruct (Z.leb_spec (b - a) GoSort.maxInsertion) as [H12|H12].
  { injection Hrun as <-. now apply insertionSort_spec. }
  unfold GoSort.maxInsertion in H12.
  destruct (limit =? 0).
  { injection Hrun as <-. now apply heapSort_spec. }
  (* breakPatterns *)
  set (r1 := if negb wb then (GoSort.breakPatterns_func d a b, limit - 1)
             else (d, limit)) in Hrun.
  assert (HW1 : Within a b d r1.1).
  { unfold r1. destruct (negb wb); cbn [fst];
      [apply breakPatterns_Within; lia | apply Within_refl]. }
  destruct r1 as [d1 limit1]. cbn [fst] in HW1.
  assert (Hl1 : len d1 = len d) by (eapply Within_len; eauto).
  (* choosePivot *)
  pose proof (choosePivot_bounds d1 a b ltac:(lia)) as Hpiv.
  destruct (GoSort.choosePivot_func less d1 a b) as [pivot0 hint0].
  cbn [fst] in Hpiv.
  set (r2 := match hint0 with
             | GoSort.decreasingHint =>
                 (GoSort.reverseRange_func d1 a b, b - 1 - (pivot0 - a), GoSort.increasingHint)
             | _ => (d1, pivot0, hint0)
             end) in Hrun.
  assert (H2 : Within a b d1 r2.1.1 /\ a <= r2.1.2 < b).
  { unfold r2. destruct hint0; cbn [fst snd];
      (split; [first [apply Within_refl | apply reverseRange_Within; lia] | lia]). }
  destruct r2 as [[d2 pivot] hint]. cbn [fst snd] in H2. destruct H2 as [HW2 Hp].
  assert (Hl2 : len d2 = len d1) by (eapply Within_len; eauto).
  assert (Hlow2 : lowerBounded a b d2).
  { apply (lowerBounded_Within a b d1); [lia | lia | assumption|].
    apply (lowerBounded_Within a b d); [lia | lia | assumption | assumption]. }
  (* partialInsertionSort *)
  set (r3 := if wb && wp && GoSort.isIncreasing hint
             then GoSort.partialInsertionSort_func less d2 a b
             else (d2, false)) in Hrun.
  assert (H3 : Within a b d2 r3.1 /\ (r3.2 = true -> sortedRange a b r3.1)).
  { unfold r3. destruct (wb && wp && GoSort.isIncreasing hint).
    - apply partialInsertionSort_spec; try lia. assumption.
    - cbn [fst snd]. split; [apply Within_refl | discriminate]. }
  destruct r3 as [d3 sorted]. cbn [fst snd] in H3. destruct H3 as [HW3 Hs3].
  assert (Hl3 : len d3 = len d2) by (eapply Within_len; eauto).
  assert (HW03 : Within a b d d3).
  { eapply Within_trans; [exact HW1|]. eapply Within_trans; [exact HW2 | exact HW3]. }
  assert (Hlow3 : lowerBounded a b d3).
  { apply (lowerBounded_Within a b d2); [lia | lia | assumption | assumption]. }
  destruct sorted.
  { injection Hrun as <-. split; [assumption | auto]. }
  destruct ((0 <? a) && negb (GoSort.Less less d3 (a - 1) pivot)) eqn:Eeq.
  - (* partitionEqual *)
    apply andb_prop in Eeq as [Hpos Hnl]. apply Z.ltb_lt in Hpos.
    apply negb_true_iff in Hnl. rewrite Less_get in Hnl by lia.
    pose proof (partitionEqual_spec d3 a b pivot ltac:(lia) Hp ltac:(lia))
      as (HW4 & Hmid & Hpv & HL & HR).
    destruct (GoSort.partitionEqual_func less d3 a b pivot) as [d4 mid].
    cbn [fst snd] in HW4, Hmid, Hpv, HL, HR.
    assert (Hl4 : len d4 = len d3) by (eapply Within_len; eauto).
    assert (Hlow4 : lowerBounded a b d4).
    { apply (lowerBounded_Within a b d3); [lia | lia | assumption | assumption]. }
    assert (Hprev : get d4 (a - 1) = get d3 (a - 1)).
    { apply (Within_outside a b d3 d4); [assumption | lia | lia]. }
    assert (Hge : forall k, a <= k < b -> less (get d4 k) (get d4 a) = false).
    { intros k Hk. apply (le_trans _ (get d4 (a - 1))).
      - rewrite Hprev, Hpv. exact Hnl.
      - apply Hlow4; lia. }
    assert (Hlow5 : lowerBounded mid b d4).
    { intros _ k Hk.
      destruct (less (get d4 k) (get d4 (mid - 1))) eqn:E; [|reflexivity].
      pose proof (less_le_trans _ _ (get d4 a) E (HL (mid - 1) ltac:(lia))) as Hc.
      rewrite Hge in Hc by lia. discriminate. }
    destruct (IH d4 mid b limit1 wb wp d' ltac:(lia) ltac:(lia) Hlow5 Hrun)
      as [HW5 Hs5].
    split.
    + eapply Within_trans; [exact HW03|]. eapply Within_trans; [exact HW4|].
      eapply Within_weaken; [| | | |exact HW5]; lia.
    + apply (sortedRange_equal_prefix a mid b d4 d' (get d4 a)); auto; lia.
  - (* partition *)
    clear Eeq.
    pose proof (partition_spec d3 a b pivot ltac:(lia) Hp ltac:(lia))
      as (HW4 & Hmid & HL & HR).
    destruct (GoSort.partition_func less d3 a b pivot) as [[d4 mid] ap].
    cbn [fst snd] in HW4, Hmid, HL, HR.
    assert (Hl4 : len d4 = len d3) by (eapply Within_len; eauto).
    assert (Hlow4 : lowerBounded a b d4).
    { apply (lowerBounded_Within a b d3); [lia | lia | assumption | assumption]. }
    assert (HlowL : lowerBounded a mid d4).
    { apply (lowerBounded_sub a b); [reflexivity | lia | assumption]. }
    assert (HlowR : lowerBounded (mid + 1) b d4).
    { intros _ k Hk. replace (mid + 1 - 1) with mid by lia. apply HR. lia. }
    assert (HW04 : Within a b d d4) by (eapply Within_trans; eauto).
    destruct (mid - a <? b - mid).
    + destruct (GoSort.pdqsort_func less fuel d4 a mid limit1 true true)
        as [d5|] eqn:E5; [|discriminate].
      cbn in Hrun.
      destruct (IH d4 a mid limit1 true true d5 ltac:(lia) ltac:(lia) HlowL E5)
        as [HW5 Hs5].
      assert (Hl5 : len d5 = len d4) by (eapply Within_len; eauto).
      assert (HlowR5 : lowerBounded (mid + 1) b d5).
      { intros _ k Hk. replace (mid + 1 - 1) with mid by lia.
        rewrite !(Within_outside a mid d4 d5) by (try assumption; lia).
        apply HR. lia. }
      destruct (IH d5 (mid + 1) b limit1 _ _ d' ltac:(lia) ltac:(lia) HlowR5 Hrun)
        as [HW6 Hs6].
      destruct (Within_apart a mid (mid + 1) b d4 d5 d')
        as (E1 & C1 & C2 & F); try lia; try assumption.
      split.
      * eapply Within_trans; [exact HW04|]. eapply Within_trans.
        -- eapply Within_weaken; [| | | |exact HW5]; lia.
        -- eapply Within_weaken; [| | | |exact HW6]; lia.
      * apply (sortedRange_join a mid b d4 d'); auto.
        -- apply F; lia.
        -- intros i j Hi Hij Hj. rewrite !E1 by lia. apply Hs5; lia.
    + destruct (GoSort.pdqsort_func less fuel d4 (mid + 1) b limit1 true true)
        as [d5|] eqn:E5; [|discriminate].
      cbn in Hrun.
      destruct (IH d4 (mid + 1) b limit1 true true d5 ltac:(lia) ltac:(lia) HlowR E5)
        as [HW5 Hs5].
      assert (Hl5 : len d5 = len d4) by (eapply Within_len; eauto).
      assert (HlowL5 : lowerBounded a mid d5).
      { intros Hpos k Hk.
        rewrite !(Within_outside (mid + 1) b d4 d5) by (try assumption; lia).
        apply Hlow4; lia. }
      destruct (IH d5 a mid limit1 _ _ d' ltac:(lia) ltac:(lia) HlowL5 Hrun)
        as [HW6 Hs6].
      destruct (Within_apart (mid + 1) b a mid d4 d5 d')
        as (E1 & C1 & C2 & F); try lia; try assumption.
      split.
      * eapply Within_trans; [exact HW04|]. eapply Within_trans.
        -- eapply Within_weaken; [| | | |exact HW5]; lia.
        -- eapply Within_weaken; [| | | |exact HW6]; lia.
      * apply (sortedRange_join a mid b d4 d'); auto.
        -- apply F; lia.
        -- intros i j Hi Hij Hj. rewrite !E1 by lia. apply Hs5; lia.
Qed.

(** [sort.Slice] with a strict weak order leaves the slice in
    non-decreasing order. *)
Lemma Slice_sorted d : SortSpec.Sorted less (GoSort.Slice less d).
Proof.
  pose proof (Slice_run_Some less d) as Hrun.
  unfold GoSort.Slice_run in Hrun. cbv zeta in Hrun.
  apply pdqsort_func_spec in Hrun as [HW Hs].
  - intros i j x y Hij Hi Hj.
    pose proof (lookup_lt_Some _ _ _ Hj) as Hlen.
    destruct HW as (Hl & _). rewrite Hl in Hlen.
    specialize (Hs (Z.of_nat i) (Z.of_nat j) ltac:(lia) ltac:(lia) ltac:(lia)).
    unfold SortSpec.get in Hs. rewrite !Nat2Z.id in Hs.
    rewrite (list_lookup_total_correct _ _ _ Hi),
            (list_lookup_total_correct _ _ _ Hj) in Hs.
    exact Hs.
  - unfold SortSpec.len. lia.
  - unfold SortSpec.len. lia.
  - intros Hpos. lia.
Qed.

End SortCorrect.

(** ** The comparators of [sortData] are strict weak orders *)

Lemma ascii_compare_lt_trans (a b c : Ascii.ascii) :
  Ascii.compare a b = Lt -> Ascii.compare b c = Lt -> Ascii.compare a c = Lt.
Proof.
  unfold Ascii.compare. rewrite !N.compare_lt_iff. apply N.lt_trans.
Qed.

Lemma ascii_compare_refl (a : Ascii.ascii) : Ascii.compare a a = Eq.
Proof.
  pose proof (Ascii.compare_antisym a a) as E.
  destruct (Ascii.compare a a); [reflexivity | discriminate | discriminate].
Qed.

Lemma string_compare_refl (s : string) : String.compare s s = Eq.
Proof.
  pose proof (String.compare_antisym s s) as E.
  destruct (String.compare s s); [reflexivity | discriminate | discriminate].
Qed.

Lemma string_compare_lt_trans (s t u : string) :
  String.compare s t = Lt -> String.compare t u = Lt -> String.compare s u = Lt.
Proof.
  revert t u. induction s as [|a s IH]; intros [|b t] [|c u]; simpl;
    try discriminate; try reflexivity.
  destruct (Ascii.compare a b) eqn:Eab; try discriminate;
    destruct (Ascii.compare b c) eqn:Ebc; try discriminate; intros H1 H2.
  - apply Ascii.compare_eq_iff in Eab, Ebc. subst.
    rewrite ascii_compare_refl. eauto.
  - apply Ascii.compare_eq_iff in Eab. subst. now rewrite Ebc.
  - apply Ascii.compare_eq_iff in Ebc. subst. now rewrite Eab.
  - now rewrite (ascii_compare_lt_trans a b c).
Qed.

Lemma string_compare_gt_lt (s t : string) :
  String.compare s t = Gt <-> String.compare t s = Lt.
Proof.
  rewrite (String.compare_antisym t s). destruct (String.compare s t); simpl;
    split; congruence.
Qed.

Lemma lt_irrefl (s : string) : GoStrings.lt s s = false.
Proof. unfold GoStrings.lt, String.ltb. now rewrite string_compare_refl. Qed.

Lemma lt_trans (s t u : string) :
  GoStrings.lt s t = true -> GoStrings.lt t u = true -> GoStrings.lt s u = true.
Proof.
  unfold GoStrings.lt, String.ltb.
  destruct (String.compare s t) eqn:E1; try discriminate.
  destruct (String.compare t u) eqn:E2; try discriminate.
  now rewrite (string_compare_lt_trans s t u).
Qed.

Lemma lt_ntrans (s t u : string) :
  GoStrings.lt s t = false -> GoStrings.lt t u = false -> GoStrings.lt s u = false.
Proof.
  unfold GoStrings.lt, String.ltb.
  destruct (String.compare s t) eqn:E1; try discriminate;
    destruct (String.compare t u) eqn:E2; try discriminate; intros _ _.
  - apply String.compare_eq_iff in E1, E2. subst. now rewrite string_compare_refl.
  - apply String.compare_eq_iff in E1. subst. now rewrite E2.
  - apply String.compare_eq_iff in E2. subst. now rewrite E1.
  - apply string_compare_gt_lt in E1, E2.
    pose proof (string_compare_lt_trans u t s E2 E1) as E3.
    apply string_compare_gt_lt in E3. now rewrite E3.
Qed.

(** The comparator of an ascending sort, as [isLess] builds it. *)
Lemma fieldLess_StrictWeak (orderField : string) (asc : Z) :
  SortSpec.StrictWeak (fun x y => fieldLess orderField x y && (asc =? asc)).
Proof.
  split; intros *; rewrite !Z.eqb_refl, !andb_true_r; unfold fieldLess;
    repeat case_match;
    auto using lt_irrefl; eauto using lt_trans, lt_ntrans; lia.
Qed.

(** ** C3: the sort stage, by direction *)

(** C3, amended: for every sequence and every recognized sort field, when the
    direction is not ascending the comparator never reports less and
    [sortData] returns the sequence as it is; when the direction is ascending
    the comparator is strictly-less on the selected field and [sortData]
    returns a permutation of the sequence in which no user comes before one
    that is strictly less than it on that field (the order of ties is the one
    [sort.Slice] leaves, which need not be the filtered order). *)
Theorem C3_sortData_by_direction (OrderByAsc : Z) data orderField orderBy :
  recognizedField orderField ->
  exists less,
    isLess OrderByAsc orderField orderBy = Some less /\
    (orderBy <> OrderByAsc ->
       (forall x y, less x y = false) /\
       sortData OrderByAsc data orderField orderBy = (data, None)) /\
    (orderBy = OrderByAsc ->
       (forall x y, less x y = fieldLess orderField x y) /\
       exists sorted,
         sortData OrderByAsc data orderField orderBy = (sorted, None) /\
         GoSlice.elems sorted ≡ₚ GoSlice.elems data /\
         SortSpec.Sorted (fieldLess orderField) (GoSlice.elems sorted)).
Proof.
  intros H. eexists. split; [apply isLess_recognized, H|]. split.
  - intros Hne. apply Z.eqb_neq in Hne.
    assert (Hnever : forall x y : User,
               fieldLess orderField x y && (orderBy =? OrderByAsc) = false).
    { intros. rewrite Hne. apply andb_false_r. }
    split; [exact Hnever|].
    unfold sortData. rewrite isLess_recognized by assumption.
    rewrite Slice_never by exact Hnever. now destruct data.
  - intros ->. split.
    + intros. rewrite Z.eqb_refl. apply andb_true_r.
    + unfold sortData. rewrite (isLess_recognized _ _ _ H).
      eexists. split; [reflexivity|]. cbn [GoSlice.elems]. split.
      * apply Slice_perm.
      * intros i j x y Hij Hi Hj.
        pose proof (Slice_sorted _ (fieldLess_StrictWeak orderField OrderByAsc)
                      (GoSlice.elems data) i j x y Hij Hi Hj) as Hs.
        cbv beta in Hs. now rewrite Z.eqb_refl, andb_true_r in Hs.
Qed.

(** C3, as the specification states it, fails on ties: of thirteen users
    sorted by age, ascending, the first and the seventh have the same age, and
    the seventh comes out before the first. *)
Lemma C3_counterexample :
  exists sorted,
    sortData orderByAsc (GoSlice.mk thirteen []) "age" orderByAsc = (sorted, None) /\
    thirteen !! 0%nat = Some (sampleUser 0 30) /\
    thirteen !! 6%nat = Some (sampleUser 6 30) /\
    GoSlice.elems sorted !! 1%nat = Some (sampleUser 6 30) /\
    GoSlice.elems sorted !! 6%nat = Some (sampleUser 0 30).
Proof. eexists. repeat split; vm_compute; reflexivity. Qed.

(** C3, amended, on the thirteen users and the field [age]: with the
    direction 1 they come back as they are; with the ascending direction
    they come back in order of age, the youngest first. *)
Lemma C3_witness :
  sortData orderByAsc (GoSlice.mk thirteen []) "age" 1 = (GoSlice.mk thirteen [], None) /\
  exists sorted,
    sortData orderByAsc (GoSlice.mk thirteen []) "age" orderByAsc = (sorted, None) /\
    GoSlice.elems sorted ≡ₚ thirteen /\
    SortSpec.Sorted (fieldLess "age") (GoSlice.elems sorted) /\
    GoSlice.elems sorted !! 0%nat = Some (sampleUser 12 21).
Proof.
  assert (H : recognizedField "age") by (right; right; right; reflexivity).
  split.
  - destruct (C3_sortData_by_direction orderByAsc (GoSlice.mk thirteen []) "age" 1 H)
      as (less & _ & Hnoop & _).
    apply Hnoop. unfold orderByAsc. lia.
  - destruct (C3_sortData_by_direction orderByAsc (GoSlice.mk thirteen []) "age"
                orderByAsc H) as (less & _ & _ & Hasc).
    destruct (Hasc eq_refl) as (_ & sorted & Hs & Hp & Ho).
    exists sorted. repeat split; try assumption.
    assert (E : sorted = (sortData orderByAsc (GoSlice.mk thirteen []) "age" orderByAsc).1)
      by now rewrite Hs.
    rewrite E. vm_compute. reflexivity.
Defined.

(** * Further properties of the pipeline

    ** The filter stage *)

Lemma string_app_assoc (s1 s2 s3 : string) : (s1 +:+ s2) +:+ s3 = s1 +:+ (s2 +:+ s3).
Proof. induction s1 as [|c s1 IH]; [reflexivity | exact (f_equal (String c) IH)]. Qed.

Lemma string_app_nil_r (s : string) : s +:+ "" = s.
Proof. induction s as [|c s IH]; [reflexivity | exact (f_equal (String c) IH)]. Qed.

Lemma Substring_trans q1 q2 s :
  GoStrings.Substring q1 q2 -> GoStrings.Substring q2 s -> GoStrings.Substring q1 s.
Proof.
  intros (pre1 & post1 & ->) (pre2 & post2 & ->).
  exists (pre2 +:+ pre1), (post1 +:+ post2).
  now rewrite !string_app_assoc.
Qed.

Lemma Substring_empty s : GoStrings.Substring "" s.
Proof. now exists "", s. Qed.

Lemma Substring_of_empty q : GoStrings.Substring q "" -> q = "".
Proof.
  intros (pre & post & H). destruct pre; simpl in H; [|discriminate].
  destruct q; [reflexivity | discriminate].
Qed.

Lemma Substring_fullName q r :
  GoStrings.Substring q (FirstName r) \/ GoStrings.Substring q (LastName r) ->
  GoStrings.Substring q (Name (userOfRow r)).
Proof.
  simpl. intros [H|H]; eapply Substring_trans; try exact H.
  - now exists "", (" " +:+ LastName r).
  - exists (FirstName r +:+ " "), "".
    now rewrite string_app_nil_r, string_app_assoc.
Qed.

Lemma Filtered_elem P rows users u :
  Filtered P rows users -> u ∈ users -> exists r, r ∈ rows /\ P r /\ u = userOfRow r.
Proof.
  induction 1 as [|r rows users Hr _ IH|r rows users _ _ IH]; intros Hu.
  - now apply elem_of_nil in Hu.
  - apply elem_of_cons in Hu as [->|Hu].
    + exists r. split; [left | auto].
    + destruct (IH Hu) as (r' & ? & ? & ?). exists r'. split; [now right | auto].
  - destruct (IH Hu) as (r' & ? & ? & ?). exists r'. split; [now right | auto].
Qed.

Lemma Filtered_sublist P Q rows users1 users2 :
  (forall r, P r -> Q r) ->
  Filtered P rows users1 -> Filtered Q rows users2 -> users1 `sublist_of` users2.
Proof.
  intros HPQ H1. revert users2.
  induction H1 as [|r rows users Hr _ IH|r rows users Hr _ IH];
    intros users2 H2; inversion H2; subst.
  - constructor.
  - apply sublist_skip. auto.
  - exfalso. auto.
  - apply sublist_cons. auto.
  - auto.
Qed.

(** X1: whatever [filterData] returns holds the filter in its full name or in
    its biography. *)
Theorem filterData_results_hold_query growcap data query u :
  u ∈ GoSlice.elems (filterData growcap data query) ->
  GoStrings.Substring query (Name u) \/ GoStrings.Substring query (About u).
Proof.
  intros Hu.
  destruct (Filtered_elem _ _ _ _ (filterData_Filtered growcap data query) Hu)
    as (r & _ & Hr & ->).
  destruct Hr as [-> | [H | [H | H]]].
  - left. apply Substring_empty.
  - left. apply Substring_fullName. now left.
  - left. apply Substring_fullName. now right.
  - right. exact H.
Qed.

(** X2: the result of [filterData] is a subsequence of the users of all rows:
    in the order of the data set, nothing added, nothing repeated. *)
Theorem filterData_subsequence growcap data query :
  GoSlice.elems (filterData growcap data query) `sublist_of` (userOfRow <$> Rows data).
Proof.
  rewrite <- (filterData_empty_query growcap data).
  eapply Filtered_sublist; [|apply filterData_Filtered..].
  intros r _. now left.
Qed.

(** X3: a longer filter narrows the result: when [q1] occurs in [q2], what
    [q2] keeps is a subsequence of what [q1] keeps. *)
Theorem filterData_narrows growcap data q1 q2 :
  GoStrings.Substring q1 q2 ->
  GoSlice.elems (filterData growcap data q2)
    `sublist_of` GoSlice.elems (filterData growcap data q1).
Proof.
  intros H. eapply Filtered_sublist; [|apply filterData_Filtered..].
  intros r [-> | Hr].
  - left. now apply Substring_of_empty.
  - right. destruct Hr as [Hr | [Hr | Hr]]; eauto using Substring_trans.
Qed.

(** X4: [filterData] leaves out no record that holds the filter in its
    first name, its last name or its biography. *)
Theorem filterData_keeps_every_match growcap data query r :
  r ∈ Rows data -> includedByFields query r ->
  userOfRow r ∈ GoSlice.elems (filterData growcap data query).
Proof.
  intros Hin Hr.
  pose proof (filterData_Filtered growcap data query) as HF.
  induction HF as [|r' rows users Hr' _ IH|r' rows users Hr' _ IH].
  - now apply elem_of_nil in Hin.
  - apply elem_of_cons in Hin as [->|Hin]; [left | right; auto].
  - apply elem_of_cons in Hin as [->|Hin]; [contradiction | auto].
Qed.

(** The backing array of the result holds zero users after its elements. *)
Lemma filterLoop_spare growcap rows query result :
  Forall (eq zeroUser) (GoSlice.spare result) ->
  Forall (eq zeroUser) (GoSlice.spare (filterLoop growcap rows query result)).
Proof.
  revert result. induction rows as [|r rows IH]; intros result H; simpl; [exact H|].
  case_match; [now apply IH|]. apply IH. unfold GoSlice.append.
  destruct (GoSlice.spare result) as [|z rest] eqn:E; simpl.
  - apply Forall_replicate. reflexivity.
  - now inversion H.
Qed.

Lemma filterData_spare growcap data query :
  Forall (eq zeroUser) (GoSlice.spare (filterData growcap data query)).
Proof. apply filterLoop_spare. constructor. Qed.


(** ** The paginate stage *)

Lemma sub_one_in_range limit :
  GoInt.in_range limit = true -> limit <> GoInt.minInt -> GoInt.sub limit 1 = limit - 1.
Proof.
  unfold GoInt.in_range, GoInt.minInt, GoInt.maxInt. intros H Hne.
  apply andb_prop in H as [H1 H2]. apply Z.leb_le in H1. apply Z.leb_le in H2.
  unfold GoInt.sub. apply wrap_in_range.
  unfold GoInt.in_range, GoInt.minInt, GoInt.maxInt.
  apply andb_true_intro. split; apply Z.leb_le; lia.
Qed.

Lemma sub_one_minInt : GoInt.sub GoInt.minInt 1 = GoInt.maxInt.
Proof. reflexivity. Qed.

(** The slice that the offset leaves, with its length and capacity. *)
Lemma paginate_offset_cap (data : GoSlice.slice User) offset :
  exists data',
    (if 0 <? offset
     then if offset <? GoSlice.len data then GoSlice.from data offset else Ok GoSlice.empty
     else Ok data) = Ok data' /\
    GoSlice.elems data' = dropOffset (GoSlice.elems data) offset /\
    GoSlice.cap data' = restCap data offset /\
    (GoSlice.spare data' = GoSlice.spare data \/ GoSlice.spare data' = []).
Proof.
  unfold dropOffset, restCap, GoSlice.from, GoSlice.len, GoSlice.cap.
  destruct (0 <? offset) eqn:E0; [|eauto 6]. apply Z.ltb_lt in E0.
  destruct (offset <? _) eqn:E1.
  - apply Z.ltb_lt in E1.
    replace ((0 <=? offset) && (offset <=? _)) with true
      by (symmetry; apply andb_true_intro; split; apply Z.leb_le; lia).
    eexists. split; [reflexivity|]. simpl. rewrite length_drop.
    split; [reflexivity|]. split; [lia | now left].
  - apply Z.ltb_ge in E1. exists GoSlice.empty. split; [reflexivity|].
    simpl. rewrite drop_ge by lia. auto.
Qed.


(** The page of a limit of two or more. *)
Lemma paginateData_page data offset limit result :
  GoInt.in_range limit = true ->
  2 <= limit ->
  paginateData data offset limit = Ok result ->
  GoSlice.len result = limit /\
  exists padding,
    padding `prefix_of` GoSlice.spare data /\
    GoSlice.elems result =
      take (Z.to_nat limit) (dropOffset (GoSlice.elems data) offset ++ padding).
Proof.
  intros Hr Hl. unfold paginateData.
  destruct (paginate_offset_cap data offset) as (data' & -> & He & _ & Hs).
  simpl. rewrite sub_one_in_range by (try assumption; unfold GoInt.minInt; lia).
  replace (0 <? limit - 1) with true by (symmetry; apply Z.ltb_lt; lia).
  unfold GoSlice.upto, GoSlice.cap, GoSlice.len.
  destruct ((0 <=? limit) && _) eqn:E; [|discriminate].
  apply andb_prop in E as [_ E]. apply Z.leb_le in E.
  intros [= <-]. simpl. split.
  - rewrite length_take, length_app. lia.
  - rewrite He. exists (GoSlice.spare data'). split; [|reflexivity].
    destruct Hs as [-> | ->]; [reflexivity | apply prefix_nil].
Qed.

(** X5: [paginateData] panics exactly when the limit is two or more and
    exceeds the capacity that the offset leaves, or is the least [int], whose
    [limit - 1] wraps around to a positive number. *)
Theorem paginateData_panics_iff data offset limit :
  GoInt.in_range limit = true ->
  paginateData data offset limit = Panic <->
  (2 <= limit /\ restCap data offset < limit) \/ limit = GoInt.minInt.
Proof.
  intros Hr. unfold paginateData.
  destruct (paginate_offset_cap data offset) as (data' & -> & _ & Hcap & _).
  simpl. rewrite <- Hcap. unfold GoSlice.upto.
  destruct (Z.eq_dec limit GoInt.minInt) as [->|Hne].
  - rewrite sub_one_minInt. simpl. split; [auto | reflexivity].
  - rewrite sub_one_in_range by assumption.
    destruct (0 <? limit - 1) eqn:E.
    + apply Z.ltb_lt in E.
      replace (0 <=? limit) with true by (symmetry; apply Z.leb_le; lia). simpl.
      destruct (limit <=? GoSlice.cap data') eqn:Ec.
      * apply Z.leb_le in Ec. split; [discriminate | intros [[_ H]|H]; [lia | contradiction]].
      * apply Z.leb_gt in Ec. split; [left; lia | reflexivity].
    + apply Z.ltb_ge in E. split; [discriminate | intros [[H _]|H]; [lia | contradiction]].
Qed.

(** X6: when the limit is two or more and [paginateData] returns, the page
    has exactly [limit] elements: never fewer, even when fewer are left. *)
Theorem paginateData_page_size data offset limit result :
  GoInt.in_range limit = true ->
  2 <= limit ->
  paginateData data offset limit = Ok result ->
  GoSlice.len result = limit.
Proof. intros Hr Hl H. now apply (paginateData_page data offset limit result). Qed.

(** X7: the elements of such a page beyond the ones left are what the
    backing array holds behind them. *)
Theorem paginateData_pads data offset limit result :
  GoInt.in_range limit = true ->
  2 <= limit ->
  paginateData data offset limit = Ok result ->
  exists padding,
    padding `prefix_of` GoSlice.spare data /\
    GoSlice.elems result =
      take (Z.to_nat limit) (dropOffset (GoSlice.elems data) offset ++ padding).
Proof. intros Hr Hl H. now apply (paginateData_page data offset limit result). Qed.

(** ** The sort stage and the parser *)

Lemma sortData_unrecognized OrderByAsc data orderField orderBy :
  ~ recognizedField orderField ->
  sortData OrderByAsc data orderField orderBy
  = (GoSlice.empty, Some (GoErrors.errorString "OrderField invalid")).
Proof. intros H. unfold sortData. now rewrite isLess_unrecognized. Qed.

Lemma recognizedField_dec orderField : recognizedField orderField \/ ~ recognizedField orderField.
Proof.
  unfold recognizedField.
  destruct (String.eqb_spec orderField ""); [tauto|].
  destruct (String.eqb_spec orderField "name"); [tauto|].
  destruct (String.eqb_spec orderField "id"); [tauto|].
  destruct (String.eqb_spec orderField "age"); tauto.
Qed.

Lemma sortData_None OrderByAsc data orderField orderBy :
  (sortData OrderByAsc data orderField orderBy).2 = None <-> recognizedField orderField.
Proof.
  split.
  - intros H. destruct (recognizedField_dec orderField) as [|Hn]; [assumption|].
    rewrite (sortData_unrecognized _ _ _ _ Hn) in H. discriminate.
  - intros H.
    destruct (sortData_recognized OrderByAsc data orderField orderBy H) as (s & -> & _).
    reflexivity.
Qed.

(** X8: [sortData] fails exactly on the fields it does not recognize (the
    match is case-sensitive), whatever the direction and the data; it then
    returns the [nil] slice with the error [OrderField invalid]. *)
Theorem sortData_fails_iff_unrecognized OrderByAsc data orderField orderBy :
  ((sortData OrderByAsc data orderField orderBy).2 = None <-> recognizedField orderField) /\
  (~ recognizedField orderField ->
   sortData OrderByAsc data orderField orderBy
   = (GoSlice.empty, Some (GoErrors.errorString "OrderField invalid"))).
Proof. split; [apply sortData_None | apply sortData_unrecognized]. Qed.

Lemma sortData_not_ascending OrderByAsc data orderField orderBy :
  orderBy <> OrderByAsc -> recognizedField orderField ->
  sortData OrderByAsc data orderField orderBy = (data, None).
Proof.
  intros Hd Hf. unfold sortData. rewrite isLess_recognized by assumption.
  rewrite Slice_never; [now destruct data|].
  intros x y. apply Z.eqb_neq in Hd. rewrite Hd. apply andb_false_r.
Qed.

(** X9: [parseParams] assigns every field of its receiver: what it returns
    does not depend on what the [queryDTO] held before. *)
Theorem parseParams_overwrites q q' r : parseParams q r = parseParams q' r.
Proof.
  unfold parseParams. cbv zeta.
  destruct (strconv.Atoi (http.Get (http.URL_Query r) "order_by")) as [n1 [e1|]];
  destruct (strconv.Atoi (http.Get (http.URL_Query r) "offset")) as [n2 [e2|]];
  destruct (strconv.Atoi (http.Get (http.URL_Query r) "limit")) as [n3 [e3|]];
  reflexivity.
Qed.

(** X10: the error of [parseParams] is an [Atoi] error on the raw value of
    [limit], and its text quotes that value. *)
Theorem parseParams_error_names_limit Quote q r e :
  (parseParams q r).2 = Some e ->
  exists kind,
    e = GoErrors.NumError "Atoi" (http.Get (http.URL_Query r) "limit") kind /\
    GoErrors.Error Quote e =
      "strconv.Atoi: parsing " +:+ Quote (http.Get (http.URL_Query r) "limit") +:+ ": "
      +:+ GoErrors.numErr_Error kind.
Proof.
  rewrite parseParams_error. unfold strconv.Atoi.
  destruct (strconv.ParseInt _) as [n [kind|]]; simpl; [|discriminate].
  intros [= <-]. exists kind. split; reflexivity.
Qed.

(** X11: for a recognized order field and the ascending direction,
    [sortData] returns the same users, none of them before one that is
    strictly less than it on that field. *)
Theorem sortData_ascending_sorts (OrderByAsc : Z) data orderField :
  recognizedField orderField ->
  exists sorted,
    sortData OrderByAsc data orderField OrderByAsc = (sorted, None) /\
    GoSlice.elems sorted ≡ₚ GoSlice.elems data /\
    SortSpec.Sorted (fieldLess orderField) (GoSlice.elems sorted).
Proof.
  intros Hf. unfold sortData. rewrite (isLess_recognized _ _ _ Hf).
  eexists. split; [reflexivity|]. cbn [GoSlice.elems]. split.
  - apply Slice_perm.
  - intros i j x y Hij Hi Hj.
    pose proof (Slice_sorted _ (fieldLess_StrictWeak orderField OrderByAsc)
                  (GoSlice.elems data) i j x y Hij Hi Hj) as Hs.
    cbv beta in Hs. now rewrite Z.eqb_refl, andb_true_r in Hs.
Qed.

(** Order is kept by leaving out a prefix or a suffix. *)
Lemma Sorted_drop {A} (less : A -> A -> bool) n l :
  SortSpec.Sorted less l -> SortSpec.Sorted less (drop n l).
Proof.
  intros Hs i j x y Hij Hi Hj. rewrite lookup_drop in Hi, Hj.
  apply (Hs (n + i)%nat (n + j)%nat); [lia | assumption | assumption].
Qed.

Lemma Sorted_take {A} (less : A -> A -> bool) n l :
  SortSpec.Sorted less l -> SortSpec.Sorted less (take n l).
Proof.
  intros Hs i j x y Hij Hi Hj.
  apply lookup_take_Some in Hi as [Hi _]. apply lookup_take_Some in Hj as [Hj _].
  now apply (Hs i j).
Qed.

Lemma Sorted_dropOffset less users offset :
  SortSpec.Sorted less users -> SortSpec.Sorted less (dropOffset users offset).
Proof. intros H. unfold dropOffset. case_match; [now apply Sorted_drop | assumption]. Qed.

Lemma dropOffset_subseteq users offset u : u ∈ dropOffset users offset -> u ∈ users.
Proof.
  unfold dropOffset. case_match; [|auto]. intros Hu.
  apply (subseteq_drop (Z.to_nat offset) users u Hu).
Qed.

(** ** The request handler *)

Section HandlerExtras.
Variables OrderByAsc OrderByAsIs : Z.
Variable growcap : nat -> nat.
Variable Quote : string -> string.

Local Abbreviation handler := (SearchServer OrderByAsc OrderByAsIs growcap Quote).
Local Abbreviation stagedSeq := (staged OrderByAsc OrderByAsIs growcap).

Lemma SearchServer_unauthorized src w r :
  http.AccessToken r <> accessToken ->
  handler src w r = Returned (http.Error w "Invalid AccessToken" http.StatusUnauthorized).
Proof.
  intros H. unfold SearchServer.
  destruct (String.eqb_spec (http.AccessToken r) accessToken); [contradiction | reflexivity].
Qed.

Lemma SearchServer_unavailable src w r err :
  http.AccessToken r = accessToken ->
  loadError src = Some err ->
  handler src w r =
    Returned (http.Error w (GoErrors.Error Quote err) http.StatusInternalServerError).
Proof.
  intros Ht H. unfold SearchServer. rewrite Ht, String.eqb_refl.
  destruct src; simplify_eq/=; reflexivity.
Qed.

(** X12: a request with another access token is answered [401 Invalid
    AccessToken] as plain text, whatever the state of the data source and
    the parameters: the token is checked before the file is opened. *)
Theorem SearchServer_bad_token src r :
  http.AccessToken r <> accessToken ->
  exists w,
    handler src http.NewRecorder r = Returned w /\
    http.status w = Some http.StatusUnauthorized /\
    http.body w = [http.Text ("Invalid AccessToken" +:+ http.nl)] /\
    http.header w !! "Content-Type" = Some "text/plain; charset=utf-8".
Proof.
  intros H. rewrite (SearchServer_unauthorized src _ r H).
  eexists. split; [reflexivity|]. repeat split.
Qed.

(** X13: when the data source cannot be opened, read or decoded, an
    authorized request is answered [500] with the text of that error; its
    parameters are not looked at. *)
Theorem SearchServer_source_unavailable src r err :
  http.AccessToken r = accessToken ->
  loadError src = Some err ->
  exists w,
    handler src http.NewRecorder r = Returned w /\
    http.status w = Some http.StatusInternalServerError /\
    http.body w = [http.Text (GoErrors.Error Quote err +:+ http.nl)].
Proof.
  intros Ht H. rewrite (SearchServer_unavailable src _ r err Ht H).
  eexists. repeat split.
Qed.

Lemma paginateAndSend_cases w result params :
  (exists page,
     paginateData result (offset params) (limit params) = Ok page /\
     paginateAndSend w result params = Returned (sendResponse w page)) \/
  (paginateData result (offset params) (limit params) = Panic /\
   paginateAndSend w result params = Panicked w).
Proof.
  unfold paginateAndSend.
  destruct (paginateData result (offset params) (limit params)); eauto.
Qed.

(** X14: the handler sends [200] in one case only: the token is accepted,
    the data loaded, the limit parsed, and the sort stage skipped or given a
    field it recognizes. *)
Theorem SearchServer_status_OK_iff src r w :
  handler src http.NewRecorder r = Returned w ->
  http.status w = Some http.StatusOK <->
  http.AccessToken r = accessToken /\
  loadError src = None /\
  (parseParams zeroQuery r).2 = None /\
  (orderBy (parseParams zeroQuery r).1 = OrderByAsIs \/
   recognizedField (orderField (parseParams zeroQuery r).1)).
Proof.
  destruct (String.eqb_spec (http.AccessToken r) accessToken) as [Ht|Ht].
  2:{ rewrite (SearchServer_unauthorized src _ r Ht).
      intros [= <-]. split; [discriminate | tauto]. }
  destruct (loadError src) as [err|] eqn:Hl.
  { rewrite (SearchServer_unavailable src _ r err Ht Hl).
    intros [= <-]. split; [discriminate | intros (_ & ? & _); discriminate]. }
  destruct src as [| | |data]; try discriminate.
  destruct (parseParams zeroQuery r) as [params err] eqn:Hp. simpl.
  rewrite (SearchServer_loaded _ _ _ _ data r params err Ht Hp). cbv zeta.
  assert (Hpag : forall result,
             paginateAndSend (afterParse Quote err) result params = Returned w ->
             http.status w = Some http.StatusOK <-> err = None).
  { intros result H.
    destruct (paginateAndSend_cases (afterParse Quote err) result params)
      as [(page & _ & E) | (_ & E)]; rewrite E in H; [|discriminate].
    injection H as <-. rewrite sendResponse_status, afterParse_status.
    destruct err; simpl; split; intros; try discriminate; reflexivity. }
  destruct (orderBy params =? OrderByAsIs) eqn:Ed; cbn [negb].
  - apply Z.eqb_eq in Ed. intros H. rewrite (Hpag _ H). tauto.
  - apply Z.eqb_neq in Ed.
    destruct (sortData _ _ _ _) as [sortedData [e|]] eqn:Es.
    + intros [= <-]. rewrite envelope_status, afterParse_status.
      assert (Hn : ~ recognizedField (orderField params)).
      { intros Hrec.
        destruct (sortData_recognized OrderByAsc (filterData growcap data (query params))
                    (orderField params) (orderBy params) Hrec) as (s & Hs & _).
        congruence. }
      destruct err; simpl; split; try discriminate; tauto.
    + intros H. rewrite (Hpag _ H).
      assert (Hrec : recognizedField (orderField params)).
      { apply (sortData_None OrderByAsc
                 (filterData growcap data (query params)) (orderField params)
                 (orderBy params)). now rewrite Es. }
      tauto.
Qed.

(** X15: a [200] response is a JSON response: its content type is
    [application/json] and its body is one array of users, with no error
    text before or after it. *)
Theorem SearchServer_OK_is_JSON src r w :
  handler src http.NewRecorder r = Returned w ->
  http.status w = Some http.StatusOK ->
  http.header w !! "Content-Type" = Some "application/json" /\
  exists users, http.body w = [http.JSON users].
Proof.
  destruct (String.eqb_spec (http.AccessToken r) accessToken) as [Ht|Ht].
  2:{ rewrite (SearchServer_unauthorized src _ r Ht). intros [= <-]. discriminate. }
  destruct (loadError src) as [e|] eqn:Hl.
  { rewrite (SearchServer_unavailable src _ r e Ht Hl). intros [= <-]. discriminate. }
  destruct src as [| | |data]; try discriminate.
  destruct (parseParams zeroQuery r) as [params err] eqn:Hp.
  rewrite (SearchServer_loaded _ _ _ _ data r params err Ht Hp). cbv zeta.
  assert (Hpag : forall result,
             paginateAndSend (afterParse Quote err) result params = Returned w ->
             http.status w = Some http.StatusOK ->
             http.header w !! "Content-Type" = Some "application/json" /\
             exists users, http.body w = [http.JSON users]).
  { intros result H.
    destruct (paginateAndSend_cases (afterParse Quote err) result params)
      as [(page & _ & E) | (_ & E)]; rewrite E in H; [|discriminate].
    injection H as <-. rewrite sendResponse_status, afterParse_status.
    destruct err; [discriminate|]. intros _. split; [reflexivity|].
    rewrite sendResponse_body. eauto. }
  destruct (negb (orderBy params =? OrderByAsIs)); [|apply Hpag].
  destruct (sortData _ _ _ _) as [sortedData [e|]]; [|apply Hpag].
  intros [= <-]. rewrite envelope_status, afterParse_status.
  destruct err; discriminate.
Qed.

(** X16: with a recognized field, every direction but ascending gives the
    response of the direction as-is: a descending request is not sorted. *)
Theorem SearchServer_not_ascending_is_as_is data r params err :
  http.AccessToken r = accessToken ->
  parseParams zeroQuery r = (params, err) ->
  orderBy params <> OrderByAsc ->
  recognizedField (orderField params) ->
  handler (Loaded data) http.NewRecorder r =
    paginateAndSend (afterParse Quote err)
                    (filterData growcap data (query params)) params.
Proof.
  intros Ht Hp Hd Hf.
  rewrite (SearchServer_staged _ _ _ _ data r params err Ht Hp (or_intror Hf)).
  unfold staged. cbv zeta. destruct (orderBy params =? OrderByAsIs); [reflexivity|].
  now rewrite sortData_not_ascending.
Qed.

Lemma staged_spare data params :
  orderBy params = OrderByAsIs \/ recognizedField (orderField params) ->
  GoSlice.spare (stagedSeq data params)
  = GoSlice.spare (filterData growcap data (query params)).
Proof.
  intros H. unfold staged. cbv zeta.
  destruct (orderBy params =? OrderByAsIs) eqn:E; [reflexivity|].
  destruct H as [H|H]; [apply Z.eqb_neq in E; contradiction|].
  destruct (sortData_recognized OrderByAsc
              (filterData growcap data (query params))
              (orderField params) (orderBy params) H) as (s & -> & _ & Hs).
  exact Hs.
Qed.



(** X18: with a limit of one or less (the least [int] apart), or with a limit
    that does not parse, the handler returns, whatever the token, the data
    source and the other parameters: it does not panic. *)
Theorem SearchServer_small_limit_returns src r :
  GoInt.minInt < limit (parseParams zeroQuery r).1 <= 1 ->
  exists w, handler src http.NewRecorder r = Returned w.
Proof.
  intros Hl.
  destruct (String.eqb_spec (http.AccessToken r) accessToken) as [Ht|Ht].
  2:{ rewrite (SearchServer_unauthorized src _ r Ht). eauto. }
  destruct (loadError src) as [err|] eqn:Hs.
  { rewrite (SearchServer_unavailable src _ r err Ht Hs). eauto. }
  destruct src as [| | |data]; try discriminate.
  destruct (parseParams zeroQuery r) as [params err] eqn:Hp. simpl in Hl.
  rewrite (SearchServer_loaded _ _ _ _ data r params err Ht Hp). cbv zeta.
  assert (Hpag : forall w result, exists w',
             paginateAndSend w result params = Returned w').
  { intros w result.
    destruct (paginateData_untruncated result (offset params) (limit params) Hl)
      as (page & Hpage & _).
    unfold paginateAndSend. rewrite Hpage. eauto. }
  destruct (negb (orderBy params =? OrderByAsIs)); [|apply Hpag].
  destruct (sortData _ _ _ _) as [sortedData [e|]]; [eauto | apply Hpag].
Qed.

(** X19: when the handler panics, nothing has been written on the response:
    a panic needs a limit that parsed, so no parse error was sent before. *)
Theorem SearchServer_panic_writes_nothing src r w :
  handler src http.NewRecorder r = Panicked w -> w = http.NewRecorder.
Proof.
  destruct (String.eqb_spec (http.AccessToken r) accessToken) as [Ht|Ht].
  2:{ rewrite (SearchServer_unauthorized src _ r Ht). discriminate. }
  destruct (loadError src) as [err|] eqn:Hs.
  { rewrite (SearchServer_unavailable src _ r err Ht Hs). discriminate. }
  destruct src as [| | |data]; try discriminate.
  destruct (parseParams zeroQuery r) as [params err] eqn:Hp.
  rewrite (SearchServer_loaded _ _ _ _ data r params err Ht Hp). cbv zeta.
  assert (Hpag : forall result,
             paginateAndSend (afterParse Quote err) result params = Panicked w ->
             w = http.NewRecorder).
  { intros result H.
    destruct (paginateAndSend_cases (afterParse Quote err) result params)
      as [(page & _ & E) | (Hpanic & E)]; rewrite E in H; [discriminate|].
    injection H as <-. destruct err as [e|]; [exfalso | reflexivity].
    pose proof (parseParams_error_limit zeroQuery r e) as Hl. rewrite Hp in Hl.
    specialize (Hl eq_refl). simpl in Hl.
    destruct (paginateData_untruncated result (offset params) (limit params))
      as (page & Hpage & _); [rewrite Hl; unfold GoInt.minInt; lia | congruence]. }
  destruct (negb (orderBy params =? OrderByAsIs)); [|apply Hpag].
  destruct (sortData _ _ _ _) as [sortedData [e|]]; [discriminate | apply Hpag].
Qed.

Lemma Forall_eq_replicate (z : User) l : Forall (eq z) l -> l = replicate (length l) z.
Proof. induction 1 as [|x l <- _ IH]; simpl; [reflexivity | now rewrite <- IH]. Qed.

(** X20: a page longer than what the offset leaves is filled up with zero
    users. For every request answered with a page (token accepted, data
    loaded, parameters parsed, sort stage skipped or accepting the field,
    limit two or more), the records of the response are the first [limit]
    of the remaining records followed by zero users; there are [limit] of
    them. *)
Theorem SearchServer_pads_with_zero_users data r params w :
  http.AccessToken r = accessToken ->
  parseParams zeroQuery r = (params, None) ->
  orderBy params = OrderByAsIs \/ recognizedField (orderField params) ->
  2 <= limit params ->
  handler (Loaded data) http.NewRecorder r = Returned w ->
  Z.of_nat (length (recordsOf w)) = limit params /\
  exists k,
    recordsOf w =
      take (Z.to_nat (limit params))
           (dropOffset (GoSlice.elems (stagedSeq data params)) (offset params)
            ++ replicate k zeroUser).
Proof.
  intros Ht Hp Hf Hl.
  rewrite (SearchServer_staged _ _ _ _ data r params None Ht Hp Hf).
  pose proof (parseParams_in_range zeroQuery r) as [_ Hr]. rewrite Hp in Hr.
  simpl in Hr.
  destruct (paginateAndSend_cases (afterParse Quote None) (stagedSeq data params) params)
    as [(page & Hpage & E) | (_ & E)]; rewrite E; [|discriminate].
  intros [= Hw]. subst w.
  assert (Hrec : recordsOf (sendResponse (afterParse Quote None) page)
                 = GoSlice.elems page).
  { unfold recordsOf. rewrite sendResponse_body. simpl. apply app_nil_r. }
  change (afterParse Quote None) with http.NewRecorder in Hrec.
  rewrite Hrec.
  destruct (paginateData_page _ _ _ _ Hr Hl Hpage) as [Hlen (padding & Hpre & Hel)].
  split.
  - exact Hlen.
  - rewrite Hel. exists (length padding). f_equal. f_equal.
    apply Forall_eq_replicate.
    rewrite staged_spare in Hpre by assumption.
    destruct Hpre as [rest Hrest].
    pose proof (filterData_spare growcap data (query params)) as Hz.
    rewrite Hrest in Hz. now apply Forall_app in Hz as [Hz _].
Qed.

(** X21: an ascending search on a recognized field answers in order. For
    every such request (token accepted, data loaded) whose limit is not the
    least [int] and is one or less, or no more than what the offset leaves of
    the filtered records, the handler returns, and the records of the response are records of the
    filter result, none of them before one that is strictly less than it on
    the field. *)
Theorem SearchServer_ascending_in_order data r params err :
  http.AccessToken r = accessToken ->
  parseParams zeroQuery r = (params, err) ->
  orderBy params = OrderByAsc ->
  OrderByAsc <> OrderByAsIs ->
  recognizedField (orderField params) ->
  GoInt.minInt < limit params ->
  limit params <= 1 \/
  limit params <=
    Z.of_nat (length (dropOffset (GoSlice.elems (filterData growcap data (query params)))
                                 (offset params))) ->
  exists w,
    handler (Loaded data) http.NewRecorder r = Returned w /\
    SortSpec.Sorted (fieldLess (orderField params)) (recordsOf w) /\
    forall u, u ∈ recordsOf w -> u ∈ GoSlice.elems (filterData growcap data (query params)).
Proof.
  intros Ht Hp Ha Hne Hf Hmin Hl.
  rewrite (SearchServer_staged _ _ _ _ data r params err Ht Hp (or_intror Hf)).
  pose proof (staged_perm OrderByAsc OrderByAsIs growcap data params (or_intror Hf)) as Hperm.
  assert (Hsorted : SortSpec.Sorted (fieldLess (orderField params))
                      (GoSlice.elems (stagedSeq data params))).
  { unfold staged. cbv zeta. rewrite Ha.
    destruct (Z.eqb_spec OrderByAsc OrderByAsIs) as [|_]; [contradiction|].
    unfold sortData. rewrite (isLess_recognized _ _ _ Hf). cbn [fst GoSlice.elems].
    intros i j x y Hij Hi Hj.
    pose proof (Slice_sorted _ (fieldLess_StrictWeak (orderField params) OrderByAsc)
                  _ i j x y Hij Hi Hj) as Hs.
    cbv beta in Hs. now rewrite Z.eqb_refl, andb_true_r in Hs. }
  pose proof (parseParams_in_range zeroQuery r) as [_ Hr]. rewrite Hp in Hr.
  simpl in Hr.
  assert (Hpage : exists page n,
             paginateData (stagedSeq data params) (offset params) (limit params) = Ok page /\
             GoSlice.elems page
             = take n (dropOffset (GoSlice.elems (stagedSeq data params)) (offset params))).
  { destruct (Z_le_dec (limit params) 1) as [H1|H1].
    - destruct (paginateData_untruncated (stagedSeq data params) (offset params)
                  (limit params) ltac:(lia)) as (page & Hpg & Hel).
      exists page, (length (GoSlice.elems page)). split; [exact Hpg|].
      rewrite <- Hel. symmetry. apply firstn_all.
    - destruct Hl as [Hl|Hl]; [lia|].
      rewrite (length_dropOffset _ _ (offset params) (Permutation_length (symmetry Hperm)))
        in Hl.
      destruct (paginateData_truncated (stagedSeq data params) (offset params)
                  (limit params) ltac:(lia)) as (page & Hpg & Hel).
      { unfold GoInt.in_range in Hr. apply andb_prop in Hr as [_ Hr].
        now apply Z.leb_le in Hr. }
      eauto. }
  destruct Hpage as (page & n & Hpg & Hel).
  unfold paginateAndSend. rewrite Hpg. eexists. split; [reflexivity|].
  assert (Hrec : recordsOf (sendResponse (afterParse Quote err) page) = GoSlice.elems page).
  { rewrite (recordsOf_app (afterParse Quote err) _ _ (sendResponse_body _ page)).
    rewrite recordsOf_afterParse. simpl. apply app_nil_r. }
  rewrite Hrec, Hel. split.
  - apply Sorted_take, Sorted_dropOffset, Hsorted.
  - intros u Hu. rewrite <- Hperm. apply (dropOffset_subseteq _ (offset params)).
    apply (subseteq_take n _ u Hu).
Qed.

End HandlerExtras.

(** ** The further properties on the examples *)

(** X1 on the one record of [oneRecord] and the filter [Wolf]. *)
Lemma filterData_results_hold_query_witness :
  GoStrings.Substring "Wolf" (Name (userOfRow boydWolf)) \/
  GoStrings.Substring "Wolf" (About (userOfRow boydWolf)).
Proof.
  apply (filterData_results_hold_query growDouble oneRecord "Wolf" (userOfRow boydWolf)).
  vm_compute. apply list_elem_of_here.
Defined.

(** X3 on the filters [Wo] and [Wolf]. *)
Lemma filterData_narrows_witness :
  GoSlice.elems (filterData growDouble (sampleData 3) "Wolf")
    `sublist_of` GoSlice.elems (filterData growDouble (sampleData 3) "Wo").
Proof.
  apply (filterData_narrows growDouble (sampleData 3) "Wo" "Wolf").
  exists "", "lf". reflexivity.
Defined.

(** X4 on the one record of [oneRecord] and the filter [Boyd]. *)
Lemma filterData_keeps_every_match_witness :
  userOfRow boydWolf ∈ GoSlice.elems (filterData growDouble oneRecord "Boyd").
Proof.
  apply (filterData_keeps_every_match growDouble oneRecord "Boyd" boydWolf).
  - apply list_elem_of_here.
  - right. left. exists "", "". reflexivity.
Defined.

(** X5 on five records in a backing array of eight, and a limit of ten. *)
Lemma paginateData_panics_iff_witness :
  paginateData fiveOfEight 0 10 = Panic <->
  (2 <= 10 /\ restCap fiveOfEight 0 < 10) \/ 10 = GoInt.minInt.
Proof. apply (paginateData_panics_iff fiveOfEight 0 10). reflexivity. Defined.

(** X6 on the same slice: an offset of one leaves four records, the page
    of a limit of six has six. *)
Lemma paginateData_page_size_witness :
  exists result,
    paginateData fiveOfEight 1 6 = Ok result /\ GoSlice.len result = 6.
Proof.
  eexists. split; [vm_compute; reflexivity|].
  apply (paginateData_page_size fiveOfEight 1 6);
    [reflexivity | lia | vm_compute; reflexivity].
Defined.

(** X7 on the same slice. *)
Lemma paginateData_pads_witness :
  exists result,
    paginateData fiveOfEight 1 6 = Ok result /\
    exists padding,
      padding `prefix_of` GoSlice.spare fiveOfEight /\
      GoSlice.elems result =
        take (Z.to_nat 6) (dropOffset (GoSlice.elems fiveOfEight) 1 ++ padding).
Proof.
  eexists. split; [vm_compute; reflexivity|].
  apply (paginateData_pads fiveOfEight 1 6);
    [reflexivity | lia | vm_compute; reflexivity].
Defined.

(** X10 on a limit that is no number. *)
Lemma parseParams_error_names_limit_witness :
  exists kind,
    GoErrors.NumError "Atoi" "ten" GoErrors.ErrSyntax =
      GoErrors.NumError "Atoi" (http.Get (http.URL_Query malformedLimit) "limit") kind /\
    GoErrors.Error quotePlain (GoErrors.NumError "Atoi" "ten" GoErrors.ErrSyntax) =
      "strconv.Atoi: parsing "
      +:+ quotePlain (http.Get (http.URL_Query malformedLimit) "limit") +:+ ": "
      +:+ GoErrors.numErr_Error kind.
Proof.
  apply (parseParams_error_names_limit quotePlain zeroQuery malformedLimit).
  vm_compute. reflexivity.
Defined.

(** X11 on thirteen users, the last the youngest, sorted by age. *)
Lemma sortData_ascending_sorts_witness :
  exists sorted,
    sortData orderByAsc (GoSlice.mk thirteen []) "age" orderByAsc = (sorted, None) /\
    GoSlice.elems sorted ≡ₚ thirteen /\
    SortSpec.Sorted (fieldLess "age") (GoSlice.elems sorted).
Proof.
  apply (sortData_ascending_sorts orderByAsc (GoSlice.mk thirteen []) "age").
  right. right. right. reflexivity.
Defined.

(** X12 on a request with the token [guess], the data file missing. *)
Lemma SearchServer_bad_token_witness :
  exists w,
    SearchServer orderByAsc orderByAsIs growDouble quotePlain missingFile
                 http.NewRecorder badToken = Returned w /\
    http.status w = Some http.StatusUnauthorized /\
    http.body w = [http.Text ("Invalid AccessToken" +:+ http.nl)] /\
    http.header w !! "Content-Type" = Some "text/plain; charset=utf-8".
Proof.
  apply (SearchServer_bad_token orderByAsc orderByAsIs growDouble quotePlain
           missingFile badToken).
  vm_compute. discriminate.
Defined.

(** X13 on a request with the right token, the data file missing. *)
Lemma SearchServer_source_unavailable_witness :
  exists w,
    SearchServer orderByAsc orderByAsIs growDouble quotePlain missingFile
                 http.NewRecorder limit26 = Returned w /\
    http.status w = Some http.StatusInternalServerError /\
    http.body w =
      [http.Text (GoErrors.Error quotePlain
                    (GoErrors.errorString "open dataset.xml: no such file or directory")
                  +:+ http.nl)].
Proof.
  apply (SearchServer_source_unavailable orderByAsc orderByAsIs growDouble quotePlain
           missingFile limit26); reflexivity.
Defined.

(** X14 on the request with the limit 26. *)
Lemma SearchServer_status_OK_iff_witness :
  http.status (written (handler35 limit26)) = Some http.StatusOK <->
  http.AccessToken limit26 = accessToken /\
  loadError (Loaded (sampleData 35)) = None /\
  (parseParams zeroQuery limit26).2 = None /\
  (orderBy (parseParams zeroQuery limit26).1 = orderByAsIs \/
   recognizedField (orderField (parseParams zeroQuery limit26).1)).
Proof.
  apply (SearchServer_status_OK_iff orderByAsc orderByAsIs growDouble quotePlain
           (Loaded (sampleData 35)) limit26 (written (handler35 limit26))).
  vm_compute. reflexivity.
Defined.

(** X15 on the same request. *)
Lemma SearchServer_OK_is_JSON_witness :
  http.header (written (handler35 limit26)) !! "Content-Type" = Some "application/json" /\
  exists users, http.body (written (handler35 limit26)) = [http.JSON users].
Proof.
  apply (SearchServer_OK_is_JSON orderByAsc orderByAsIs growDouble quotePlain
           (Loaded (sampleData 35)) limit26 (written (handler35 limit26)));
    vm_compute; reflexivity.
Defined.

(** X16 on a descending request by identifier. *)
Lemma SearchServer_not_ascending_is_as_is_witness :
  handler35 descendingById =
    paginateAndSend (afterParse quotePlain None)
                    (filterData growDouble (sampleData 35) "") (QueryDTO "" "id" 1 0 5).
Proof.
  refine (SearchServer_not_ascending_is_as_is orderByAsc orderByAsIs growDouble quotePlain
            (sampleData 35) descendingById (QueryDTO "" "id" 1 0 5) None _ _ _ _).
  - reflexivity.
  - vm_compute. reflexivity.
  - simpl. unfold orderByAsc. lia.
  - right. right. left. reflexivity.
Defined.


(** X18 on a request without a limit. *)
Lemma SearchServer_small_limit_returns_witness :
  exists w, handler35 queryOnly = Returned w.
Proof.
  apply (SearchServer_small_limit_returns orderByAsc orderByAsIs growDouble quotePlain
           (Loaded (sampleData 35)) queryOnly).
  vm_compute. split; [reflexivity | discriminate].
Defined.

(** X19 on an offset that leaves no record. *)
Lemma SearchServer_panic_writes_nothing_witness :
  written (handler35 offset35) = http.NewRecorder.
Proof.
  apply (SearchServer_panic_writes_nothing orderByAsc orderByAsIs growDouble quotePlain
           (Loaded (sampleData 35)) offset35).
  vm_compute. reflexivity.
Defined.

(** X20 on five records: an offset of one leaves four, for a page of six. *)
Lemma SearchServer_pads_with_zero_users_witness :
  Z.of_nat (length (recordsOf (written (handler5 offset1)))) = 6 /\
  exists k,
    recordsOf (written (handler5 offset1)) =
      take (Z.to_nat 6)
           (dropOffset (GoSlice.elems (staged orderByAsc orderByAsIs growDouble
                                              (sampleData 5) (QueryDTO "" "" 0 1 6)))
                       1
            ++ replicate k zeroUser).
Proof.
  refine (SearchServer_pads_with_zero_users orderByAsc orderByAsIs growDouble quotePlain
            (sampleData 5) offset1 (QueryDTO "" "" 0 1 6)
            (written (handler5 offset1)) _ _ _ _ _).
  - reflexivity.
  - vm_compute. reflexivity.
  - left. reflexivity.
  - simpl. lia.
  - vm_compute. reflexivity.
Defined.

(** X21 on an ascending request by age. *)
Lemma SearchServer_ascending_in_order_witness :
  exists w,
    handler35 ascendingByAge = Returned w /\
    SortSpec.Sorted (fieldLess "age") (recordsOf w) /\
    forall u, u ∈ recordsOf w -> u ∈ GoSlice.elems (filterData growDouble (sampleData 35) "").
Proof.
  refine (SearchServer_ascending_in_order orderByAsc orderByAsIs growDouble quotePlain
            (sampleData 35) ascendingByAge (QueryDTO "" "age" (-1) 0 5) None
            _ _ _ _ _ _ _).
  - reflexivity.
  - vm_compute. reflexivity.
  - reflexivity.
  - unfold orderByAsc, orderByAsIs. lia.
  - right. right. right. reflexivity.
  - simpl. unfold GoInt.minInt. lia.
  - right. vm_compute. discriminate.
Defined.

(** The padded page of X20, and the order of X21, on the responses. *)
Example offset1_response :
  ID <$> recordsOf (written (handler5 offset1)) = [1; 2; 3; 4; 0; 0].
Proof. vm_compute. reflexivity. Qed.

Example ascendingByAge_response :
  Age <$> recordsOf (written (handler35 ascendingByAge)) = [20; 20; 20; 20; 20].
Proof. vm_compute. reflexivity. Qed.
